(** * Wildfire spread automaton: terrain classifier, fire-spread tick, ignition.

    A shallow embedding of the simulation core
    ([utils/terrainClassifier.ts], [utils/cellularAutomata.ts],
    [utils/tileUtils.ts], [utils/tileProcessor.ts]).

    Numbers are the IEEE-754 binary64 values of the source language,
    embedded as Rocq's primitive [float]; every arithmetic operation and
    comparison below rounds exactly as the source does.  [Math.random] is
    a tape of draws read through a cursor, and a thrown [TypeError] is an
    explicit outcome. *)

From Stdlib Require Import ZArith List Bool Lia Lra Floats Reals.
From Stdlib Require String.
From stdpp Require Import base list.
Import ListNotations.

Set Warnings "-inexact-float".
#[local] Open Scope float_scope.

(** ** Numbers of the source language *)

Module Js.

(** The integer [z] as a number (exact below 2^53, rounded to nearest
    above). *)
Definition of_Z (z : Z) : float :=
  SF2Prim (binary_normalize prec emax z 0 false).

(** [Math.floor]: the greatest integral number not above [x]; NaN, the
    infinities and both zeros are returned as they are. *)
Definition Math_floor (x : float) : float :=
  match Prim2SF x with
  | S754_finite s m e =>
      if (0 <=? e)%Z then x
      else
        let v := if s then Z.neg m else Z.pos m in
        SF2Prim (binary_normalize prec emax (Z.shiftr v (- e)) 0 s)
  | _ => x
  end.

(** [Math.round]: the integral number closest to [x], ties towards
    +infinity; a result of zero keeps the sign of [x]. *)
Definition Math_round (x : float) : float :=
  match Prim2SF x with
  | S754_finite s m e =>
      if (0 <=? e)%Z then x
      else
        let v := if s then Z.neg m else Z.pos m in
        let twice := (2 * v + 2 ^ (- e))%Z in
        SF2Prim (binary_normalize prec emax (Z.shiftr twice (1 - e)) 0 s)
  | _ => x
  end.

(** [Math.max] and [Math.min] of two numbers: NaN when either is NaN,
    and +0 counts as larger than -0. *)
Definition Math_max (a b : float) : float :=
  if is_nan a || is_nan b then nan
  else if a <? b then b
  else if b <? a then a
  else if get_sign a then b else a.

Definition Math_min (a b : float) : float :=
  if is_nan a || is_nan b then nan
  else if a <? b then a
  else if b <? a then b
  else if get_sign a then a else b.

(** The three-argument [Math.max(r, g, b)] and [Math.min(r, g, b)]. *)
Definition Math_max3 (a b c : float) : float := Math_max (Math_max a b) c.
Definition Math_min3 (a b c : float) : float := Math_min (Math_min a b) c.

(** The remainder operator [n % d]: truncated, exact, with the sign of
    the dividend. *)
Definition rem (n d : float) : float :=
  match Prim2SF n, Prim2SF d with
  | S754_nan, _ | _, S754_nan => nan
  | S754_infinity _, _ => nan
  | _, S754_zero _ => nan
  | _, S754_infinity _ => n
  | S754_zero _, _ => n
  | S754_finite sn mn en, S754_finite _ md ed =>
      let e := Z.min en ed in
      let a := (Z.pos mn * 2 ^ (en - e))%Z in
      let b := (Z.pos md * 2 ^ (ed - e))%Z in
      let r := Z.rem a b in
      SF2Prim (binary_normalize prec emax (if sn then - r else r) e sn)
  end.

(** [Math.PI]. *)
Definition Math_PI : float := 0x1.921fb54442d18p+1.

End Js.

(** ** Data model ([types/simulation.ts]) *)

Inductive TerrainType := FOREST | GRASS | URBAN | WATER | FARMLAND.

Inductive BurnState := UNBURNED | BURNING | BURNED.

#[global] Instance TerrainType_eq_dec : EqDecision TerrainType.
Proof. solve_decision. Defined.

#[global] Instance BurnState_eq_dec : EqDecision BurnState.
Proof. solve_decision. Defined.

Module Cell.
Record t := mk {
  terrain : TerrainType;
  burnState : BurnState;
  x : float;
  y : float;
  windX : float;
  windY : float;
  humidity : float;
  temperature : float;
  burnIntensity : float;
  burnDuration : float
}.

(** [{ ...cell, burnState, burnIntensity, burnDuration }]: the three
    fields the automaton and the ignition command assign. *)
Definition with_burn (c : t) (st : BurnState) (intensity duration : float) : t :=
  {| terrain := terrain c; burnState := st; x := x c; y := y c;
     windX := windX c; windY := windY c;
     humidity := humidity c; temperature := temperature c;
     burnIntensity := intensity; burnDuration := duration |}.
End Cell.

Module SimulationParams.
Record t := mk {
  gridCellSize : float;
  windSpeed : float;
  windDirection : float;
  temperature : float;
  humidity : float;
  rainLikelihood : float
}.
End SimulationParams.

Module BoundingBox.
Record t := mk { north : float; south : float; east : float; west : float }.
End BoundingBox.

(** A grid row is an array of cells and the grid an array of rows;
    [width] and [height] are the integral numbers the rasterizer stores
    beside them. *)
Module GridData.
Record t := mk {
  cells : list (list Cell.t);
  width : Z;
  height : Z;
  bounds : BoundingBox.t;
  cellSize : float
}.

(** [{ ...gridData, cells: newGrid }] *)
Definition with_cells (g : t) (newGrid : list (list Cell.t)) : t :=
  {| cells := newGrid; width := width g; height := height g;
     bounds := bounds g; cellSize := cellSize g |}.
End GridData.

(** ** Terrain classifier ([utils/terrainClassifier.ts]) *)

Module Hsv.
Record t := mk { h : float; s : float; v : float }.
End Hsv.

Definition rgbToHsv (r g b : float) : Hsv.t :=
  let r := r / 255 in
  let g := g / 255 in
  let b := b / 255 in
  let max := Js.Math_max3 r g b in
  let min := Js.Math_min3 r g b in
  let diff := max - min in
  let h :=
    if negb (diff =? 0) then
      if max =? r then Js.rem ((g - b) / diff) 6
      else if max =? g then (b - r) / diff + 2
      else (r - g) / diff + 4
    else 0 in
  let h := Js.Math_round (60 * h) in
  let h := if h <? 0 then h + 360 else h in
  let s := if max =? 0 then 0 else Js.Math_round ((diff / max) * 100) in
  let v := Js.Math_round (max * 100) in
  {| Hsv.h := h; Hsv.s := s; Hsv.v := v |}.

Definition classifyTerrain (r g b : float) : TerrainType :=
  let '(Hsv.mk h s v) := rgbToHsv r g b in
  (* Water: blue tones *)
  if (180 <=? h) && (h <=? 240) && (30 <? s) && (20 <? v) then WATER
  (* Forest: dark green tones *)
  else if (80 <=? h) && (h <=? 160) && (30 <? s) && (v <? 60) then FOREST
  (* Grass: light green tones *)
  else if (60 <=? h) && (h <=? 120) && (20 <? s) && (40 <=? v) then GRASS
  (* Urban: gray tones *)
  else if (s <? 20) && (30 <? v) && (v <? 80) then URBAN
  (* Farmland: yellow/brown tones *)
  else if ((30 <=? h) && (h <=? 60)) || ((0 <=? h) && (h <=? 30)) then FARMLAND
  (* Default to grass for unclassified areas *)
  else GRASS.

(** The [default] arm of the source's [switch] (0.3) is unreachable: the
    enumeration is closed. *)
Definition getFlammability (terrain : TerrainType) : float :=
  match terrain with
  | FOREST => 0.8
  | GRASS => 0.6
  | FARMLAND => 0.4
  | URBAN => 0.2
  | WATER => 0.0
  end.

(** ** Effects: thrown errors and [Math.random] *)

(** How a call ends: normally with a value, or by throwing the
    [TypeError] of a property read on [undefined]. *)
Inductive completion (A : Type) : Type :=
| Normal (a : A)
| TypeError.
Arguments Normal {A} a.
Arguments TypeError {A}.

(** The random source: [draws] is the sequence of values [Math.random]
    will return and [cursor] the index of the next one. *)
Module Rng.
Record t := mk { draws : nat -> float; cursor : nat }.

Definition next (g : t) : float * t :=
  (draws g (cursor g), {| draws := draws g; cursor := S (cursor g) |}).

(** [Math.random] returns a number in [0, 1). *)
Definition unit_interval (g : t) : Prop :=
  forall n, (0 <=? draws g n) = true /\ (draws g n <? 1) = true.
End Rng.

(** Computations that may draw random numbers and may throw. *)
Definition Sim (A : Type) : Type := Rng.t -> completion (A * Rng.t).

Definition ret {A} (a : A) : Sim A := fun g => Normal (a, g).

Definition throw {A} : Sim A := fun _ => TypeError.

Definition bind {A B} (m : Sim A) (k : A -> Sim B) : Sim B :=
  fun g =>
    match m g with
    | Normal (a, g') => k a g'
    | TypeError => TypeError
    end.

Definition lift {A} (c : completion A) : Sim A :=
  fun g =>
    match c with
    | Normal a => Normal (a, g)
    | TypeError => TypeError
    end.

Definition Math_random : Sim float := fun g => Normal (Rng.next g).

Declare Scope sim_scope.
Delimit Scope sim_scope with sim.
Notation "x <- m ;; k" := (bind m (fun x => k))
  (at level 100, m at next level, right associativity) : sim_scope.

(** [for (let i = start; i < start + count; i++) body], threading the
    state the body assigns. *)
Fixpoint for_loop {S : Type} (start count : nat) (body : nat -> S -> Sim S) (s : S)
  : Sim S :=
  match count with
  | O => ret s
  | Datatypes.S k => bind (body start s) (for_loop (Datatypes.S start) k body)
  end.

(** The transcendental functions of [Math].  The language leaves their
    results implementation-approximated, so the embedding takes them as
    given: [MathLib] holds the ones the tile arithmetic calls, [Trig] the
    two the automaton calls. *)
Module MathLib.
Record t := mk {
  pow : float -> float -> float;
  tan : float -> float;
  asinh : float -> float;
  atan : float -> float;
  sinh : float -> float
}.
End MathLib.

Module Trig.
Record t := mk {
  atan2 : float -> float -> float;
  cos : float -> float
}.
End Trig.

(** ** Tile arithmetic ([utils/tileUtils.ts]) *)

Module TileXY.
Record t := mk { x : float; y : float }.
End TileXY.

Module LatLon.
Record t := mk { lat : float; lon : float }.
End LatLon.

Definition latLonToTile (M : MathLib.t) (lat lon zoom : float) : TileXY.t :=
  let latRad := lat * Js.Math_PI / 180 in
  let n := MathLib.pow M 2 zoom in
  let x := Js.Math_floor ((lon + 180) / 360 * n) in
  let y :=
    Js.Math_floor
      ((1 - MathLib.asinh M (MathLib.tan M latRad) / Js.Math_PI) / 2 * n) in
  {| TileXY.x := x; TileXY.y := y |}.

Definition tileToLatLon (M : MathLib.t) (x y zoom : float) : LatLon.t :=
  let n := MathLib.pow M 2 zoom in
  let lon := x / n * 360 - 180 in
  let latRad := MathLib.atan M (MathLib.sinh M (Js.Math_PI * (1 - 2 * y / n))) in
  let lat := latRad * 180 / Js.Math_PI in
  {| LatLon.lat := lat; LatLon.lon := lon |}.

(** ** Fire-spread automaton ([utils/cellularAutomata.ts]) *)

(** The offsets of the Moore neighbourhood in the order of the source's
    table; the loop destructures each entry as [[dx, dy]]. *)
Definition directions : list (Z * Z) :=
  [(-1, -1); (-1, 0); (-1, 1);
   (0, -1);           (0, 1);
   (1, -1);  (1, 0);  (1, 1)]%Z.

(** [grid[ny][nx]] for a row index already known to be in range: the row
    exists, the entry is [undefined] ([None]) past the row's end. *)
Definition cell_at (grid : list (list Cell.t)) (nx ny : Z) : option Cell.t :=
  match grid !! Z.to_nat ny with
  | Some row => row !! Z.to_nat nx
  | None => None
  end.

(** The body of [getNeighbors]'s loop over [directions].  The bounds test
    short-circuits: [grid[0].length] is read (and throws on an empty
    grid) only when [nx >= 0]. *)
Fixpoint neighbors_loop (grid : list (list Cell.t)) (x y : Z)
    (dirs : list (Z * Z)) (neighbors : list (option Cell.t))
  : completion (list (option Cell.t)) :=
  match dirs with
  | [] => Normal neighbors
  | (dx, dy) :: rest =>
      let nx := (x + dx)%Z in
      let ny := (y + dy)%Z in
      if (0 <=? nx)%Z then
        match grid !! 0%nat with
        | None => TypeError
        | Some row0 =>
            if (nx <? Z.of_nat (length row0))%Z
               && (0 <=? ny)%Z && (ny <? Z.of_nat (length grid))%Z
            then neighbors_loop grid x y rest (neighbors ++ [cell_at grid nx ny])
            else neighbors_loop grid x y rest neighbors
        end
      else neighbors_loop grid x y rest neighbors
  end.

Definition getNeighbors (grid : list (list Cell.t)) (x y : Z)
  : completion (list (option Cell.t)) :=
  neighbors_loop grid x y directions [].

Definition calculateSpreadProbability
    (fromCell toCell : Cell.t) (params : SimulationParams.t) (windEffect : float)
  : float :=
  (* Base flammability of target terrain *)
  let probability := getFlammability (Cell.terrain toCell) in
  (* Environmental modifiers *)
  let temperatureEffect :=
    Js.Math_max 0 ((SimulationParams.temperature params - 20) / 50) in
  let humidityEffect :=
    Js.Math_max 0 ((100 - SimulationParams.humidity params) / 100) in
  let rainEffect :=
    Js.Math_max 0 ((100 - SimulationParams.rainLikelihood params) / 100) in
  let probability := probability * (0.5 + 0.5 * temperatureEffect) in
  let probability := probability * humidityEffect in
  let probability := probability * rainEffect in
  let probability := probability * (0.8 + 0.4 * windEffect) in
  (* Fire intensity effect *)
  let probability := probability * (0.5 + 0.5 * Cell.burnIntensity fromCell) in
  Js.Math_min 1.0 probability.

Definition calculateWindEffect (M : Trig.t)
    (fromX fromY toX toY windDirection : float) : float :=
  let fireDirection :=
    Trig.atan2 M (toY - fromY) (toX - fromX) * 180 / Js.Math_PI in
  let normalizedFireDir := Js.rem (fireDirection + 360) 360 in
  let normalizedWindDir := Js.rem (windDirection + 360) 360 in
  let angleDiff := abs (normalizedWindDir - normalizedFireDir) in
  let effectiveAngle := Js.Math_min angleDiff (360 - angleDiff) in
  (* Wind effect ranges from 0.3 (opposite direction) to 1.0 (same direction) *)
  0.3 + 0.7 * Trig.cos M (effectiveAngle * Js.Math_PI / 180).

(** The [UNBURNED] arm's loop over the neighbours, with its [break].  An
    [undefined] neighbour throws at [neighbor.burnState]. *)
Fixpoint spread_loop (M : Trig.t) (cell : Cell.t) (params : SimulationParams.t)
    (neighbors : list (option Cell.t)) (newCell : Cell.t) : Sim Cell.t :=
  match neighbors with
  | [] => ret newCell
  | None :: _ => throw
  | Some neighbor :: rest =>
      if decide (Cell.burnState neighbor = BURNING) then
        let windEffect :=
          calculateWindEffect M (Cell.x neighbor) (Cell.y neighbor)
            (Cell.x cell) (Cell.y cell) (SimulationParams.windDirection params) in
        let spreadProb := calculateSpreadProbability neighbor cell params windEffect in
        (r <- Math_random ;;
         if r <? spreadProb * 0.1 then (* Base spread rate per tick *)
           (i <- Math_random ;;
            (* Random intensity 0.5-1.0 *)
            ret (Cell.with_burn newCell BURNING (i * 0.5 + 0.5) 0))
         else spread_loop M cell params rest newCell)%sim
      else spread_loop M cell params rest newCell
  end.

Definition updateCellBurnState (M : Trig.t)
    (cell : Cell.t) (neighbors : list (option Cell.t)) (params : SimulationParams.t)
  : Sim Cell.t :=
  let newCell := cell in
  match Cell.burnState cell with
  | UNBURNED =>
      (* Check if fire spreads from burning neighbors *)
      spread_loop M cell params neighbors newCell
  | BURNING =>
      let duration := Cell.burnDuration newCell + 1 in
      (* Fire intensity decreases over time *)
      let intensity := Js.Math_max 0 (Cell.burnIntensity cell - 0.05) in
      (* Fire burns out after duration based on terrain *)
      let burnoutDuration := getFlammability (Cell.terrain cell) * 20 + 10 in
      if (burnoutDuration <=? duration) || (intensity <=? 0.1) then
        ret (Cell.with_burn newCell BURNED 0 duration)
      else ret (Cell.with_burn newCell BURNING intensity duration)
  | BURNED =>
      (* Burned cells remain burned *)
      ret newCell
  end.

(** [newGrid[y][x] = value].  At both call sites the same [y] and [x]
    have just been read from an array of the same shape, so the indices
    are in range and the array is never extended. *)
Definition assign_cell (newGrid : list (list Cell.t)) (x y : nat) (value : Cell.t)
  : completion (list (list Cell.t)) :=
  match newGrid !! y with
  | Some row => Normal (<[y := <[x := value]> row]> newGrid)
  | None => TypeError
  end.

(** One iteration of [stepSimulation]'s inner loop.  [gridData.cells[y]]
    missing throws at once; a missing [gridData.cells[y][x]] is passed on
    as [undefined] and throws inside [updateCellBurnState], after
    [getNeighbors] has run. *)
Definition step_cell (M : Trig.t) (gridData : GridData.t)
    (params : SimulationParams.t) (y x : nat) (newGrid : list (list Cell.t))
  : Sim (list (list Cell.t)) :=
  match GridData.cells gridData !! y with
  | None => throw
  | Some row =>
      (neighbors <- lift (getNeighbors (GridData.cells gridData)
                            (Z.of_nat x) (Z.of_nat y)) ;;
       match row !! x with
       | None => throw
       | Some cell =>
           value <- updateCellBurnState M cell neighbors params ;;
           lift (assign_cell newGrid x y value)
       end)%sim
  end.

Definition stepSimulation (M : Trig.t)
    (gridData : GridData.t) (params : SimulationParams.t) : Sim GridData.t :=
  let newGrid := GridData.cells gridData in
  (* Update each cell based on its neighbors *)
  (newGrid <-
     for_loop 0 (Z.to_nat (GridData.height gridData))
       (fun y => for_loop 0 (Z.to_nat (GridData.width gridData))
                   (step_cell M gridData params y))
       newGrid ;;
   ret (GridData.with_cells gridData newGrid))%sim.

(** [igniteCell] draws no random number; it throws only when the stored
    [width]/[height] reach past the cell array. *)
Definition igniteCell (gridData : GridData.t) (x y : Z) : completion GridData.t :=
  if (0 <=? x)%Z && (x <? GridData.width gridData)%Z
     && (0 <=? y)%Z && (y <? GridData.height gridData)%Z
  then
    let newGrid := GridData.cells gridData in
    match newGrid !! Z.to_nat y with
    | None => TypeError
    | Some row =>
        match row !! Z.to_nat x with
        | None => TypeError
        | Some cell =>
            if bool_decide (Cell.burnState cell = UNBURNED)
               && (0 <? getFlammability (Cell.terrain cell))
            then
              Normal (GridData.with_cells gridData
                        (<[Z.to_nat y :=
                             <[Z.to_nat x := Cell.with_burn cell BURNING 1.0 0]> row]>
                           newGrid))
            else Normal (GridData.with_cells gridData newGrid)
        end
    end
  else Normal gridData.

(** ** Sampling a tile for a cell's terrain ([utils/tileProcessor.ts]) *)

(** A decoded tile image: its size, and the RGB bytes the canvas returns
    for one pixel ([None] when [getImageData] throws). *)
Module Image.
Record t := mk {
  width : float;
  height : float;
  getImageData : float -> float -> option (float * float * float)
}.
End Image.

Module Tile.
Record t := mk { x : float; y : float; z : float; image : Image.t }.
End Tile.

(** The values [-sampleSize .. sampleSize] that [dy] and [dx] run over,
    with [sampleSize = 3]. *)
Definition sample_offsets : list float := [-3; -2; -1; 0; 1; 2; 3].

Definition sampleTerrainAtLocation (M : MathLib.t)
    (lat lon : float) (tiles : list Tile.t) : TerrainType :=
  (* Find the tile that contains this location *)
  let tileCoord := latLonToTile M lat lon 16 in
  match
    List.find
      (fun t => (Tile.x t =? TileXY.x tileCoord) && (Tile.y t =? TileXY.y tileCoord))
      tiles
  with
  | None =>
      (* Default to grass if no tile found *)
      classifyTerrain 120 150 80
  | Some tile =>
      let width := Image.width (Tile.image tile) in
      let height := Image.height (Tile.image tile) in
      (* Calculate pixel coordinates within the tile *)
      let tileTopLeft := tileToLatLon M (Tile.x tile) (Tile.y tile) 16 in
      let tileBottomRight := tileToLatLon M (Tile.x tile + 1) (Tile.y tile + 1) 16 in
      let pixelX :=
        Js.Math_floor
          ((lon - LatLon.lon tileTopLeft)
           / (LatLon.lon tileBottomRight - LatLon.lon tileTopLeft) * width) in
      let pixelY :=
        Js.Math_floor
          ((LatLon.lat tileTopLeft - lat)
           / (LatLon.lat tileTopLeft - LatLon.lat tileBottomRight) * height) in
      (* Sample multiple pixels around the location *)
      let samples :=
        flat_map
          (fun dy =>
             flat_map
               (fun dx =>
                  let sampleX := Js.Math_max 0 (Js.Math_min (width - 1) (pixelX + dx)) in
                  let sampleY := Js.Math_max 0 (Js.Math_min (height - 1) (pixelY + dy)) in
                  match Image.getImageData (Tile.image tile) sampleX sampleY with
                  | Some rgb => [rgb]
                  | None => [] (* Skip failed samples *)
                  end)
               sample_offsets)
          sample_offsets in
      match samples with
      | [] =>
          (* Fallback to default grass *)
          classifyTerrain 120 150 80
      | _ =>
          (* Average the samples *)
          let count := Js.of_Z (Z.of_nat (length samples)) in
          let avgR := fold_left (fun sum s => sum + fst (fst s)) samples 0 / count in
          let avgG := fold_left (fun sum s => sum + snd (fst s)) samples 0 / count in
          let avgB := fold_left (fun sum s => sum + snd s) samples 0 / count in
          classifyTerrain (Js.Math_round avgR) (Js.Math_round avgG) (Js.Math_round avgB)
      end
  end.

(** ** Grids and operation sequences used in the statements *)

(** The shape the data model requires of a grid: [height] rows of
    [width] cells each. *)
Definition well_formed (g : GridData.t) : Prop :=
  GridData.height g = Z.of_nat (length (GridData.cells g))
  /\ Forall (fun row => GridData.width g = Z.of_nat (length row)) (GridData.cells g).

(** The cell stored at column [x] of row [y]. *)
Definition grid_cell (g : GridData.t) (x y : nat) : option Cell.t :=
  match GridData.cells g !! y with
  | Some row => row !! x
  | None => None
  end.

(** The transition never rewinds or rewrites the tape of draws. *)
Definition same_tape (g g' : Rng.t) : Prop :=
  Rng.draws g' = Rng.draws g /\ (Rng.cursor g <= Rng.cursor g')%nat.

(** Position of a burn state in the order Unburned, Burning, Burned. *)
Definition burn_rank (s : BurnState) : nat :=
  match s with
  | UNBURNED => 0
  | BURNING => 1
  | BURNED => 2
  end.

(** Whether column [nx], row [ny] lies inside the grid, as [getNeighbors]
    tests it (the width is that of the first row). *)
Definition inside (grid : list (list Cell.t)) (pos : Z * Z) : bool :=
  let '(nx, ny) := pos in
  match grid !! 0%nat with
  | Some row0 =>
      (0 <=? nx)%Z && (nx <? Z.of_nat (length row0))%Z
      && (0 <=? ny)%Z && (ny <? Z.of_nat (length grid))%Z
  | None => false
  end.

(** The cells at the listed (column, row) positions, in the order
    listed, skipping the positions outside the grid. *)
Definition cells_inside (grid : list (list Cell.t)) (positions : list (Z * Z))
  : list (option Cell.t) :=
  map (fun pos => cell_at grid (fst pos) (snd pos)) (filter (fun pos => inside grid pos = true) positions).

(** The neighbour order read off [directions] with each entry taken as
    (dy, dx): row offset first. *)
Definition neighbors_dy_dx (grid : list (list Cell.t)) (x y : Z)
  : list (option Cell.t) :=
  cells_inside grid (map (fun d => ((x + snd d)%Z, (y + fst d)%Z)) directions).

(** [c'] is the per-cell transition applied to the cell at ([x], [y]) of
    the grid [g] and to that cell's neighbours in [g], at some point
    [rng1] of the tape of draws not before [rng0]. *)
Definition ticked (M : Trig.t) (params : SimulationParams.t) (g : GridData.t)
    (rng0 : Rng.t) (x y : nat) (c' : Cell.t) : Prop :=
  exists c neighbors rng1 rng2,
    grid_cell g x y = Some c
    /\ getNeighbors (GridData.cells g) (Z.of_nat x) (Z.of_nat y) = Normal neighbors
    /\ Rng.draws rng1 = Rng.draws rng0
    /\ (Rng.cursor rng0 <= Rng.cursor rng1)%nat
    /\ updateCellBurnState M c neighbors params rng1 = Normal (c', rng2).

(** A number that is +0, -0 or NaN: what a product with a zero factor
    comes to. *)
Definition zero_or_nan (f : float) : Prop :=
  match Prim2SF f with
  | S754_zero _ | S754_nan => True
  | _ => False
  end.

(** What an operation may do to a cell: leave its burn state or move it
    forward, and leave a Burned cell exactly as it was. *)
Definition forward (c c' : Cell.t) : Prop :=
  (burn_rank (Cell.burnState c) <= burn_rank (Cell.burnState c'))%nat
  /\ (Cell.burnState c = BURNED -> c' = c).

(** The Burning and Burned arms of the transition as a function of the
    cell alone: they read no neighbour, no parameter and no draw. *)
Definition burn_step (cell : Cell.t) : Cell.t :=
  match Cell.burnState cell with
  | BURNING =>
      let duration := Cell.burnDuration cell + 1 in
      let intensity := Js.Math_max 0 (Cell.burnIntensity cell - 0.05) in
      if (getFlammability (Cell.terrain cell) * 20 + 10 <=? duration)
         || (intensity <=? 0.1)
      then Cell.with_burn cell BURNED 0 duration
      else Cell.with_burn cell BURNING intensity duration
  | _ => cell
  end.

(** [n] applications of [burn_step]. *)
Fixpoint burn_for (n : nat) (cell : Cell.t) : Cell.t :=
  match n with
  | O => cell
  | S k => burn_for k (burn_step cell)
  end.

(** [cell_ticks M n c c']: [n] successive transitions lead from [c] to
    [c'], each with neighbours, parameters and draws of its own. *)
Inductive cell_ticks (M : Trig.t) : nat -> Cell.t -> Cell.t -> Prop :=
| cell_ticks_O c : cell_ticks M 0 c c
| cell_ticks_S n c c1 c' neighbors params rng rng' :
    updateCellBurnState M c neighbors params rng = Normal (c1, rng') ->
    cell_ticks M n c1 c' ->
    cell_ticks M (S n) c c'.

(** The two operations a caller applies to a grid, and a sequence of
    them run in order. *)
Inductive Operation :=
| Tick (params : SimulationParams.t)
| Ignite (x y : Z).

Definition apply_operation (M : Trig.t) (op : Operation) (g : GridData.t)
  : Sim GridData.t :=
  match op with
  | Tick params => stepSimulation M g params
  | Ignite x y => lift (igniteCell g x y)
  end.

Fixpoint run (M : Trig.t) (ops : list Operation) (g : GridData.t) : Sim GridData.t :=
  match ops with
  | [] => ret g
  | op :: rest => bind (apply_operation M op g) (run M rest)
  end.

(** ** Vocabulary for comparing wind directions *)

(** [{ ...params, windDirection }] *)
Definition with_windDirection (params : SimulationParams.t) (windDirection : float)
  : SimulationParams.t :=
  {| SimulationParams.gridCellSize := SimulationParams.gridCellSize params;
     SimulationParams.windSpeed := SimulationParams.windSpeed params;
     SimulationParams.windDirection := windDirection;
     SimulationParams.temperature := SimulationParams.temperature params;
     SimulationParams.humidity := SimulationParams.humidity params;
     SimulationParams.rainLikelihood := SimulationParams.rainLikelihood params |}.

(** The spread probability [updateCellBurnState] computes for a Burning
    neighbour of [cell]: the wind effect of the direction from the
    neighbour to the cell, passed to [calculateSpreadProbability]. *)
Definition spread_probability (M : Trig.t) (neighbor cell : Cell.t)
    (params : SimulationParams.t) : float :=
  let windEffect :=
    calculateWindEffect M (Cell.x neighbor) (Cell.y neighbor)
      (Cell.x cell) (Cell.y cell) (SimulationParams.windDirection params) in
  calculateSpreadProbability neighbor cell params windEffect.

(** [angleDiff] of [calculateWindEffect]: the absolute difference, in
    degrees, between the normalized wind direction and the normalized
    direction from the neighbour to the cell. *)
Definition wind_angle (M : Trig.t) (neighbor cell : Cell.t) (windDirection : float)
  : float :=
  let fireDirection :=
    Trig.atan2 M (Cell.y cell - Cell.y neighbor) (Cell.x cell - Cell.x neighbor)
    * 180 / Js.Math_PI in
  let normalizedFireDir := Js.rem (fireDirection + 360) 360 in
  let normalizedWindDir := Js.rem (windDirection + 360) 360 in
  abs (normalizedWindDir - normalizedFireDir).

(** The value of [probability] in [calculateSpreadProbability] before
    the wind factor is applied: the target's flammability times the
    temperature, humidity and rain factors. *)
Definition environment_factor (toCell : Cell.t) (params : SimulationParams.t) : float :=
  getFlammability (Cell.terrain toCell)
  * (0.5 + 0.5 * Js.Math_max 0 ((SimulationParams.temperature params - 20) / 50))
  * Js.Math_max 0 ((100 - SimulationParams.humidity params) / 100)
  * Js.Math_max 0 ((100 - SimulationParams.rainLikelihood params) / 100).

(** The last factor of [calculateSpreadProbability]. *)
Definition intensity_factor (fromCell : Cell.t) : float :=
  0.5 + 0.5 * Cell.burnIntensity fromCell.

(** A positive normal number whose exponent (that of a 53-bit
    mantissa) lies between [lo] and [hi]. *)
Definition normal_between (lo hi : Z) (x : float) : Prop :=
  exists m e,
    Prim2SF x = S754_finite false m e
    /\ (2 ^ 52 <= Z.pos m < 2 ^ 53)%Z /\ (lo <= e <= hi)%Z.

(** The real number a float stands for (0 for NaN and the infinities). *)
Definition F2R (x : float) : R :=
  match Prim2SF x with
  | S754_finite s m e => ((if s then -1 else 1) * IZR (Z.pos m) * powerRZ 2 e)%R
  | _ => 0%R
  end.

(** ** Concrete inputs for running the model *)

(** A small implementation of the automaton's two functions.  [atan2]
    is exact on axis-aligned and diagonal vectors, the only ones a
    unit-spaced grid passes for neighbouring cells; [cos] is the Taylor
    polynomial of degree 20, folded at pi/2, for arguments in [0, pi]. *)
Definition octant_atan2 (y x : float) : float :=
  if y =? 0 then (if 0 <=? x then 0 else Js.Math_PI)
  else if x =? 0 then (if 0 <? y then Js.Math_PI / 2 else - (Js.Math_PI / 2))
  else if 0 <? x then (if 0 <? y then Js.Math_PI / 4 else - (Js.Math_PI / 4))
  else (if 0 <? y then 3 * Js.Math_PI / 4 else - (3 * Js.Math_PI / 4)).

Definition series_cos (x : float) : float :=
  let poly t :=
    let u := t * t in
    1 - u / 2 * (1 - u / 12 * (1 - u / 30 * (1 - u / 56 * (1 - u / 90 *
      (1 - u / 132 * (1 - u / 182 * (1 - u / 240 * (1 - u / 306 *
      (1 - u / 380))))))))) in
  let x := abs x in
  if Js.Math_PI / 2 <? x then - poly (Js.Math_PI - x) else poly x.

Definition grid_trig : Trig.t :=
  {| Trig.atan2 := octant_atan2; Trig.cos := series_cos |}.

(** A cell at column [x], row [y] with the ambient fields of the
    sample parameters. *)
Definition sample_cell (terrain : TerrainType) (st : BurnState) (x y : float)
    (intensity duration : float) : Cell.t :=
  {| Cell.terrain := terrain; Cell.burnState := st; Cell.x := x; Cell.y := y;
     Cell.windX := 10; Cell.windY := 0; Cell.humidity := 30; Cell.temperature := 25;
     Cell.burnIntensity := intensity; Cell.burnDuration := duration |}.

Definition sample_params : SimulationParams.t :=
  {| SimulationParams.gridCellSize := 1; SimulationParams.windSpeed := 10;
     SimulationParams.windDirection := 0; SimulationParams.temperature := 25;
     SimulationParams.humidity := 30; SimulationParams.rainLikelihood := 10 |}.

Definition sample_bounds : BoundingBox.t :=
  {| BoundingBox.north := 1; BoundingBox.south := 0;
     BoundingBox.east := 1; BoundingBox.west := 0 |}.

(** A 3 x 3 grid: grass everywhere but a pond in the north-east corner;
    the cell west of the centre is burning. *)
Definition sample_grid : GridData.t :=
  {| GridData.cells :=
       [ [ sample_cell GRASS UNBURNED 0 0 0 0; sample_cell FOREST UNBURNED 1 0 0 0;
           sample_cell WATER UNBURNED 2 0 0 0 ];
         [ sample_cell FOREST BURNING 0 1 1 0; sample_cell GRASS UNBURNED 1 1 0 0;
           sample_cell GRASS UNBURNED 2 1 0 0 ];
         [ sample_cell FARMLAND UNBURNED 0 2 0 0; sample_cell URBAN BURNED 1 2 0 12;
           sample_cell GRASS UNBURNED 2 2 0 0 ] ];
     GridData.width := 3; GridData.height := 3;
     GridData.bounds := sample_bounds; GridData.cellSize := 1 |}.

(** A 1 x 1 grid whose only cell is water and is burning. *)
Definition burning_pond : GridData.t :=
  {| GridData.cells := [ [ sample_cell WATER BURNING 0 0 1 0 ] ];
     GridData.width := 1; GridData.height := 1;
     GridData.bounds := sample_bounds; GridData.cellSize := 1 |}.

(** A tape on which every draw is [r]. *)
Definition constant_tape (r : float) : Rng.t :=
  {| Rng.draws := fun _ => r; Rng.cursor := 0 |}.

(** A 2 x 2 grid of water in which nothing burns, as the rasterizer
    builds it. *)
Definition still_pond : GridData.t :=
  {| GridData.cells :=
       [ [ sample_cell WATER UNBURNED 0 0 0 0; sample_cell WATER UNBURNED 1 0 0 0 ];
         [ sample_cell WATER UNBURNED 0 1 0 0; sample_cell WATER UNBURNED 1 1 0 0 ] ];
     GridData.width := 2; GridData.height := 2;
     GridData.bounds := sample_bounds; GridData.cellSize := 1 |}.

(** A tape whose draws are [r] at the even positions and [r'] at the
    odd ones. *)
Definition alternating_tape (r r' : float) : Rng.t :=
  {| Rng.draws := fun n => if Nat.even n then r else r'; Rng.cursor := 0 |}.

(** A burning forest cell at column 0, row 1, and the cells east of it
    used as targets. *)
Definition burning_forest : Cell.t := sample_cell FOREST BURNING 0 1 1 0.
Definition pond_east : Cell.t := sample_cell WATER UNBURNED 1 1 0 0.
Definition grass_east : Cell.t := sample_cell GRASS UNBURNED 1 1 0 0.

(** ** Further vocabulary: neighbourhoods, burn-out, reset *)

(** The eight positions (column, row) around ([x], [y]), in the order
    [getNeighbors] visits them. *)
Definition around (x y : Z) : list (Z * Z) :=
  [ (x - 1, y - 1); (x - 1, y); (x - 1, y + 1);
    (x, y - 1);                 (x, y + 1);
    (x + 1, y - 1); (x + 1, y); (x + 1, y + 1) ]%Z.

(** Column [nx], row [ny] touches column [x], row [y]: at most one step
    away in each direction, and not the same position. *)
Definition adjacent (x y nx ny : Z) : Prop :=
  (-1 <= nx - x <= 1)%Z /\ (-1 <= ny - y <= 1)%Z /\ (nx, ny) <> (x, y).

(** The number of ticks after which a cell of the given terrain, alight
    from duration 0, has reached its burn-out duration
    [getFlammability terrain * 20 + 10]. *)
Definition burnout_ticks (terrain : TerrainType) : nat :=
  match terrain with
  | FOREST => 26
  | GRASS => 22
  | FARMLAND => 18
  | URBAN => 14
  | WATER => 10
  end.

(** The caller's reset ([handleResetSimulation] of [pages/Index.tsx]):
    every cell back to Unburned with intensity and duration 0. *)
Definition resetGrid (gridData : GridData.t) : GridData.t :=
  GridData.with_cells gridData
    (map (fun row => map (fun cell => Cell.with_burn cell UNBURNED 0 0) row)
       (GridData.cells gridData)).

(** The number of ticks in a sequence of operations. *)
Fixpoint ticks (ops : list Operation) : nat :=
  match ops with
  | [] => 0
  | Tick _ :: rest => S (ticks rest)
  | Ignite _ _ :: rest => ticks rest
  end.

(** [c'] differs from [c] in nothing but the three burn fields. *)
Definition same_land (c c' : Cell.t) : Prop :=
  exists st i d, c' = Cell.with_burn c st i d.

(** A number that is not above zero as a [spec_float]: a zero, NaN,
    minus infinity or a negative finite number. *)
Definition sf_not_positive (z : spec_float) : Prop :=
  match z with
  | S754_zero _ | S754_nan | S754_infinity true | S754_finite true _ _ => True
  | _ => False
  end.

(** The channel values a canvas can return: the integers 0 to 255. *)
Definition bytes : list Z := map Z.of_nat (seq 0 256).

(** The rounded average [sampleTerrainAtLocation] computes for one
    channel over [count] samples that all hold the byte [k]. *)
Definition uniform_average (count : nat) (k : Z) : float :=
  Js.Math_round
    (fold_left (fun sum s => sum + s) (repeat (Js.of_Z k) count) 0
     / Js.of_Z (Z.of_nat count)).

(** ** Further sample data *)

(** A grid whose stored size (2 x 2) reaches past its single row of one
    cell. *)
Definition short_grid : GridData.t :=
  {| GridData.cells := [ [ sample_cell GRASS UNBURNED 0 0 0 0 ] ];
     GridData.width := 2; GridData.height := 2;
     GridData.bounds := sample_bounds; GridData.cellSize := 1 |}.

(** The sample parameters at a humidity of 100. *)
Definition humid_params : SimulationParams.t :=
  {| SimulationParams.gridCellSize := 1; SimulationParams.windSpeed := 10;
     SimulationParams.windDirection := 0; SimulationParams.temperature := 25;
     SimulationParams.humidity := 100; SimulationParams.rainLikelihood := 10 |}.

(** Stand-ins for the transcendental functions, good enough to run the
    tile arithmetic on an example: [pow] is exact on small powers of 2
    and the others are the identity. *)
Definition sample_math : MathLib.t :=
  {| MathLib.pow := fun _ e => Js.of_Z (2 ^ 16);
     MathLib.tan := fun x => x;
     MathLib.asinh := fun x => x;
     MathLib.atan := fun x => x;
     MathLib.sinh := fun x => x |}.

(** A 256 x 256 tile of one gray, placed where [sample_math] puts the
    location (0, 0). *)
Definition gray_tile : Tile.t :=
  {| Tile.x := TileXY.x (latLonToTile sample_math 0 0 16);
     Tile.y := TileXY.y (latLonToTile sample_math 0 0 16);
     Tile.z := 16;
     Tile.image :=
       {| Image.width := 256; Image.height := 256;
          Image.getImageData := fun _ _ => Some (Js.of_Z 128, Js.of_Z 128, Js.of_Z 128) |} |}.

(** ** Building the grid ([utils/tileUtils.ts], [utils/tileProcessor.ts]) *)

(** [Math.ceil]: the least integral number not below [x]; NaN, the
    infinities and both zeros are returned as they are, and a result of
    zero keeps the sign of [x]. *)
Definition Math_ceil (x : float) : float :=
  match Prim2SF x with
  | S754_finite s m e =>
      if (0 <=? e)%Z then x
      else
        let v := if s then Z.neg m else Z.pos m in
        SF2Prim (binary_normalize prec emax (- Z.shiftr (- v) (- e)) 0 s)
  | _ => x
  end.

(** [for (let i = start; test(i); i++) body]: the counter is a number
    and [i++] adds 1 to it as a number.  Nothing in the source bounds the
    number of iterations, so the embedding cuts the loop off after [fuel]
    tests: [None] stands for a loop still running then. *)
Fixpoint for_number {S : Type} (fuel : nat) (test : float -> bool) (i : float)
    (body : float -> S -> option S) (s : S) : option S :=
  match fuel with
  | O => None
  | Datatypes.S fuel' =>
      if test i then
        match body i s with
        | Some s' => for_number fuel' test (i + 1) body s'
        | None => None
        end
      else Some s
  end.

Module TileInfo.
Import String.
Record t := mk { x : float; y : float; z : float; url : string }.

(** [`https://tile.openstreetmap.org/${zoom}/${x}/${y}.png`]; [toString]
    is the conversion of a number to a string that the template
    applies. *)
Definition tile_url (toString : float -> string) (zoom x y : float) : string :=
  ("https://tile.openstreetmap.org/" ++ toString zoom ++ "/" ++ toString x ++ "/"
   ++ toString y ++ ".png")%string.
End TileInfo.

Definition getTilesForBounds (M : MathLib.t) (toString : float -> String.string)
    (fuel : nat) (bounds : BoundingBox.t) (zoom : float) : option (list TileInfo.t) :=
  let topLeft :=
    latLonToTile M (BoundingBox.north bounds) (BoundingBox.west bounds) zoom in
  let bottomRight :=
    latLonToTile M (BoundingBox.south bounds) (BoundingBox.east bounds) zoom in
  for_number fuel (fun x => x <=? TileXY.x bottomRight) (TileXY.x topLeft)
    (fun x tiles =>
       for_number fuel (fun y => y <=? TileXY.y bottomRight) (TileXY.y topLeft)
         (fun y tiles =>
            Some (tiles ++ [ {| TileInfo.x := x; TileInfo.y := y; TileInfo.z := zoom;
                                TileInfo.url := TileInfo.tile_url toString zoom x y |} ]))
         tiles)
    [].

(** What [processAreaToGrid] resolves to: the cells with the grid's
    width and height, or the error thrown when the canvas gives no 2D
    context. *)
Inductive GridResult :=
| Grid (cells : list (list Cell.t)) (width height : float)
| NoCanvasContext.

(** [processAreaToGrid].  The environment enters through [context]
    (whether [canvas.getContext('2d')] gives a context) and [load] (the
    decoded image of a tile, [None] when loading it fails); [sin] is
    [Math.sin].  The awaits run one after the other, so the function is
    embedded as the sequence of its steps. *)
Definition processAreaToGrid (M : MathLib.t) (T : Trig.t) (sin : float -> float)
    (toString : float -> String.string) (context : bool)
    (load : TileInfo.t -> option Image.t) (fuel : nat)
    (bounds : BoundingBox.t)
    (cellSize windSpeed windDirection temperature humidity : float)
  : option GridResult :=
  (* Calculate grid dimensions *)
  let latDiff := BoundingBox.north bounds - BoundingBox.south bounds in
  let lonDiff := BoundingBox.east bounds - BoundingBox.west bounds in
  (* Approximate conversion from degrees to km *)
  let latKm := latDiff * 111 in
  let lonKm :=
    lonDiff * 111
    * Trig.cos T ((BoundingBox.north bounds + BoundingBox.south bounds) / 2
                  * Js.Math_PI / 180) in
  let gridWidth := Math_ceil (lonKm / cellSize) in
  let gridHeight := Math_ceil (latKm / cellSize) in
  (* Get tiles for analysis - use zoom level 16 for high detail *)
  match getTilesForBounds M toString fuel bounds 16 with
  | None => None
  | Some tiles =>
      if negb context then Some NoCanvasContext
      else
        (* Load the tiles and filter out the failed ones *)
        let validTiles :=
          omap (fun tile =>
                  match load tile with
                  | Some image =>
                      Some {| Tile.x := TileInfo.x tile; Tile.y := TileInfo.y tile;
                              Tile.z := TileInfo.z tile; Tile.image := image |}
                  | None => None
                  end)
               tiles in
        (* Create grid cells *)
        match
          for_number fuel (fun y => y <? gridHeight) 0
            (fun y cells =>
               match
                 for_number fuel (fun x => x <? gridWidth) 0
                   (fun x row =>
                      (* Calculate lat/lon for this grid cell center *)
                      let cellLat :=
                        BoundingBox.south bounds + ((y + 0.5) / gridHeight) * latDiff in
                      let cellLon :=
                        BoundingBox.west bounds + ((x + 0.5) / gridWidth) * lonDiff in
                      (* Get terrain classification by sampling the area *)
                      let terrainType :=
                        sampleTerrainAtLocation M cellLat cellLon validTiles in
                      let cell :=
                        {| Cell.terrain := terrainType;
                           Cell.burnState := UNBURNED;
                           Cell.x := x;
                           Cell.y := y;
                           Cell.windX :=
                             windSpeed * Trig.cos T (windDirection * Js.Math_PI / 180);
                           Cell.windY := windSpeed * sin (windDirection * Js.Math_PI / 180);
                           Cell.humidity := humidity;
                           Cell.temperature := temperature;
                           Cell.burnIntensity := 0;
                           Cell.burnDuration := 0 |} in
                      Some (row ++ [cell]))
                   []
               with
               | Some row => Some (cells ++ [row])
               | None => None
               end)
            []
        with
        | Some cells => Some (Grid cells gridWidth gridHeight)
        | None => None
        end
  end.

(** [processSelectedArea] of [components/WildfireMap.tsx] stores the
    result as grid data; [width] and [height] are the integers that the
    numbers [gridWidth] and [gridHeight] stand for. *)
Definition newGridData (cells : list (list Cell.t)) (width height : Z)
    (bounds : BoundingBox.t) (cellSize : float) : GridData.t :=
  {| GridData.cells := cells; GridData.width := width; GridData.height := height;
     GridData.bounds := bounds; GridData.cellSize := cellSize |}.

(** ** Vocabulary for the grid builder *)

(** The integers from [a] to [b], both included. *)
Definition zrange (a b : Z) : list Z :=
  map (fun i => (a + Z.of_nat i)%Z) (seq 0 (Z.to_nat (b + 1 - a))).

(** The float that stands for the positive integer [v] below 2^53: a
    53-bit mantissa and the matching exponent. *)
Definition canon (v : Z) : spec_float :=
  let d := (Z.log2 v + 1)%Z in
  S754_finite false (Z.to_pos (v * 2 ^ (53 - d))) (d - 53).

(** [gridWidth] and [gridHeight] of [processAreaToGrid]. *)
Definition grid_size (T : Trig.t) (bounds : BoundingBox.t) (cellSize : float)
  : float * float :=
  let latDiff := BoundingBox.north bounds - BoundingBox.south bounds in
  let lonDiff := BoundingBox.east bounds - BoundingBox.west bounds in
  let latKm := latDiff * 111 in
  let lonKm :=
    lonDiff * 111
    * Trig.cos T ((BoundingBox.north bounds + BoundingBox.south bounds) / 2
                  * Js.Math_PI / 180) in
  (Math_ceil (lonKm / cellSize), Math_ceil (latKm / cellSize)).

(** The tile record [getTilesForBounds] pushes for column [x], row [y]. *)
Definition tile_info (toString : float -> String.string) (zoom : float) (x y : Z)
  : TileInfo.t :=
  {| TileInfo.x := Js.of_Z x; TileInfo.y := Js.of_Z y; TileInfo.z := zoom;
     TileInfo.url := TileInfo.tile_url toString zoom (Js.of_Z x) (Js.of_Z y) |}.

(** A bounding box of a hundredth of a degree each way, a conversion of
    numbers to strings that is good enough to run the tile listing on an
    example, and a loader under which no tile image loads. *)
Definition small_bounds : BoundingBox.t :=
  {| BoundingBox.north := 0.01; BoundingBox.south := 0;
     BoundingBox.east := 0.01; BoundingBox.west := 0 |}.

Definition sample_toString : float -> String.string := fun _ => String.EmptyString.

Definition no_image : TileInfo.t -> option Image.t := fun _ => None.

(** ** Vocabulary for the pixel reads *)

(** A pixel coordinate inside an image side of the given length: from 0
    to [size - 1], or NaN when the location's pixel could not be
    computed. *)
Definition in_image (size s : float) : Prop :=
  is_nan s = true \/ ((0 <=? s) = true /\ (s <=? size - 1) = true).

(** [{ ...tile, image }] *)
Definition with_image (tile : Tile.t) (image : Image.t) : Tile.t :=
  {| Tile.x := Tile.x tile; Tile.y := Tile.y tile; Tile.z := Tile.z tile;
     Tile.image := image |}.

(** A 256 x 256 image that is gray where [gray_tile] is read and cannot
    be read anywhere else. *)
Definition framed_gray : Image.t :=
  {| Image.width := 256; Image.height := 256;
     Image.getImageData :=
       fun sx sy =>
         if (is_nan sx || (0 <=? sx) && (sx <=? 255))
            && (is_nan sy || (0 <=? sy) && (sy <=? 255))
         then Some (Js.of_Z 128, Js.of_Z 128, Js.of_Z 128)
         else None |}.

(** ** Vocabulary for the tile round trip *)

(** The column index [latLonToTile] computes at zoom 16 from the
    longitude [tileToLatLon] gives the west edge of column [x], with
    [Math.pow(2, 16)] taken as 65536. *)
Definition column_of_west_edge (x : float) : float :=
  Js.Math_floor ((x / 65536 * 360 - 180 + 180) / 360 * 65536).

(** [f] holds of the [n] integers from [x] on. *)
Fixpoint all_from (f : Z -> bool) (n : nat) (x : Z) : bool :=
  match n with
  | O => true
  | S n' => f x && all_from f n' (x + 1)%Z
  end.

(** ** Vocabulary for the life of a fire *)

(** The duration a cell shows after [k] ticks alight: 1 added [k] times
    to 0. *)
Definition duration_after (k : nat) : float := Nat.iter k (fun d => d + 1) 0.

(** The number of ticks a duration stands for, among the first 26. *)
Definition burn_age (d : float) : option nat :=
  List.find (fun k => Leibniz.eqb (duration_after k) d) (seq 0 26).

(** A Burning cell that counts its ticks from 0 and has not reached the
    burn-out duration of its terrain. *)
Definition counted (c : Cell.t) : Prop :=
  Cell.burnState c = BURNING ->
  exists k, (k < burnout_ticks (Cell.terrain c))%nat
            /\ Cell.burnDuration c = duration_after k.

(** An upper bound on the ticks at which a cell can still be found
    Burning: 27 before it is set alight, what is left of 26 while it
    burns, none once it is Burned. *)
Definition fuel_left (c : Cell.t) : nat :=
  match Cell.burnState c with
  | UNBURNED => 27
  | BURNING =>
      match burn_age (Cell.burnDuration c) with
      | Some k => 26 - k
      | None => 0
      end
  | BURNED => 0
  end.

(** All the cells of a grid, row after row. *)
Definition all_cells (g : GridData.t) : list Cell.t := concat (GridData.cells g).

Definition grid_fuel (g : GridData.t) : nat := list_sum (map fuel_left (all_cells g)).

(** Whether some cell of the grid is Burning. *)
Definition on_fire (g : GridData.t) : bool :=
  existsb (fun c => bool_decide (Cell.burnState c = BURNING)) (all_cells g).

(** What one operation can do to a cell: nothing, set it alight from
    Unburned with duration 0, or take one burn step. *)
Definition cell_step (c c' : Cell.t) : Prop :=
  c' = c
  \/ (Cell.burnState c = UNBURNED /\ exists i, c' = Cell.with_burn c BURNING i 0)
  \/ (Cell.burnState c <> UNBURNED /\ c' = burn_step c).

(** ** Vocabulary for the tile round trip *)

(** The number [(-1)^s * v * 2^k] with its mantissa on 53 bits: the
    [spec_float] of the double that holds it, when [0 < v < 2^53] and the
    exponent is in the normal range. *)
Definition dyadic (s : bool) (v k : Z) : spec_float :=
  S754_finite s (Z.to_pos (v * 2 ^ (52 - Z.log2 v))) (Z.log2 v - 52 + k).

(** The result a table of arguments and results holds for [x]; NaN when
    [x] is not among the arguments. *)
Fixpoint tabulated (table : list (float * float)) (x : float) : float :=
  match table with
  | [] => nan
  | (a, v) :: rest => if a =? x then v else tabulated rest x
  end.

(** A [Math] that rounds correctly: at each argument the round trips of
    tile (0, 1) at zoom 2 and of tile (5, 2) at zoom 16 reach, the double
    nearest to the exact value of the function.  The powers of two, at
    these zooms and at zoom 49, are exact. *)
Definition rounded_math : MathLib.t :=
  {| MathLib.pow := fun b e => if b =? 2 then tabulated [ (2, 4); (16, 65536); (49, 562949953421312) ] e
       else nan;
     MathLib.sinh :=
       tabulated [ (0x1.921fb54442d18p+0, 0x1.2690f661dd820p+1);
                   (0x1.92196cc56dc07p+1, 0x1.717d10e2805edp+3) ];
     MathLib.atan :=
       tabulated [ (0x1.2690f661dd820p+1, 0x1.292f212ef135fp+0);
                   (0x1.717d10e2805edp+3, 0x1.7c0202d67b570p+0) ];
     MathLib.tan :=
       tabulated [ (0x1.292f212ef135fp+0, 0x1.2690f661dd821p+1);
                   (0x1.7c0202d67b570p+0, 0x1.717d10e2805f5p+3) ];
     MathLib.asinh :=
       tabulated [ (0x1.2690f661dd821p+1, 0x1.921fb54442d19p+0);
                   (0x1.717d10e2805f5p+3, 0x1.92196cc56dc0ap+1) ] |}.

(** * Sanity checks on concrete inputs *)

Example floor_samples :
  (Js.Math_floor 2.5, Js.Math_floor (-2.5), Js.Math_floor 7, Js.Math_floor 0.3)
  = (2, -3, 7, 0).
Proof. reflexivity. Qed.

Example round_samples :
  (Js.Math_round 2.5, Js.Math_round (-2.5), Js.Math_round 85.714285714285722,
   Js.Math_round 0.49999999999999994, Js.Math_round 58.82352941176471)
  = (3, -2, 86, 0, 59).
Proof. reflexivity. Qed.

Example rem_samples :
  (Js.rem 7.5 6, Js.rem (-1.5) 6, Js.rem 365 360, Js.rem 720 360)
  = (1.5, -1.5, 5, 0).
Proof. reflexivity. Qed.

Example hsv_fallback_colour :
  rgbToHsv 120 150 80 = {| Hsv.h := 86; Hsv.s := 47; Hsv.v := 59 |}.
Proof. reflexivity. Qed.

Example classify_samples :
  (classifyTerrain 0 0 255, classifyTerrain 128 128 128,
   classifyTerrain 120 150 80, classifyTerrain 120 160 80)
  = (WATER, URBAN, FOREST, GRASS).
Proof. reflexivity. Qed.

Example burn_down_samples :
  (0.8 * 20 + 10, 1 - 0.05, 0.3 + 0.7 * 1, 0.3 + 0.7 * -1)
  = (26, 0.95, 1, -0.39999999999999997).
Proof. reflexivity. Qed.

(** * The terrain classifier at the rasterizer's fallback colour *)

(** When no tile covers the location, the sampled terrain is whatever
    the classifier makes of the fixed colour (120, 150, 80). *)
Lemma sampleTerrainAtLocation_no_tile (M : MathLib.t) (lat lon : float)
    (tiles : list Tile.t) :
  (let tileCoord := latLonToTile M lat lon 16 in
   List.find
     (fun t => (Tile.x t =? TileXY.x tileCoord) && (Tile.y t =? TileXY.y tileCoord))
     tiles = None) ->
  sampleTerrainAtLocation M lat lon tiles = classifyTerrain 120 150 80.
Proof.
  cbv zeta. intros Hfind. unfold sampleTerrainAtLocation. cbv zeta.
  now rewrite Hfind.
Qed.

(** With no tile at all (every fetch failed) the fallback is taken
    whatever the location. *)
Lemma sampleTerrainAtLocation_no_tiles (M : MathLib.t) (lat lon : float) :
  sampleTerrainAtLocation M lat lon [] = FOREST.
Proof. reflexivity. Qed.

(** C2 (code evaluated at the failing input): the fallback colour
    (120, 150, 80) has hue 86, saturation 47 and value 59, which the
    Forest rule (hue 80-160, saturation > 30, value < 60) accepts before
    the Grass rule is tried; the classifier returns Forest, not Grass. *)
Theorem fallback_colour_classifies_as_forest :
  rgbToHsv 120 150 80 = {| Hsv.h := 86; Hsv.s := 47; Hsv.v := 59 |}
  /\ classifyTerrain 120 150 80 = FOREST
  /\ getFlammability (classifyTerrain 120 150 80) = 0.8.
Proof. repeat split; reflexivity. Qed.

(** * The per-cell transition *)

(** Step through one call of [Math.random] at the head of the goal. *)
Ltac draw := unfold bind at 1; unfold Math_random, Rng.next; cbv beta iota.

Section CellTransition.

Variable M : Trig.t.
Variable params : SimulationParams.t.

Lemma same_tape_refl g : same_tape g g.
Proof. split; [reflexivity | lia]. Qed.

Lemma same_tape_trans g1 g2 g3 :
  same_tape g1 g2 -> same_tape g2 g3 -> same_tape g1 g3.
Proof. intros [E1 L1] [E2 L2]. split; [congruence | lia]. Qed.

Lemma same_tape_next g : same_tape g (snd (Rng.next g)).
Proof. split; simpl; [reflexivity | lia]. Qed.

Lemma unit_interval_same_tape g g' :
  same_tape g g' -> Rng.unit_interval g -> Rng.unit_interval g'.
Proof. intros [E _] Hu n. rewrite E. apply Hu. Qed.

(** What the neighbour scan can return: the cell as it was, or the cell
    set alight with duration 0. *)
Lemma spread_loop_result cell neighbors newCell g c' g' :
  spread_loop M cell params neighbors newCell g = Normal (c', g') ->
  same_tape g g'
  /\ (c' = newCell \/ exists i, c' = Cell.with_burn newCell BURNING i 0).
Proof.
  revert g. induction neighbors as [|[nb|] rest IH]; intros g; simpl.
  - intros [= <- <-]. split; [apply same_tape_refl | now left].
  - destruct (decide (Cell.burnState nb = BURNING)) as [_|_]; [|apply IH].
    unfold bind at 1. unfold Math_random.
    destruct (Rng.next g) as [r g1] eqn:Hnext.
    assert (Hg1 : same_tape g g1).
    { replace g1 with (snd (Rng.next g)) by now rewrite Hnext.
      apply same_tape_next. }
    destruct (r <? _).
    + unfold bind, Math_random, ret. intros [= <- <-]. split; [|eauto].
      eapply same_tape_trans; [exact Hg1 | apply same_tape_next].
    + intros H. apply IH in H as [Ht Hc]. split; [|exact Hc].
      eapply same_tape_trans; eassumption.
  - discriminate.
Qed.

(** The scan completes normally when no neighbour is [undefined]. *)
Lemma spread_loop_total cell neighbors newCell g :
  Forall is_Some neighbors ->
  exists c' g', spread_loop M cell params neighbors newCell g = Normal (c', g').
Proof.
  intros Hdef. revert g.
  induction Hdef as [|nb rest [nb' ->] _ IH]; intros g; simpl.
  - unfold ret. eauto.
  - destruct (decide (Cell.burnState nb' = BURNING)) as [_|_]; [|apply IH].
    unfold bind at 1. unfold Math_random.
    destruct (Rng.next g) as [r g1].
    destruct (r <? _); [|apply IH].
    unfold bind, Math_random, ret. destruct (Rng.next g1). eauto.
Qed.

(** Once a neighbour has set the cell alight the scan is over: whatever
    follows in the list is neither read nor given a draw. *)
Lemma spread_loop_stops cell neighbors more newCell g c' g' :
  spread_loop M cell params neighbors newCell g = Normal (c', g') ->
  Cell.burnState newCell = UNBURNED ->
  Cell.burnState c' = BURNING ->
  spread_loop M cell params (neighbors ++ more) newCell g = Normal (c', g').
Proof.
  intros Hrun Hnew Hlit. revert g Hrun.
  induction neighbors as [|[nb|] rest IH]; intros g; simpl.
  - intros [= <- <-]. congruence.
  - destruct (decide (Cell.burnState nb = BURNING)) as [_|_]; [|apply IH].
    unfold bind at 1 3. unfold Math_random.
    destruct (Rng.next g) as [r g1].
    destruct (r <? _); [tauto | apply IH].
  - discriminate.
Qed.

(** A neighbour that is not burning is passed over without a draw. *)
Lemma spread_loop_skip cell nb rest newCell g :
  Cell.burnState nb <> BURNING ->
  spread_loop M cell params (Some nb :: rest) newCell g
  = spread_loop M cell params rest newCell g.
Proof.
  intros Hnb. simpl.
  now destruct (decide (Cell.burnState nb = BURNING)).
Qed.

Lemma with_burn_id (c : Cell.t) :
  Cell.with_burn c (Cell.burnState c) (Cell.burnIntensity c) (Cell.burnDuration c) = c.
Proof. now destruct c. Qed.

(** The Burning arm, written out. *)
Lemma updateCellBurnState_burning cell neighbors g :
  Cell.burnState cell = BURNING ->
  updateCellBurnState M cell neighbors params g =
  Normal
    (let duration := Cell.burnDuration cell + 1 in
     let intensity := Js.Math_max 0 (Cell.burnIntensity cell - 0.05) in
     if (getFlammability (Cell.terrain cell) * 20 + 10 <=? duration)
        || (intensity <=? 0.1)
     then Cell.with_burn cell BURNED 0 duration
     else Cell.with_burn cell BURNING intensity duration,
     g).
Proof.
  intros Hst. unfold updateCellBurnState. rewrite Hst. cbv zeta.
  now destruct (_ || _).
Qed.

(** The Burned arm: nothing changes and nothing is drawn. *)
Lemma updateCellBurnState_burned cell neighbors g :
  Cell.burnState cell = BURNED ->
  updateCellBurnState M cell neighbors params g = Normal (cell, g).
Proof. intros Hst. unfold updateCellBurnState. now rewrite Hst. Qed.

(** Every normal outcome of the transition keeps the tape, assigns only
    the three burn fields, and moves the burn state forward or not at
    all; a Burned cell comes back as it was. *)
Lemma updateCellBurnState_result cell neighbors g c' g' :
  updateCellBurnState M cell neighbors params g = Normal (c', g') ->
  same_tape g g'
  /\ (exists st i d,
        c' = Cell.with_burn cell st i d
        /\ (burn_rank (Cell.burnState cell) <= burn_rank st)%nat)
  /\ (Cell.burnState cell = BURNED -> c' = cell).
Proof.
  destruct (Cell.burnState cell) eqn:Hst.
  - unfold updateCellBurnState. rewrite Hst. intros H.
    apply spread_loop_result in H as [Ht Hc]. split; [exact Ht|]. split; [|discriminate].
    destruct Hc as [->|[i ->]].
    + exists UNBURNED, (Cell.burnIntensity cell), (Cell.burnDuration cell).
      split; [|simpl; lia]. rewrite <- Hst at 1. now rewrite with_burn_id.
    + exists BURNING, i, 0. split; [reflexivity | simpl; lia].
  - rewrite updateCellBurnState_burning by exact Hst. cbv zeta.
    intros [= <- <-]. split; [apply same_tape_refl|]. split; [|discriminate].
    destruct (_ || _); eexists _, _, _; (split; [reflexivity | simpl; lia]).
  - rewrite updateCellBurnState_burned by exact Hst.
    intros [= <- <-]. split; [apply same_tape_refl|]. split; [|reflexivity].
    exists BURNED, (Cell.burnIntensity cell), (Cell.burnDuration cell).
    split; [|simpl; lia]. rewrite <- Hst at 1. now rewrite with_burn_id.
Qed.

(** The transition completes normally when no neighbour is
    [undefined]. *)
Lemma updateCellBurnState_total cell neighbors g :
  Forall is_Some neighbors ->
  exists c' g', updateCellBurnState M cell neighbors params g = Normal (c', g').
Proof.
  intros Hdef. destruct (Cell.burnState cell) eqn:Hst.
  - unfold updateCellBurnState. rewrite Hst. now apply spread_loop_total.
  - rewrite updateCellBurnState_burning by exact Hst. eauto.
  - rewrite updateCellBurnState_burned by exact Hst. eauto.
Qed.

End CellTransition.

(** * The neighbourhood *)

Section Neighbourhood.

Variable grid : list (list Cell.t).

(** On a grid with at least one row the loop never throws, and returns
    the cells at the offsets of [dirs], each taken as (dx, dy), that fall
    inside the grid, in the order of [dirs]. *)
Lemma neighbors_loop_inside row0 x y dirs acc :
  grid !! 0%nat = Some row0 ->
  neighbors_loop grid x y dirs acc =
  Normal
    (acc ++ cells_inside grid (map (fun d => ((x + fst d)%Z, (y + snd d)%Z)) dirs)).
Proof.
  intros Hrow0. revert acc.
  induction dirs as [|[dx dy] rest IH]; intros acc.
  - simpl. unfold cells_inside. simpl. now rewrite app_nil_r.
  - cbn [neighbors_loop map fst snd]. unfold cells_inside.
    rewrite filter_cons.
    assert (Hin : inside grid ((x + dx)%Z, (y + dy)%Z)
                  = (0 <=? x + dx)%Z && (x + dx <? Z.of_nat (length row0))%Z
                    && (0 <=? y + dy)%Z && (y + dy <? Z.of_nat (length grid))%Z).
    { unfold inside. now rewrite Hrow0. }
    rewrite Hrow0.
    destruct (0 <=? x + dx)%Z; cbn [andb] in Hin |- *.
    + destruct ((x + dx <? Z.of_nat (length row0))%Z
                && (0 <=? y + dy)%Z && (y + dy <? Z.of_nat (length grid))%Z).
      * rewrite IH. rewrite decide_True by exact Hin.
        cbn [map fst snd]. unfold cells_inside. now rewrite <- app_assoc.
      * rewrite IH. rewrite decide_False by (rewrite Hin; discriminate). reflexivity.
    + rewrite IH. rewrite decide_False by (rewrite Hin; discriminate). reflexivity.
Qed.

(** In a rectangular grid every position inside it holds a cell. *)
Lemma cells_inside_defined positions :
  (forall row0 row, grid !! 0%nat = Some row0 -> row ∈ grid ->
                    length row = length row0) ->
  Forall is_Some (cells_inside grid positions).
Proof.
  intros Hrect. unfold cells_inside. apply Forall_map, Forall_forall.
  intros [nx ny] Hin. apply list_elem_of_filter in Hin as [Hin _].
  unfold inside in Hin. destruct (grid !! 0%nat) as [row0|] eqn:Hrow0; [|discriminate].
  apply andb_prop in Hin as [Hin Hy2]. apply andb_prop in Hin as [Hin Hy1].
  apply andb_prop in Hin as [Hx1 Hx2].
  apply Z.leb_le in Hx1, Hy1. apply Z.ltb_lt in Hx2, Hy2.
  unfold cell_at. cbn [fst snd].
  destruct (grid !! Z.to_nat ny) as [row|] eqn:Hrow.
  - apply lookup_lt_is_Some.
    rewrite (Hrect row0 row eq_refl) by (eapply list_elem_of_lookup_2; exact Hrow). lia.
  - apply lookup_ge_None in Hrow. lia.
Qed.

End Neighbourhood.

Lemma well_formed_rows (g : GridData.t) row :
  well_formed g -> row ∈ GridData.cells g ->
  length row = Z.to_nat (GridData.width g).
Proof.
  intros [_ Hrows] Hin. rewrite Forall_forall in Hrows.
  rewrite (Hrows row Hin). lia.
Qed.

Lemma well_formed_height (g : GridData.t) :
  well_formed g -> Z.to_nat (GridData.height g) = length (GridData.cells g).
Proof. intros [Hh _]. rewrite Hh. lia. Qed.

(** On a well-formed grid with at least one row, [getNeighbors] returns
    normally and none of the neighbours is [undefined]. *)
Lemma getNeighbors_well_formed (g : GridData.t) (x y : Z) :
  well_formed g -> GridData.cells g <> [] ->
  exists neighbors,
    getNeighbors (GridData.cells g) x y = Normal neighbors
    /\ Forall is_Some neighbors.
Proof.
  intros Hwf Hne. destruct (GridData.cells g) as [|row0 rows] eqn:Hcells; [done|].
  eexists. split.
  - unfold getNeighbors. now erewrite neighbors_loop_inside by reflexivity.
  - rewrite app_nil_l. apply cells_inside_defined.
    intros r0 r [= <-] Hin. rewrite <- Hcells in Hin.
    rewrite (well_formed_rows g r Hwf Hin).
    symmetry. apply well_formed_rows; [exact Hwf|]. rewrite Hcells. left.
Qed.

(** A position that holds a cell of a well-formed grid lies within its
    stored width and height. *)
Lemma grid_cell_in_range (g : GridData.t) x y c :
  well_formed g -> grid_cell g x y = Some c ->
  (x < Z.to_nat (GridData.width g))%nat /\ (y < Z.to_nat (GridData.height g))%nat.
Proof.
  intros Hwf Hc. unfold grid_cell in Hc.
  destruct (GridData.cells g !! y) as [row|] eqn:Hrow; [|discriminate].
  split.
  - rewrite <- (well_formed_rows g row Hwf) by (eapply list_elem_of_lookup_2; exact Hrow).
    eapply lookup_lt_Some; exact Hc.
  - rewrite (well_formed_height g Hwf). eapply lookup_lt_Some; exact Hrow.
Qed.

(** * One tick over the grid *)

Section Tick.

Variable M : Trig.t.
Variable params : SimulationParams.t.
Variable g : GridData.t.
Hypothesis Hwf : well_formed g.

Lemma ticked_later rng0 rng1 x y c' :
  same_tape rng0 rng1 -> ticked M params g rng1 x y c' -> ticked M params g rng0 x y c'.
Proof.
  intros [E L] (c & nbrs & r1 & r2 & Hc & Hn & E1 & L1 & Hup).
  exists c, nbrs, r1, r2. repeat split; try assumption; [congruence | lia].
Qed.

(** One iteration of the inner loop writes the transition of the old
    cell at ([x], [y]) into the new grid and touches nothing else. *)
Lemma step_cell_normal y x row c newGrid newRow rng :
  GridData.cells g !! y = Some row -> row !! x = Some c ->
  newGrid !! y = Some newRow ->
  exists c' rng',
    step_cell M g params y x newGrid rng
    = Normal (<[y := <[x := c']> newRow]> newGrid, rng')
    /\ same_tape rng rng'
    /\ ticked M params g rng x y c'.
Proof.
  intros Hrow Hc Hnew.
  destruct (getNeighbors_well_formed g (Z.of_nat x) (Z.of_nat y) Hwf)
    as (nbrs & Hn & Hdef).
  { intros E. now rewrite E in Hrow. }
  destruct (updateCellBurnState_total M params c nbrs rng Hdef) as (c' & rng' & Hup).
  exists c', rng'. split; [|split].
  - unfold step_cell. rewrite Hrow, Hn. unfold bind at 1. unfold lift at 1.
    rewrite Hc. unfold bind. rewrite Hup. unfold lift, assign_cell. now rewrite Hnew.
  - now apply updateCellBurnState_result in Hup.
  - exists c, nbrs, rng, rng'. unfold grid_cell. rewrite Hrow.
    split_and!; first [assumption | reflexivity | lia].
Qed.

(** The inner loop over the columns [x0 .. x0 + k - 1] of row [y]. *)
Lemma row_loop y row k :
  GridData.cells g !! y = Some row ->
  forall x0 newGrid newRow rng,
    (x0 + k <= length row)%nat ->
    newGrid !! y = Some newRow -> length newRow = length row ->
    exists newRow' rng',
      for_loop x0 k (step_cell M g params y) newGrid rng
      = Normal (<[y := newRow']> newGrid, rng')
      /\ same_tape rng rng'
      /\ length newRow' = length row
      /\ (forall x, (x < x0 \/ x0 + k <= x)%nat -> newRow' !! x = newRow !! x)
      /\ (forall x, (x0 <= x < x0 + k)%nat ->
            exists c', newRow' !! x = Some c' /\ ticked M params g rng x y c').
Proof.
  intros Hrow. induction k as [|k IH]; intros x0 newGrid newRow rng Hk Hnew Hlen.
  - exists newRow, rng. simpl. unfold ret.
    rewrite list_insert_id by exact Hnew.
    split_and!; [reflexivity | apply same_tape_refl | exact Hlen | reflexivity | intros; lia].
  - destruct (lookup_lt_is_Some_2 row x0) as [c Hc]; [lia|].
    destruct (step_cell_normal y x0 row c newGrid newRow rng Hrow Hc Hnew)
      as (c' & rng1 & Hstep & Ht1 & Htick).
    assert (Hy : (y < length newGrid)%nat) by (eapply lookup_lt_Some; exact Hnew).
    destruct (IH (S x0) (<[y := <[x0 := c']> newRow]> newGrid) (<[x0 := c']> newRow) rng1)
      as (newRow' & rng' & Hloop & Ht2 & Hlen' & Hout & Hin).
    { lia. }
    { now apply list_lookup_insert_eq. }
    { now rewrite length_insert. }
    exists newRow', rng'. simpl. unfold bind. rewrite Hstep, Hloop.
    rewrite list_insert_insert_eq.
    split_and!.
    + reflexivity.
    + eapply same_tape_trans; eassumption.
    + exact Hlen'.
    + intros x Hx. rewrite Hout by lia. apply list_lookup_insert_ne. lia.
    + intros x Hx. destruct (decide (x = x0)) as [->|Hne].
      * exists c'. split; [|exact Htick].
        rewrite Hout by lia. apply list_lookup_insert_eq. lia.
      * destruct (Hin x) as (cx & Hcx & Htx); [lia|].
        exists cx. split; [exact Hcx|]. eapply ticked_later; eassumption.
Qed.

(** The outer loop over the rows [y0 .. y0 + k - 1]. *)
Lemma grid_loop k :
  forall y0 newGrid rng,
    (y0 + k <= length (GridData.cells g))%nat ->
    Forall2 (fun row newRow => length newRow = length row) (GridData.cells g) newGrid ->
    exists newGrid' rng',
      for_loop y0 k
        (fun y => for_loop 0 (Z.to_nat (GridData.width g)) (step_cell M g params y))
        newGrid rng
      = Normal (newGrid', rng')
      /\ same_tape rng rng'
      /\ Forall2 (fun row newRow => length newRow = length row) (GridData.cells g) newGrid'
      /\ (forall y, (y < y0 \/ y0 + k <= y)%nat -> newGrid' !! y = newGrid !! y)
      /\ (forall y x, (y0 <= y < y0 + k)%nat -> (x < Z.to_nat (GridData.width g))%nat ->
            exists newRow c',
              newGrid' !! y = Some newRow /\ newRow !! x = Some c'
              /\ ticked M params g rng x y c').
Proof.
  induction k as [|k IH]; intros y0 newGrid rng Hk Hshape.
  - exists newGrid, rng. simpl. unfold ret.
    split_and!; [reflexivity | apply same_tape_refl | exact Hshape | reflexivity | intros; lia].
  - destruct (lookup_lt_is_Some_2 (GridData.cells g) y0) as [row Hrow]; [lia|].
    destruct (Forall2_lookup_l _ _ _ _ _ Hshape Hrow) as (newRow & Hnew & Hlen).
    assert (Hw : length row = Z.to_nat (GridData.width g)).
    { apply well_formed_rows; [exact Hwf|]. eapply list_elem_of_lookup_2; exact Hrow. }
    destruct (row_loop y0 row (Z.to_nat (GridData.width g)) Hrow 0%nat newGrid newRow rng)
      as (newRow' & rng1 & Hrowloop & Ht1 & Hlen' & _ & Hin); [lia | exact Hnew | exact Hlen |].
    destruct (IH (S y0) (<[y0 := newRow']> newGrid) rng1)
      as (newGrid' & rng' & Hloop & Ht2 & Hshape' & Hout & Hrest).
    { lia. }
    { apply Forall2_same_length_lookup. split.
      - rewrite length_insert. eapply Forall2_length; exact Hshape.
      - intros i r nr Hr Hnr. destruct (decide (i = y0)) as [->|Hne].
        + rewrite list_lookup_insert_eq in Hnr by (eapply lookup_lt_Some; exact Hnew).
          injection Hnr as <-. congruence.
        + rewrite list_lookup_insert_ne in Hnr by congruence.
          destruct (Forall2_lookup_l _ _ _ _ _ Hshape Hr) as (nr' & Hnr' & Hl). congruence. }
    exists newGrid', rng'. simpl. unfold bind. rewrite Hrowloop, Hloop.
    split_and!.
    + reflexivity.
    + eapply same_tape_trans; eassumption.
    + exact Hshape'.
    + intros y Hy. rewrite Hout by lia. apply list_lookup_insert_ne. lia.
    + intros y x Hy Hx. destruct (decide (y = y0)) as [->|Hne].
      * destruct (Hin x) as (c' & Hc' & Htick); [lia|].
        exists newRow', c'. split; [|split]; [|exact Hc'|exact Htick].
        rewrite Hout by lia. apply list_lookup_insert_eq.
        eapply lookup_lt_Some; exact Hnew.
      * destruct (Hrest y x) as (nr & c' & Hnr & Hc' & Htick); [lia | exact Hx |].
        exists nr, c'. split; [exact Hnr|]. split; [exact Hc'|].
        eapply ticked_later; eassumption.
Qed.

(** The tick of a well-formed grid returns normally; the result has the
    shape and the frame of the old grid, and each of its cells is the
    per-cell transition of the old cell at that position among its old
    neighbours. *)
Lemma stepSimulation_cells rng :
  exists g' rng',
    stepSimulation M g params rng = Normal (g', rng')
    /\ same_tape rng rng'
    /\ g' = GridData.with_cells g (GridData.cells g')
    /\ well_formed g'
    /\ (forall x y,
          (x < Z.to_nat (GridData.width g))%nat ->
          (y < Z.to_nat (GridData.height g))%nat ->
          exists c', grid_cell g' x y = Some c' /\ ticked M params g rng x y c').
Proof.
  destruct (grid_loop (Z.to_nat (GridData.height g)) 0%nat (GridData.cells g) rng)
    as (newGrid' & rng' & Hloop & Ht & Hshape & _ & Hcells).
  { rewrite (well_formed_height g Hwf). lia. }
  { apply Forall2_same_length_lookup. split; [reflexivity|].
    intros i r r' Hr Hr'. congruence. }
  exists (GridData.with_cells g newGrid'), rng'.
  unfold stepSimulation. unfold bind. rewrite Hloop. unfold ret.
  split_and!; [reflexivity | exact Ht | reflexivity | split | ].
  - simpl. rewrite <- (Forall2_length _ _ _ Hshape). apply Hwf.
  - simpl. apply Forall_forall. intros newRow Hin.
    apply list_elem_of_lookup_1 in Hin as [i Hi].
    destruct (Forall2_lookup_r _ _ _ _ _ Hshape Hi) as (row & Hrow & Hlen).
    rewrite Hlen. destruct Hwf as [_ Hrows]. rewrite Forall_forall in Hrows.
    apply Hrows. eapply list_elem_of_lookup_2; exact Hrow.
  - intros x y Hx Hy.
    destruct (Hcells y x) as (nr & c' & Hnr & Hc' & Htick); [lia | exact Hx |].
    exists c'. split; [|exact Htick]. unfold grid_cell. simpl. now rewrite Hnr.
Qed.

End Tick.

Example trig_samples :
  (octant_atan2 0 1, octant_atan2 1 0, series_cos 0, series_cos Js.Math_PI,
   series_cos (Js.Math_PI / 2) <? 0x1p-50,
   abs (series_cos (Js.Math_PI / 4) - 0.70710678118654757) <? 0x1p-50)
  = (0, 1.5707963267948966, 1, -1, true, true).
Proof. reflexivity. Qed.

Example wind_effect_samples :
  (calculateWindEffect grid_trig 0 1 1 1 0, calculateWindEffect grid_trig 0 1 1 1 180,
   calculateWindEffect grid_trig 0 1 1 1 90 <? 0.30000000001)
  = (1, -0.39999999999999997, true).
Proof. reflexivity. Qed.

Lemma sample_grid_well_formed : well_formed sample_grid.
Proof. split; [reflexivity | repeat constructor]. Qed.

Lemma burning_pond_well_formed : well_formed burning_pond.
Proof. split; [reflexivity | repeat constructor]. Qed.

Lemma constant_tape_unit_interval r :
  (0 <=? r) = true -> (r <? 1) = true -> Rng.unit_interval (constant_tape r).
Proof. intros H0 H1 n. now split. Qed.

(** * Simultaneous update *)

(** C1: the tick of a well-formed grid returns normally, and every cell
    of the result is the per-cell transition applied to the pre-tick cell
    at the same position and to the neighbours [getNeighbors] reads from
    the pre-tick grid; no transition sees a cell of the new grid. *)
Theorem stepSimulation_reads_pre_tick_grid
    (M : Trig.t) (params : SimulationParams.t) (g : GridData.t) (rng : Rng.t) :
  well_formed g ->
  exists g' rng',
    stepSimulation M g params rng = Normal (g', rng')
    /\ forall x y,
         (x < Z.to_nat (GridData.width g))%nat ->
         (y < Z.to_nat (GridData.height g))%nat ->
         exists c neighbors rng1 rng2 c',
           grid_cell g x y = Some c
           /\ getNeighbors (GridData.cells g) (Z.of_nat x) (Z.of_nat y) = Normal neighbors
           /\ Rng.draws rng1 = Rng.draws rng
           /\ updateCellBurnState M c neighbors params rng1 = Normal (c', rng2)
           /\ grid_cell g' x y = Some c'.
Proof.
  intros Hwf.
  destruct (stepSimulation_cells M params g Hwf rng)
    as (g' & rng' & Hrun & _ & _ & _ & Hcells).
  exists g', rng'. split; [exact Hrun|].
  intros x y Hx Hy.
  destruct (Hcells x y Hx Hy) as (c' & Hc' & c & nbrs & r1 & r2 & Hc & Hn & E & _ & Hup).
  exists c, nbrs, r1, r2, c'. now split_and!.
Qed.

Lemma stepSimulation_reads_pre_tick_grid_witness :
  well_formed sample_grid
  /\ exists g' rng',
       stepSimulation grid_trig sample_grid sample_params (constant_tape 0.5)
       = Normal (g', rng')
       /\ forall x y,
            (x < Z.to_nat (GridData.width sample_grid))%nat ->
            (y < Z.to_nat (GridData.height sample_grid))%nat ->
            exists c neighbors rng1 rng2 c',
              grid_cell sample_grid x y = Some c
              /\ getNeighbors (GridData.cells sample_grid) (Z.of_nat x) (Z.of_nat y)
                 = Normal neighbors
              /\ Rng.draws rng1 = Rng.draws (constant_tape 0.5)
              /\ updateCellBurnState grid_trig c neighbors sample_params rng1
                 = Normal (c', rng2)
              /\ grid_cell g' x y = Some c'.
Proof.
  split.
  - exact sample_grid_well_formed.
  - apply (stepSimulation_reads_pre_tick_grid grid_trig sample_params sample_grid
             (constant_tape 0.5)).
    exact sample_grid_well_formed.
Defined.

(** * The frame of a tick *)

(** C10: the tick of a well-formed grid returns a grid with the same
    width, height, bounds and cell size, and every cell keeps its
    terrain, x, y, windX, windY, humidity and temperature. *)
Theorem stepSimulation_frame
    (M : Trig.t) (params : SimulationParams.t) (g : GridData.t) (rng : Rng.t) :
  well_formed g ->
  exists g' rng',
    stepSimulation M g params rng = Normal (g', rng')
    /\ GridData.width g' = GridData.width g
    /\ GridData.height g' = GridData.height g
    /\ GridData.bounds g' = GridData.bounds g
    /\ GridData.cellSize g' = GridData.cellSize g
    /\ forall x y c,
         grid_cell g x y = Some c ->
         exists c',
           grid_cell g' x y = Some c'
           /\ Cell.terrain c' = Cell.terrain c
           /\ Cell.x c' = Cell.x c /\ Cell.y c' = Cell.y c
           /\ Cell.windX c' = Cell.windX c /\ Cell.windY c' = Cell.windY c
           /\ Cell.humidity c' = Cell.humidity c
           /\ Cell.temperature c' = Cell.temperature c.
Proof.
  intros Hwf.
  destruct (stepSimulation_cells M params g Hwf rng)
    as (g' & rng' & Hrun & _ & Hg' & _ & Hcells).
  exists g', rng'. split; [exact Hrun|].
  split_and!; try (rewrite Hg'; reflexivity).
  intros x y c Hc.
  destruct (Hcells x y) as (c' & Hc' & c0 & nbrs & r1 & r2 & Hc0 & _ & _ & _ & Hup).
  - now apply (grid_cell_in_range g x y c).
  - now apply (grid_cell_in_range g x y c).
  - assert (c0 = c) as -> by congruence.
    apply (updateCellBurnState_result M params) in Hup as (_ & (st & i & d & -> & _) & _).
    exists (Cell.with_burn c st i d). now split_and!.
Qed.

(** * Ignition *)

Lemma flammability_positive (t : TerrainType) :
  (0 <? getFlammability t) = true <-> t <> WATER.
Proof. destruct t; simpl; split; (done || discriminate). Qed.

Lemma with_cells_id (g : GridData.t) : GridData.with_cells g (GridData.cells g) = g.
Proof. now destruct g. Qed.

(** Reading the grid after one cell has been assigned. *)
Lemma grid_cell_assign (g : GridData.t) X Y row value x y :
  GridData.cells g !! Y = Some row -> (X < length row)%nat ->
  grid_cell (GridData.with_cells g (<[Y := <[X := value]> row]> (GridData.cells g))) x y
  = if decide ((x, y) = (X, Y)) then Some value else grid_cell g x y.
Proof.
  intros Hrow HX. unfold grid_cell. simpl.
  assert (HY : (Y < length (GridData.cells g))%nat) by (eapply lookup_lt_Some; exact Hrow).
  destruct (decide (y = Y)) as [->|Hy].
  - rewrite list_lookup_insert_eq by exact HY. rewrite Hrow.
    destruct (decide (x = X)) as [->|Hx].
    + rewrite decide_True by reflexivity. now apply list_lookup_insert_eq.
    + rewrite decide_False by congruence. apply list_lookup_insert_ne. congruence.
  - rewrite list_lookup_insert_ne by congruence.
    now rewrite decide_False by congruence.
Qed.

Lemma well_formed_assign (g : GridData.t) X Y row value :
  well_formed g -> GridData.cells g !! Y = Some row ->
  well_formed (GridData.with_cells g (<[Y := <[X := value]> row]> (GridData.cells g))).
Proof.
  intros [Hh Hrows] Hrow. split; simpl.
  - now rewrite length_insert.
  - apply Forall_insert; [exact Hrows|]. rewrite length_insert.
    rewrite Forall_forall in Hrows. apply Hrows. eapply list_elem_of_lookup_2; exact Hrow.
Qed.

(** What [igniteCell] does on a well-formed grid, case by case. *)
Lemma igniteCell_cases (g : GridData.t) (x y : Z) :
  well_formed g ->
  (0 <= x < GridData.width g)%Z /\ (0 <= y < GridData.height g)%Z
  /\ (exists row cell,
        GridData.cells g !! Z.to_nat y = Some row /\ row !! Z.to_nat x = Some cell
        /\ igniteCell g x y =
           Normal
             (if bool_decide (Cell.burnState cell = UNBURNED)
                 && (0 <? getFlammability (Cell.terrain cell))
              then GridData.with_cells g
                     (<[Z.to_nat y := <[Z.to_nat x := Cell.with_burn cell BURNING 1.0 0]> row]>
                        (GridData.cells g))
              else g))
  \/ ~ ((0 <= x < GridData.width g)%Z /\ (0 <= y < GridData.height g)%Z)
     /\ igniteCell g x y = Normal g.
Proof.
  intros Hwf. unfold igniteCell.
  destruct ((0 <=? x)%Z && (x <? GridData.width g)%Z
            && (0 <=? y)%Z && (y <? GridData.height g)%Z) eqn:Hb.
  - left.
    apply andb_prop in Hb as [Hb Hy2]. apply andb_prop in Hb as [Hb Hy1].
    apply andb_prop in Hb as [Hx1 Hx2].
    apply Z.leb_le in Hx1, Hy1. apply Z.ltb_lt in Hx2, Hy2.
    split; [lia|]. split; [lia|].
    destruct (lookup_lt_is_Some_2 (GridData.cells g) (Z.to_nat y)) as [row Hrow].
    { rewrite <- (well_formed_height g Hwf). lia. }
    destruct (lookup_lt_is_Some_2 row (Z.to_nat x)) as [cell Hcell].
    { rewrite (well_formed_rows g row Hwf) by (eapply list_elem_of_lookup_2; exact Hrow). lia. }
    exists row, cell. rewrite Hrow, Hcell. split; [reflexivity|]. split; [reflexivity|].
    destruct (_ && _); [reflexivity | now rewrite with_cells_id].
  - right. split; [|reflexivity].
    intros [[Hx1 Hx2] [Hy1 Hy2]].
    apply Z.leb_le in Hx1, Hy1. apply Z.ltb_lt in Hx2, Hy2.
    now rewrite Hx1, Hx2, Hy1, Hy2 in Hb.
Qed.

(** C6: on a well-formed grid, [igniteCell] at an in-bounds position
    whose cell is Unburned with positive flammability returns the grid
    with exactly that cell set to Burning, intensity 1.0 and duration 0;
    in every other case (out of bounds, not Unburned, or flammability 0,
    which is Water) it returns the grid unchanged.  It never throws. *)
Theorem igniteCell_spec (g : GridData.t) (x y : Z) :
  well_formed g ->
  (forall c,
      (0 <= x < GridData.width g)%Z -> (0 <= y < GridData.height g)%Z ->
      grid_cell g (Z.to_nat x) (Z.to_nat y) = Some c ->
      Cell.burnState c = UNBURNED ->
      (0 <? getFlammability (Cell.terrain c)) = true ->
      exists g',
        igniteCell g x y = Normal g'
        /\ grid_cell g' (Z.to_nat x) (Z.to_nat y) = Some (Cell.with_burn c BURNING 1.0 0)
        /\ (forall x' y', (x', y') <> (Z.to_nat x, Z.to_nat y) ->
                          grid_cell g' x' y' = grid_cell g x' y')
        /\ GridData.width g' = GridData.width g
        /\ GridData.height g' = GridData.height g
        /\ GridData.bounds g' = GridData.bounds g
        /\ GridData.cellSize g' = GridData.cellSize g)
  /\ (~ ((0 <= x < GridData.width g)%Z /\ (0 <= y < GridData.height g)%Z)
      \/ (exists c,
            grid_cell g (Z.to_nat x) (Z.to_nat y) = Some c
            /\ (Cell.burnState c <> UNBURNED
                \/ (0 <? getFlammability (Cell.terrain c)) = false
                \/ Cell.terrain c = WATER)) ->
      igniteCell g x y = Normal g)
  /\ (exists g', igniteCell g x y = Normal g').
Proof.
  intros Hwf.
  destruct (igniteCell_cases g x y Hwf)
    as [(Hx & Hy & row & cell & Hrow & Hcell & Hrun)|[Hout Hrun]].
  - assert (Hgc : grid_cell g (Z.to_nat x) (Z.to_nat y) = Some cell).
    { unfold grid_cell. now rewrite Hrow. }
    assert (HX : (Z.to_nat x < length row)%nat) by (eapply lookup_lt_Some; exact Hcell).
    split; [|split; [|eauto]].
    + intros c _ _ Hc Hst Hfl. assert (c = cell) as -> by congruence.
      rewrite Hst, Hfl in Hrun. rewrite bool_decide_eq_true_2 in Hrun by reflexivity.
      eexists. split; [exact Hrun|]. split_and!; try reflexivity.
      * rewrite (grid_cell_assign g _ _ row) by assumption.
        now rewrite decide_True by reflexivity.
      * intros x' y' Hne. rewrite (grid_cell_assign g _ _ row) by assumption.
        now rewrite decide_False by exact Hne.
    + intros [Hout|(c & Hc & Hno)]; [tauto|].
      assert (c = cell) as -> by congruence. rewrite Hrun.
      destruct Hno as [Hst|[Hfl|Hw]].
      * now rewrite bool_decide_eq_false_2 by exact Hst.
      * rewrite Hfl. now rewrite andb_false_r.
      * rewrite Hw. simpl. now rewrite andb_false_r.
  - split; [tauto|]. split; [intros _; exact Hrun | eauto].
Qed.

(** * Burn states only move forward *)

Lemma forward_refl c : forward c c.
Proof. split; [lia | reflexivity]. Qed.

Lemma forward_trans c1 c2 c3 : forward c1 c2 -> forward c2 c3 -> forward c1 c3.
Proof.
  intros [L1 T1] [L2 T2]. split; [lia|].
  intros Hb. rewrite (T1 Hb) in *. now apply T2.
Qed.

Lemma stepSimulation_forward M params g rng :
  well_formed g ->
  exists g' rng',
    stepSimulation M g params rng = Normal (g', rng')
    /\ well_formed g'
    /\ forall x y c, grid_cell g x y = Some c ->
         exists c', grid_cell g' x y = Some c' /\ forward c c'.
Proof.
  intros Hwf.
  destruct (stepSimulation_cells M params g Hwf rng)
    as (g' & rng' & Hrun & _ & _ & Hwf' & Hcells).
  exists g', rng'. split; [exact Hrun|]. split; [exact Hwf'|].
  intros x y c Hc.
  destruct (grid_cell_in_range g x y c Hwf Hc) as [Hx Hy].
  destruct (Hcells x y Hx Hy) as (c' & Hc' & c0 & nbrs & r1 & r2 & Hc0 & _ & _ & _ & Hup).
  assert (c0 = c) as -> by congruence.
  exists c'. split; [exact Hc'|].
  apply (updateCellBurnState_result M params) in Hup as (_ & (st & i & d & -> & Hle) & Hb).
  split; [exact Hle | exact Hb].
Qed.

Lemma igniteCell_forward g x y :
  well_formed g ->
  exists g',
    igniteCell g x y = Normal g'
    /\ well_formed g'
    /\ forall x' y' c, grid_cell g x' y' = Some c ->
         exists c', grid_cell g' x' y' = Some c' /\ forward c c'.
Proof.
  intros Hwf.
  assert (Hsame : forall x' y' c, grid_cell g x' y' = Some c ->
                    exists c', grid_cell g x' y' = Some c' /\ forward c c').
  { intros x' y' c Hc. exists c. split; [exact Hc | apply forward_refl]. }
  destruct (igniteCell_cases g x y Hwf)
    as [(_ & _ & row & cell & Hrow & Hcell & Hrun)|[_ Hrun]]; [|eauto].
  destruct (bool_decide (Cell.burnState cell = UNBURNED)
            && (0 <? getFlammability (Cell.terrain cell))) eqn:Hcond; [|eauto].
  apply andb_prop in Hcond as [Hst _]. apply bool_decide_eq_true_1 in Hst.
  eexists. split; [exact Hrun|]. split; [now apply well_formed_assign|].
  intros x' y' c Hc.
  rewrite (grid_cell_assign g _ _ row) by (try assumption; eapply lookup_lt_Some; exact Hcell).
  destruct (decide ((x', y') = (Z.to_nat x, Z.to_nat y))) as [[= -> ->]|_].
  - assert (c = cell) as ->.
    { unfold grid_cell in Hc. rewrite Hrow in Hc. congruence. }
    eexists. split; [reflexivity|]. split; simpl; [rewrite Hst; simpl; lia | congruence].
  - exists c. split; [exact Hc | apply forward_refl].
Qed.

Lemma run_forward M ops :
  forall g rng,
    well_formed g ->
    exists g' rng',
      run M ops g rng = Normal (g', rng')
      /\ well_formed g'
      /\ forall x y c, grid_cell g x y = Some c ->
           exists c', grid_cell g' x y = Some c' /\ forward c c'.
Proof.
  induction ops as [|op rest IH]; intros g rng Hwf.
  - exists g, rng. split; [reflexivity|]. split; [exact Hwf|].
    intros x y c Hc. exists c. split; [exact Hc | apply forward_refl].
  - assert (Hop : exists g1 rng1,
               apply_operation M op g rng = Normal (g1, rng1)
               /\ well_formed g1
               /\ forall x y c, grid_cell g x y = Some c ->
                    exists c', grid_cell g1 x y = Some c' /\ forward c c').
    { destruct op as [params|x y]; simpl.
      - now apply stepSimulation_forward.
      - destruct (igniteCell_forward g x y Hwf) as (g1 & Hrun & Hwf1 & Hfw).
        exists g1, rng. unfold lift. now rewrite Hrun. }
    destruct Hop as (g1 & rng1 & Hrun1 & Hwf1 & Hfw1).
    destruct (IH g1 rng1 Hwf1) as (g' & rng' & Hrun & Hwf' & Hfw).
    exists g', rng'. simpl. unfold bind. rewrite Hrun1.
    split; [exact Hrun|]. split; [exact Hwf'|].
    intros x y c Hc.
    destruct (Hfw1 x y c Hc) as (c1 & Hc1 & F1).
    destruct (Hfw x y c1 Hc1) as (c' & Hc' & F2).
    exists c'. split; [exact Hc' | eapply forward_trans; eassumption].
Qed.

(** C5: any sequence of ticks and ignitions on a well-formed grid runs
    to the end, and for every cell the burn state in the final grid is
    the state it started in or a later one in the order Unburned,
    Burning, Burned; a cell that was Burned is unchanged in every
    field. *)
Theorem burn_state_only_moves_forward
    (M : Trig.t) (ops : list Operation) (g : GridData.t) (rng : Rng.t) :
  well_formed g ->
  exists g' rng',
    run M ops g rng = Normal (g', rng')
    /\ forall x y c,
         grid_cell g x y = Some c ->
         exists c',
           grid_cell g' x y = Some c'
           /\ (burn_rank (Cell.burnState c) <= burn_rank (Cell.burnState c'))%nat
           /\ (Cell.burnState c = BURNED -> c' = c).
Proof.
  intros Hwf.
  destruct (run_forward M ops g rng Hwf) as (g' & rng' & Hrun & _ & Hfw).
  exists g', rng'. split; [exact Hrun|]. intros x y c Hc.
  destruct (Hfw x y c Hc) as (c' & Hc' & Hle & Hb). eauto.
Qed.

(** * Burning down *)

Section BurnDown.

Variable M : Trig.t.

(** A cell that is not Unburned is advanced by [burn_step], whatever the
    neighbours, the parameters and the tape. *)
Lemma updateCellBurnState_burn_step cell neighbors params rng :
  Cell.burnState cell <> UNBURNED ->
  updateCellBurnState M cell neighbors params rng = Normal (burn_step cell, rng).
Proof.
  intros Hst. unfold burn_step. destruct (Cell.burnState cell) eqn:E; [done| |].
  - now rewrite updateCellBurnState_burning.
  - now rewrite updateCellBurnState_burned.
Qed.

Lemma burn_step_not_unburned cell :
  Cell.burnState cell <> UNBURNED -> Cell.burnState (burn_step cell) <> UNBURNED.
Proof.
  unfold burn_step. destruct (Cell.burnState cell) eqn:E; [done| |congruence].
  intros _. cbv zeta. now destruct (_ || _).
Qed.

Lemma burn_step_burned cell :
  Cell.burnState cell = BURNED -> burn_step cell = cell.
Proof. intros E. unfold burn_step. now rewrite E. Qed.

Lemma burn_for_burned n cell :
  Cell.burnState cell = BURNED -> burn_for n cell = cell.
Proof.
  intros E. induction n as [|n IH]; [reflexivity|].
  simpl. now rewrite burn_step_burned.
Qed.

Lemma burn_for_add n m cell : burn_for (n + m) cell = burn_for m (burn_for n cell).
Proof. revert cell. induction n as [|n IH]; intros cell; simpl; [reflexivity | apply IH]. Qed.

(** [n] ticks of a cell that is not Unburned are [n] burn steps. *)
Lemma cell_ticks_burn_for n cell c' :
  cell_ticks M n cell c' -> Cell.burnState cell <> UNBURNED -> c' = burn_for n cell.
Proof.
  induction 1 as [c|n c c1 c' nbrs params rng rng' Hup _ IH]; intros Hst.
  - reflexivity.
  - rewrite updateCellBurnState_burn_step in Hup by exact Hst.
    injection Hup as <- _. simpl. apply IH. now apply burn_step_not_unburned.
Qed.

Lemma cell_ticks_exist n cell :
  Cell.burnState cell <> UNBURNED -> cell_ticks M n cell (burn_for n cell).
Proof.
  revert cell. induction n as [|n IH]; intros cell Hst; simpl.
  - constructor.
  - apply (cell_ticks_S M n cell (burn_step cell) _ [] sample_params (constant_tape 0)
             (constant_tape 0)).
    + now apply updateCellBurnState_burn_step.
    + apply IH. now apply burn_step_not_unburned.
Qed.

Lemma flammability_forest (t : TerrainType) : getFlammability t = 0.8 -> t = FOREST.
Proof.
  intros E. apply (f_equal (fun v => v =? 0.8)) in E.
  now destruct t.
Qed.

(** A forest cell alight at intensity 1.0 and duration 0 is still
    Burning after each of the first 17 burn steps and Burned after the
    18th, when its intensity has decayed to 0.1 or below. *)
Lemma forest_burn_for (cell : Cell.t) k :
  Cell.terrain cell = FOREST -> Cell.burnState cell = BURNING ->
  Cell.burnIntensity cell = 1.0 -> Cell.burnDuration cell = 0 ->
  Cell.burnState (burn_for k cell) = BURNED <-> (18 <= k)%nat.
Proof.
  destruct cell as [t st x y wx wy h tp i d]. simpl. intros -> -> -> ->.
  destruct (le_lt_dec 18 k) as [Hk|Hk].
  - split; [intros _; exact Hk|]. intros _.
    replace k with (18 + (k - 18))%nat by lia.
    rewrite burn_for_add. now rewrite burn_for_burned.
  - split; [|lia]. intros Hb. exfalso.
    do 18 (destruct k as [|k]; [vm_compute in Hb; discriminate|]). lia.
Qed.

End BurnDown.

(** C4: one tick of a Burning cell adds 1 to burnDuration, lowers
    burnIntensity by 0.05 with a floor of 0, and makes the cell Burned
    with intensity 0 exactly when the new duration has reached
    flammability x 20 + 10 or the new intensity is 0.1 or less; a cell
    of flammability 0.8 alight at intensity 1.0 and duration 0 becomes
    Burned at a tick between the 18th and the 26th (the 18th). *)
Theorem burning_cell_burns_down (M : Trig.t) :
  (forall cell neighbors params rng,
      Cell.burnState cell = BURNING ->
      exists c',
        updateCellBurnState M cell neighbors params rng = Normal (c', rng)
        /\ Cell.burnDuration c' = Cell.burnDuration cell + 1
        /\ let intensity := Js.Math_max 0 (Cell.burnIntensity cell - 0.05) in
           let burnt :=
             (getFlammability (Cell.terrain cell) * 20 + 10 <=? Cell.burnDuration c')
             || (intensity <=? 0.1) in
           Cell.burnState c' = (if burnt then BURNED else BURNING)
           /\ Cell.burnIntensity c' = (if burnt then 0 else intensity))
  /\ (forall cell,
        getFlammability (Cell.terrain cell) = 0.8 ->
        Cell.burnState cell = BURNING ->
        Cell.burnIntensity cell = 1.0 -> Cell.burnDuration cell = 0 ->
        exists n,
          (18 <= n <= 26)%nat
          /\ (exists c', cell_ticks M n cell c')
          /\ forall k c', cell_ticks M k cell c' ->
               (Cell.burnState c' = BURNED <-> (n <= k)%nat)).
Proof.
  split.
  - intros cell nbrs params rng Hst. eexists. split.
    + now apply updateCellBurnState_burning.
    + cbv zeta. destruct (_ || _) eqn:Hb; simpl; rewrite Hb; auto.
  - intros cell Hfl Hst Hi Hd. apply flammability_forest in Hfl.
    assert (Hnu : Cell.burnState cell <> UNBURNED) by congruence.
    exists 18%nat. split; [lia|]. split.
    + eexists. now apply (cell_ticks_exist M 18).
    + intros k c' Hticks. rewrite (cell_ticks_burn_for M k cell c' Hticks Hnu).
      now apply forest_burn_for.
Qed.

(** * Water does not catch fire *)

Section ZeroProducts.

Lemma mul_zero_or_nan (a b : float) : zero_or_nan a -> zero_or_nan (a * b).
Proof.
  unfold zero_or_nan. rewrite mul_spec. unfold SF64mul, SFmul.
  destruct (Prim2SF a), (Prim2SF b); simpl; tauto.
Qed.

Lemma Math_min_one_zero_or_nan (p : float) :
  zero_or_nan p -> zero_or_nan (Js.Math_min 1.0 p).
Proof.
  intros Hp. unfold Js.Math_min.
  replace (is_nan 1.0) with false by reflexivity. cbn [orb].
  destruct (is_nan p) eqn:Hnan; [exact I|].
  assert (Hlt : (1.0 <? p) = false).
  { rewrite ltb_spec. unfold zero_or_nan in Hp.
    destruct (Prim2SF p); try tauto; reflexivity. }
  rewrite Hlt. destruct (p <? 1.0); [exact Hp|].
  replace (get_sign 1.0) with false by reflexivity. exact Hp.
Qed.

(** A draw of [Math.random] is never below a product with a zero
    factor. *)
Lemma ltb_zero_or_nan (r z : float) :
  (0 <=? r) = true -> zero_or_nan z -> (r <? z) = false.
Proof.
  rewrite leb_spec, ltb_spec. unfold zero_or_nan.
  replace (Prim2SF 0) with (S754_zero false) by reflexivity.
  destruct (Prim2SF r) as [[]|[]| |[] m e], (Prim2SF z) as [[]|[]| |[] m' e'];
    simpl; try tauto; try discriminate; reflexivity.
Qed.

(** With a Water target the spread probability is a product with the
    factor 0, whatever the source, the parameters and the wind effect. *)
Lemma calculateSpreadProbability_water fromCell toCell params windEffect :
  Cell.terrain toCell = WATER ->
  zero_or_nan (calculateSpreadProbability fromCell toCell params windEffect).
Proof.
  intros Hw. unfold calculateSpreadProbability. rewrite Hw. cbv zeta.
  apply Math_min_one_zero_or_nan. do 5 apply mul_zero_or_nan. exact I.
Qed.

End ZeroProducts.

Section WaterTick.

Variable M : Trig.t.
Variable params : SimulationParams.t.

(** The scan around a Water cell never sets it alight. *)
Lemma spread_loop_water cell neighbors newCell rng c' rng' :
  Cell.terrain cell = WATER -> Rng.unit_interval rng ->
  spread_loop M cell params neighbors newCell rng = Normal (c', rng') ->
  c' = newCell.
Proof.
  intros Hw. revert rng.
  induction neighbors as [|[nb|] rest IH]; intros rng Hunit; simpl.
  - now intros [= <- _].
  - destruct (decide (Cell.burnState nb = BURNING)) as [_|_]; [|now apply IH].
    draw.
    rewrite ltb_zero_or_nan.
    + apply IH. intros n. apply Hunit.
    + apply Hunit.
    + apply mul_zero_or_nan. now apply calculateSpreadProbability_water.
  - discriminate.
Qed.

(** A Water cell that is not Burning comes out of the transition as it
    went in. *)
Lemma updateCellBurnState_water cell neighbors rng c' rng' :
  Cell.terrain cell = WATER -> Cell.burnState cell <> BURNING ->
  Rng.unit_interval rng ->
  updateCellBurnState M cell neighbors params rng = Normal (c', rng') ->
  c' = cell.
Proof.
  intros Hw Hst Hunit. unfold updateCellBurnState.
  destruct (Cell.burnState cell) eqn:E; [|done|].
  - now apply spread_loop_water.
  - now intros [= <- _].
Qed.

End WaterTick.

(** Two well-formed grids of the same frame with the same cell at every
    position are the same grid. *)
Lemma grid_ext (g g' : GridData.t) :
  well_formed g -> well_formed g' ->
  g' = GridData.with_cells g (GridData.cells g') ->
  (forall x y, grid_cell g' x y = grid_cell g x y) ->
  g' = g.
Proof.
  intros Hwf Hwf' Hframe Hcells.
  enough (Heq : GridData.cells g' = GridData.cells g).
  { rewrite Hframe, Heq. apply with_cells_id. }
  assert (Hh : length (GridData.cells g') = length (GridData.cells g)).
  { rewrite <- (well_formed_height g Hwf), <- (well_formed_height g' Hwf').
    now rewrite Hframe. }
  apply list_eq_same_length with (n := length (GridData.cells g)); [reflexivity | exact Hh |].
  intros y row' row _ Hrow' Hrow.
  assert (Hw : length row' = length row).
  { rewrite (well_formed_rows g row Hwf) by (eapply list_elem_of_lookup_2; exact Hrow).
    rewrite (well_formed_rows g' row' Hwf') by (eapply list_elem_of_lookup_2; exact Hrow').
    now rewrite Hframe. }
  apply list_eq. intros x. specialize (Hcells x y).
  unfold grid_cell in Hcells. now rewrite Hrow', Hrow in Hcells.
Qed.

(** The Burning arm of the transition does not look at the terrain: in
    a grid whose only cell is Water and already Burning, a state that no
    rasterization, tick or ignition produces, the tick takes the cell
    one step down, its duration from 0 to 1 and its intensity from 1 to
    0.95. *)
Remark burning_pond_changes :
  grid_cell burning_pond 0 0 = Some (sample_cell WATER BURNING 0 0 1 0)
  /\ stepSimulation grid_trig burning_pond sample_params (constant_tape 0.5)
     = Normal
         (GridData.with_cells burning_pond [ [ sample_cell WATER BURNING 0 0 0.95 1 ] ],
          constant_tape 0.5).
Proof. split; reflexivity. Qed.

(** * The order in which neighbours are tried *)

Section NeighbourOrder.

Variable M : Trig.t.
Variable params : SimulationParams.t.

(** A scan that comes back without having set the cell alight leaves the
    rest of the list to be scanned from where the tape then stands. *)
Lemma spread_loop_app cell pre rest newCell rng c1 rng1 :
  spread_loop M cell params pre newCell rng = Normal (c1, rng1) ->
  Cell.burnState newCell = UNBURNED -> Cell.burnState c1 = UNBURNED ->
  spread_loop M cell params (pre ++ rest) newCell rng
  = spread_loop M cell params rest newCell rng1.
Proof.
  intros Hrun Hnew Hc1. revert rng Hrun.
  induction pre as [|[nb|] pre IH]; intros rng; simpl.
  - now intros [= _ <-].
  - destruct (decide (Cell.burnState nb = BURNING)) as [_|_]; [|apply IH].
    unfold bind at 1 3. unfold Math_random, Rng.next. cbv beta iota.
    destruct (_ <? _); [|apply IH].
    unfold bind, ret. intros [= <- _]. discriminate.
  - discriminate.
Qed.

(** The first Burning neighbour whose draw falls below a tenth of its
    spread probability sets the cell alight with the next draw as
    intensity. *)
Lemma spread_loop_ignites cell nb rest newCell rng :
  Cell.burnState nb = BURNING ->
  (Rng.draws rng (Rng.cursor rng)
   <? calculateSpreadProbability nb cell params
        (calculateWindEffect M (Cell.x nb) (Cell.y nb) (Cell.x cell) (Cell.y cell)
           (SimulationParams.windDirection params)) * 0.1) = true ->
  spread_loop M cell params (Some nb :: rest) newCell rng
  = Normal
      (Cell.with_burn newCell BURNING
         (Rng.draws rng (S (Rng.cursor rng)) * 0.5 + 0.5) 0,
       {| Rng.draws := Rng.draws rng; Rng.cursor := S (S (Rng.cursor rng)) |}).
Proof.
  intros Hnb Hdraw. simpl. rewrite decide_True by exact Hnb.
  draw.
  now rewrite Hdraw.
Qed.

End NeighbourOrder.

(** C3 (as stated, refuted): around the centre of the sample grid the
    second neighbour [getNeighbors] returns is the cell to the west
    (column 0, row 1), where the order read as (dy, dx) puts the cell to
    the north (column 1, row 0). *)
Lemma neighbours_not_in_dy_dx_order :
  getNeighbors (GridData.cells sample_grid) 1 1
  = Normal
      [ grid_cell sample_grid 0 0; grid_cell sample_grid 0 1; grid_cell sample_grid 0 2;
        grid_cell sample_grid 1 0; grid_cell sample_grid 1 2;
        grid_cell sample_grid 2 0; grid_cell sample_grid 2 1; grid_cell sample_grid 2 2 ]
  /\ neighbors_dy_dx (GridData.cells sample_grid) 1 1
     = [ grid_cell sample_grid 0 0; grid_cell sample_grid 1 0; grid_cell sample_grid 2 0;
         grid_cell sample_grid 0 1; grid_cell sample_grid 2 1;
         grid_cell sample_grid 0 2; grid_cell sample_grid 1 2; grid_cell sample_grid 2 2 ]
  /\ getNeighbors (GridData.cells sample_grid) 1 1
     <> Normal (neighbors_dy_dx (GridData.cells sample_grid) 1 1).
Proof.
  split; [reflexivity|]. split; [reflexivity|].
  intros H. vm_compute in H. discriminate H.
Qed.

(** C3 (amended): [getNeighbors] returns the Moore neighbours in the
    order of the offsets (-1,-1), (-1,0), (-1,1), (0,-1), (0,1), (1,-1),
    (1,0), (1,1) read as (dx, dy), column offset first, without those
    outside the grid; an Unburned cell tries them in that order, and the
    first Burning one whose draw sets it alight ends the scan: the later
    neighbours are not read and get no draw. *)
Theorem neighbours_tried_in_dx_dy_order (M : Trig.t) (params : SimulationParams.t) :
  (forall grid x y,
      grid <> [] ->
      getNeighbors grid x y
      = Normal
          (cells_inside grid
             [ (x - 1, y - 1); (x - 1, y); (x - 1, y + 1);
               (x, y - 1);                 (x, y + 1);
               (x + 1, y - 1); (x + 1, y); (x + 1, y + 1) ]%Z))
  /\ (forall cell neighbors more rng c' rng',
        Cell.burnState cell = UNBURNED ->
        updateCellBurnState M cell neighbors params rng = Normal (c', rng') ->
        Cell.burnState c' = BURNING ->
        updateCellBurnState M cell (neighbors ++ more) params rng = Normal (c', rng'))
  /\ (forall cell before nb more rng rng1,
        Cell.burnState cell = UNBURNED ->
        updateCellBurnState M cell before params rng = Normal (cell, rng1) ->
        Cell.burnState nb = BURNING ->
        (Rng.draws rng1 (Rng.cursor rng1)
         <? calculateSpreadProbability nb cell params
              (calculateWindEffect M (Cell.x nb) (Cell.y nb) (Cell.x cell) (Cell.y cell)
                 (SimulationParams.windDirection params)) * 0.1) = true ->
        updateCellBurnState M cell (before ++ Some nb :: more) params rng
        = Normal
            (Cell.with_burn cell BURNING
               (Rng.draws rng1 (S (Rng.cursor rng1)) * 0.5 + 0.5) 0,
             {| Rng.draws := Rng.draws rng1; Rng.cursor := S (S (Rng.cursor rng1)) |})).
Proof.
  split; [|split].
  - intros grid x y Hne. destruct grid as [|row0 rows] eqn:Hgrid; [done|].
    unfold getNeighbors. rewrite (neighbors_loop_inside _ row0) by reflexivity.
    unfold directions. cbn [map fst snd app].
    now rewrite !Z.add_0_r.
  - intros cell nbrs more rng c' rng' Hst Hrun Hlit.
    unfold updateCellBurnState in *. rewrite Hst in *.
    now apply spread_loop_stops.
  - intros cell before nb more rng rng1 Hst Hrun Hnb Hdraw.
    unfold updateCellBurnState in *. rewrite Hst in *.
    rewrite (spread_loop_app M params cell before _ cell rng cell rng1) by assumption.
    now apply spread_loop_ignites.
Qed.

(** * The statements at concrete inputs *)

Lemma stepSimulation_frame_witness :
  well_formed sample_grid
  /\ exists g' rng',
       stepSimulation grid_trig sample_grid sample_params (constant_tape 0.5)
       = Normal (g', rng')
       /\ GridData.width g' = GridData.width sample_grid
       /\ GridData.height g' = GridData.height sample_grid
       /\ GridData.bounds g' = GridData.bounds sample_grid
       /\ GridData.cellSize g' = GridData.cellSize sample_grid
       /\ forall x y c,
            grid_cell sample_grid x y = Some c ->
            exists c',
              grid_cell g' x y = Some c'
              /\ Cell.terrain c' = Cell.terrain c
              /\ Cell.x c' = Cell.x c /\ Cell.y c' = Cell.y c
              /\ Cell.windX c' = Cell.windX c /\ Cell.windY c' = Cell.windY c
              /\ Cell.humidity c' = Cell.humidity c
              /\ Cell.temperature c' = Cell.temperature c.
Proof.
  split.
  - exact sample_grid_well_formed.
  - apply (stepSimulation_frame grid_trig sample_params sample_grid (constant_tape 0.5)).
    exact sample_grid_well_formed.
Defined.

Lemma igniteCell_spec_witness :
  well_formed sample_grid
  /\ (exists g',
        igniteCell sample_grid 1 1 = Normal g'
        /\ grid_cell g' 1 1 = Some (sample_cell GRASS BURNING 1 1 1.0 0)
        /\ (forall x' y', (x', y') <> (1%nat, 1%nat) ->
                          grid_cell g' x' y' = grid_cell sample_grid x' y')
        /\ GridData.width g' = GridData.width sample_grid
        /\ GridData.height g' = GridData.height sample_grid
        /\ GridData.bounds g' = GridData.bounds sample_grid
        /\ GridData.cellSize g' = GridData.cellSize sample_grid)
  /\ igniteCell sample_grid 2 0 = Normal sample_grid
  /\ igniteCell sample_grid 5 (-1) = Normal sample_grid.
Proof.
  split; [exact sample_grid_well_formed|]. split; [|split].
  - apply (proj1 (igniteCell_spec sample_grid 1 1 sample_grid_well_formed)
             (sample_cell GRASS UNBURNED 1 1 0 0));
      first [reflexivity | (simpl; lia)].
  - apply (proj1 (proj2 (igniteCell_spec sample_grid 2 0 sample_grid_well_formed))).
    right. exists (sample_cell WATER UNBURNED 2 0 0 0).
    split; [reflexivity|]. right. right. reflexivity.
  - apply (proj1 (proj2 (igniteCell_spec sample_grid 5 (-1) sample_grid_well_formed))).
    left. simpl. lia.
Defined.

Lemma burn_state_only_moves_forward_witness :
  well_formed sample_grid
  /\ exists g' rng',
       run grid_trig
         [Ignite 1 1; Tick sample_params; Ignite 0 1; Ignite 2 0; Tick sample_params]
         sample_grid (constant_tape 0.5)
       = Normal (g', rng')
       /\ forall x y c,
            grid_cell sample_grid x y = Some c ->
            exists c',
              grid_cell g' x y = Some c'
              /\ (burn_rank (Cell.burnState c) <= burn_rank (Cell.burnState c'))%nat
              /\ (Cell.burnState c = BURNED -> c' = c).
Proof.
  split.
  - exact sample_grid_well_formed.
  - apply (burn_state_only_moves_forward grid_trig _ sample_grid (constant_tape 0.5)).
    exact sample_grid_well_formed.
Defined.

Lemma burning_cell_burns_down_witness :
  getFlammability (Cell.terrain (sample_cell FOREST BURNING 0 1 1 0)) = 0.8
  /\ exists n,
       (18 <= n <= 26)%nat
       /\ (exists c', cell_ticks grid_trig n (sample_cell FOREST BURNING 0 1 1 0) c')
       /\ forall k c',
            cell_ticks grid_trig k (sample_cell FOREST BURNING 0 1 1 0) c' ->
            (Cell.burnState c' = BURNED <-> (n <= k)%nat).
Proof.
  split; [reflexivity|].
  apply (proj2 (burning_cell_burns_down grid_trig)
           (sample_cell FOREST BURNING 0 1 1 0)); reflexivity.
Defined.

Lemma neighbours_tried_in_dx_dy_order_witness :
  GridData.cells sample_grid <> []
  /\ getNeighbors (GridData.cells sample_grid) 1 1
     = Normal
         (cells_inside (GridData.cells sample_grid)
            [ (0, 0); (0, 1); (0, 2); (1, 0); (1, 2); (2, 0); (2, 1); (2, 2) ]%Z)
  /\ updateCellBurnState grid_trig (sample_cell GRASS UNBURNED 1 1 0 0)
       ([Some (sample_cell GRASS UNBURNED 0 0 0 0)]
        ++ Some (sample_cell FOREST BURNING 0 1 1 0)
           :: [Some (sample_cell FARMLAND UNBURNED 0 2 0 0); None])
       sample_params (constant_tape 0)
     = Normal
         (sample_cell GRASS BURNING 1 1 0.5 0,
          {| Rng.draws := fun _ => 0; Rng.cursor := 2 |}).
Proof.
  split; [discriminate|]. split.
  - apply (proj1 (neighbours_tried_in_dx_dy_order grid_trig sample_params)
             (GridData.cells sample_grid) 1%Z 1%Z).
    discriminate.
  - apply (proj2 (proj2 (neighbours_tried_in_dx_dy_order grid_trig sample_params))
             (sample_cell GRASS UNBURNED 1 1 0 0)
             [Some (sample_cell GRASS UNBURNED 0 0 0 0)]
             (sample_cell FOREST BURNING 0 1 1 0)
             [Some (sample_cell FARMLAND UNBURNED 0 2 0 0); None]
             (constant_tape 0) (constant_tape 0)); reflexivity.
Defined.

(** * Rounded products of normal numbers *)

Section Rounding.

#[local] Open Scope Z_scope.

Lemma digits2_pos_size (m : positive) : digits2_pos m = Pos.size m.
Proof. induction m as [m IH|m IH|]; simpl; congruence. Qed.

Lemma digits2_pos_bounds (m : positive) :
  2 ^ (Z.pos (digits2_pos m) - 1) <= Z.pos m < 2 ^ Z.pos (digits2_pos m).
Proof.
  rewrite digits2_pos_size.
  pose proof (Pos.size_gt m) as Hgt. pose proof (Pos.size_le m) as Hle.
  apply Pos2Z.pos_lt_pos in Hgt. apply Pos2Z.pos_le_pos in Hle.
  rewrite Pos2Z.inj_pow in Hgt, Hle.
  split; [|exact Hgt].
  replace (2 ^ Z.pos (Pos.size m)) with (2 * 2 ^ (Z.pos (Pos.size m) - 1)) in Hle.
  - lia.
  - rewrite <- Z.pow_succ_r by lia. f_equal. lia.
Qed.

Lemma digits2_pos_unique (m : positive) (d : Z) :
  2 ^ (d - 1) <= Z.pos m < 2 ^ d -> Z.pos (digits2_pos m) = d.
Proof.
  intros [Hlo Hhi]. pose proof (digits2_pos_bounds m) as [Blo Bhi].
  set (s := Z.pos (digits2_pos m)) in *.
  assert (Hs : 0 < s) by (subst s; lia).
  destruct (Z.lt_trichotomy s d) as [Hlt|[Heq|Hgt]]; [|exact Heq|].
  - assert (2 ^ s <= 2 ^ (d - 1)) by (apply Z.pow_le_mono_r; lia). lia.
  - assert (0 <= d).
    { destruct (Z.le_gt_cases 0 d) as [|Hneg]; [assumption|].
      rewrite (Z.pow_neg_r 2 d) in Hhi by lia. lia. }
    assert (2 ^ d <= 2 ^ (s - 1)) by (apply Z.pow_le_mono_r; lia). lia.
Qed.

Lemma shr_1_m (r : shr_record) :
  0 <= shr_m r -> shr_m (shr_1 r) = shr_m r / 2.
Proof.
  destruct r as [m rb sb]. simpl. intros Hm.
  rewrite <- Z.div2_div.
  destruct m as [|[p|p|]|p]; simpl; try reflexivity; lia.
Qed.

Lemma iter_shr_1_m (n : positive) :
  forall r, 0 <= shr_m r ->
    shr_m (SpecFloat.iter_pos shr_1 n r) = shr_m r / 2 ^ Z.pos n.
Proof.
  induction n as [n IH|n IH|]; intros r Hr; simpl SpecFloat.iter_pos.
  - assert (H1 : 0 <= shr_m (shr_1 r)) by (rewrite shr_1_m by lia; apply Z.div_pos; lia).
    assert (H2 : 0 <= shr_m (SpecFloat.iter_pos shr_1 n (shr_1 r))).
    { rewrite IH by lia. apply Z.div_pos; lia. }
    assert (Hpow : 2 ^ Z.pos n~1 = 2 * 2 ^ Z.pos n * 2 ^ Z.pos n).
    { replace (Z.pos n~1) with (1 + Z.pos n + Z.pos n) by lia.
      rewrite !Z.pow_add_r by lia. reflexivity. }
    rewrite IH by lia. rewrite IH by lia. rewrite shr_1_m by lia.
    rewrite !Z.div_div by lia. f_equal. rewrite Hpow. ring.
  - assert (H2 : 0 <= shr_m (SpecFloat.iter_pos shr_1 n r)).
    { rewrite IH by lia. apply Z.div_pos; lia. }
    assert (Hpow : 2 ^ Z.pos n~0 = 2 ^ Z.pos n * 2 ^ Z.pos n).
    { replace (Z.pos n~0) with (Z.pos n + Z.pos n) by lia.
      rewrite !Z.pow_add_r by lia. reflexivity. }
    rewrite IH by lia. rewrite IH by lia.
    rewrite Z.div_div by lia. f_equal. rewrite Hpow. ring.
  - rewrite shr_1_m by lia. reflexivity.
Qed.

Lemma round_nearest_even_cases (m : Z) (l : location) :
  round_nearest_even m l = m \/ round_nearest_even m l = m + 1.
Proof. destruct l as [|[]]; simpl; try destruct (Z.even m); auto. Qed.

Lemma fexp_normal (x : Z) : -1021 <= x -> fexp prec emax x = x - 53.
Proof. intros Hx. unfold fexp, emin, prec, emax. lia. Qed.

(** Shifting a mantissa of [53 + d] digits down to 53 digits. *)
Lemma shr_fexp_shift (m : positive) (e d : Z) :
  Z.pos (digits2_pos m) = 53 + d -> 0 < d -> -1074 <= e + d ->
  exists rec,
    shr_fexp prec emax (Z.pos m) e loc_Exact = (rec, e + d)
    /\ shr_m rec = Z.pos m / 2 ^ d.
Proof.
  intros Hdig Hd He. unfold shr_fexp. cbn [Zdigits2]. rewrite Hdig.
  rewrite fexp_normal by lia.
  replace (53 + d + e - 53 - e) with d by lia.
  destruct d as [|dp|dp]; try lia.
  cbn [shr shr_record_of_loc]. eexists. split; [reflexivity|].
  now rewrite iter_shr_1_m.
Qed.

(** A mantissa that already has 53 digits is kept. *)
Lemma shr_fexp_keep (m : positive) (e : Z) :
  Z.pos (digits2_pos m) = 53 -> -1074 <= e ->
  shr_fexp prec emax (Z.pos m) e loc_Exact
  = ({| shr_m := Z.pos m; shr_r := false; shr_s := false |}, e).
Proof.
  intros Hdig He. unfold shr_fexp. cbn [Zdigits2]. rewrite Hdig.
  rewrite fexp_normal by lia.
  replace (53 + e - 53 - e) with 0 by lia. reflexivity.
Qed.

(** The mantissa 2^53, reached when rounding carries, is halved. *)
Lemma shr_fexp_carry (e : Z) :
  -1074 <= e ->
  shr_fexp prec emax (2 ^ 53) e loc_Exact
  = ({| shr_m := 2 ^ 52; shr_r := false; shr_s := false |}, e + 1).
Proof.
  intros He. unfold shr_fexp.
  change (Zdigits2 (2 ^ 53)) with 54.
  rewrite fexp_normal by lia.
  replace (54 + e - 53 - e) with 1 by lia. reflexivity.
Qed.

(** Rounding a positive mantissa of [53 + d] digits, away from the
    subnormal range and from overflow: the result is a normal number
    within [2 ^ d] of the exact value, counted in units of [2 ^ e]. *)
Lemma binary_round_aux_normal (p : positive) (e d : Z) :
  Z.pos (digits2_pos p) = 53 + d -> 0 < d ->
  -1074 <= e + d -> e + d + 1 <= 971 ->
  exists m' e',
    binary_round_aux prec emax false (Z.pos p) e loc_Exact = S754_finite false m' e'
    /\ 2 ^ 52 <= Z.pos m' < 2 ^ 53
    /\ e + d <= e' <= e + d + 1
    /\ Z.pos p - 2 ^ d <= Z.pos m' * 2 ^ (e' - e) <= Z.pos p + 2 ^ d.
Proof.
  intros Hdig Hd Hlo Hhi.
  destruct (shr_fexp_shift p e d Hdig Hd Hlo) as (rec & Hshift & Hq).
  pose proof (digits2_pos_bounds p) as [Plo Phi]. rewrite Hdig in Plo, Phi.
  assert (H2d : 0 < 2 ^ d) by (apply Z.pow_pos_nonneg; lia).
  assert (Hp52 : 2 ^ (53 + d - 1) = 2 ^ 52 * 2 ^ d).
  { replace (53 + d - 1) with (52 + d) by lia. now rewrite Z.pow_add_r by lia. }
  assert (Hp53 : 2 ^ (53 + d) = 2 ^ 53 * 2 ^ d) by (now rewrite Z.pow_add_r by lia).
  rewrite Hp52 in Plo. rewrite Hp53 in Phi.
  set (q := Z.pos p / 2 ^ d) in *.
  assert (Hqlo : 2 ^ 52 <= q) by (apply Z.div_le_lower_bound; lia).
  assert (Hqhi : q < 2 ^ 53) by (apply Z.div_lt_upper_bound; lia).
  assert (Hqp : q * 2 ^ d <= Z.pos p < (q + 1) * 2 ^ d).
  { pose proof (Z.mul_div_le (Z.pos p) (2 ^ d) H2d).
    pose proof (Z.mul_succ_div_gt (Z.pos p) (2 ^ d) H2d). subst q. lia. }
  unfold binary_round_aux. rewrite Hshift.
  set (m1 := round_nearest_even (shr_m rec) (loc_of_shr_record rec)).
  assert (Hm1 : m1 = q \/ m1 = q + 1).
  { subst m1. rewrite Hq. apply round_nearest_even_cases. }
  destruct (Z.eq_dec m1 (2 ^ 53)) as [Hcarry|Hnocarry].
  - rewrite Hcarry, shr_fexp_carry by lia. cbn [shr_m].
    change (2 ^ 52) with (Z.pos (2 ^ 52)%positive) at 1.
    cbv iota. replace (e + d + 1 <=? emax - prec) with true
      by (symmetry; apply Z.leb_le; unfold emax, prec; lia).
    exists (2 ^ 52)%positive, (e + d + 1). split; [reflexivity|].
    split; [split; [reflexivity | reflexivity]|]. split; [lia|].
    replace (e + d + 1 - e) with (1 + d) by lia.
    rewrite Z.pow_add_r by lia. change (Z.pos (2 ^ 52)) with (2 ^ 52).
    change (2 ^ 1) with 2. lia.
  - assert (Hm1r : 2 ^ 52 <= m1 < 2 ^ 53) by lia.
    destruct m1 as [|m1p|m1p] eqn:Em1; try lia.
    assert (Hdig1 : Z.pos (digits2_pos m1p) = 53).
    { apply digits2_pos_unique. change (53 - 1) with 52. lia. }
    rewrite shr_fexp_keep by (assumption || lia). cbn [shr_m]. cbv iota.
    replace (e + d <=? emax - prec) with true
      by (symmetry; apply Z.leb_le; unfold emax, prec; lia).
    exists m1p, (e + d). split; [reflexivity|]. split; [lia|]. split; [lia|].
    replace (e + d - e) with d by lia. nia.
Qed.

End Rounding.

Section NormalProducts.

#[local] Open Scope R_scope.

Lemma powerRZ_2_pos (e : Z) : 0 < powerRZ 2 e.
Proof. apply powerRZ_lt. lra. Qed.

Lemma powerRZ_2_add (a b : Z) : powerRZ 2 (a + b) = powerRZ 2 a * powerRZ 2 b.
Proof. apply powerRZ_add. lra. Qed.

Lemma powerRZ_2_Z (k : Z) : (0 <= k)%Z -> powerRZ 2 k = IZR (2 ^ k).
Proof.
  intros Hk. destruct k as [|p|p]; [reflexivity| |lia].
  now rewrite <- Zpower_pos_powerRZ.
Qed.

Lemma powerRZ_2_le (a b : Z) : (a <= b)%Z -> powerRZ 2 a <= powerRZ 2 b.
Proof.
  intros Hab. assert (Hk : exists k, (0 <= k)%Z /\ b = (a + k)%Z).
  { exists (b - a)%Z. lia. }
  destruct Hk as (k & Hk & ->).
  rewrite powerRZ_2_add, (powerRZ_2_Z k) by lia.
  assert (1 <= IZR (2 ^ k)).
  { apply IZR_le. assert (0 < 2 ^ k)%Z by (apply Z.pow_pos_nonneg; lia). lia. }
  pose proof (powerRZ_2_pos a). nra.
Qed.

Lemma F2R_normal x m e :
  Prim2SF x = S754_finite false m e -> F2R x = IZR (Z.pos m) * powerRZ 2 e.
Proof. intros E. unfold F2R. rewrite E. lra. Qed.

Lemma F2R_normal_pos lo hi x : normal_between lo hi x -> 0 < F2R x.
Proof.
  intros (m & e & E & Hm & _). rewrite (F2R_normal x m e E).
  apply Rmult_lt_0_compat; [apply IZR_lt; lia | apply powerRZ_2_pos].
Qed.

(** On normal numbers the order of the floats is the order of the
    reals they stand for. *)
Lemma ltb_normal lo hi lo' hi' x y :
  normal_between lo hi x -> normal_between lo' hi' y ->
  F2R x < F2R y -> (x <? y)%float = true.
Proof.
  intros (mx & ex & Ex & Hmx & _) (my & ey & Ey & Hmy & _).
  rewrite (F2R_normal x mx ex Ex), (F2R_normal y my ey Ey).
  intros Hlt. rewrite ltb_spec, Ex, Ey. unfold SFltb, SFcompare.
  assert (Hx : 4503599627370496 <= IZR (Z.pos mx) <= 9007199254740991).
  { split; apply IZR_le; lia. }
  assert (Hy : 4503599627370496 <= IZR (Z.pos my) <= 9007199254740991).
  { split; apply IZR_le; lia. }
  destruct (Z.compare_spec ex ey) as [Heq|Hl|Hg].
  - subst ey. pose proof (powerRZ_2_pos ex).
    assert (IZR (Z.pos mx) < IZR (Z.pos my)) by nra.
    apply lt_IZR in H0.
    change (Pos.compare_cont Eq mx my) with (Pos.compare mx my).
    now rewrite (proj2 (Pos.compare_lt_iff mx my)) by lia.
  - reflexivity.
  - exfalso. pose proof (powerRZ_2_pos ey).
    assert (powerRZ 2 (ey + 1) <= powerRZ 2 ex) by (apply powerRZ_2_le; lia).
    rewrite powerRZ_2_add in H0. change (powerRZ 2 1) with (2 * 1) in H0. nra.
Qed.

(** The product of two normal numbers, away from underflow and
    overflow, is a normal number within 2^-52 of the exact product. *)
Lemma mul_normal lo1 hi1 lo2 hi2 x y :
  normal_between lo1 hi1 x -> normal_between lo2 hi2 y ->
  (-1074 <= lo1 + lo2 + 52)%Z -> (hi1 + hi2 + 54 <= 971)%Z ->
  normal_between (lo1 + lo2 + 52) (hi1 + hi2 + 54) (x * y)
  /\ F2R x * F2R y * (1 - / 4503599627370496) <= F2R (x * y)
     <= F2R x * F2R y * (1 + / 4503599627370496).
Proof.
  intros (mx & ex & Ex & Hmx & Hex) (my & ey & Ey & Hmy & Hey) Hlo Hhi.
  assert (Hp : (2 ^ 104 <= Z.pos (mx * my) < 2 ^ 106)%Z).
  { rewrite Pos2Z.inj_mul. change (2 ^ 104)%Z with (2 ^ 52 * 2 ^ 52)%Z.
    change (2 ^ 106)%Z with (2 ^ 53 * 2 ^ 53)%Z. nia. }
  assert (Hd : exists d, (d = 52 \/ d = 53)%Z
                 /\ Z.pos (digits2_pos (mx * my)) = (53 + d)%Z).
  { destruct (Z.lt_ge_cases (Z.pos (mx * my)) (2 ^ 105)) as [Hlt|Hge].
    - exists 52%Z. split; [now left|]. apply digits2_pos_unique.
      change (53 + 52 - 1)%Z with 104%Z. change (53 + 52)%Z with 105%Z. lia.
    - exists 53%Z. split; [now right|]. apply digits2_pos_unique.
      change (53 + 53 - 1)%Z with 105%Z. change (53 + 53)%Z with 106%Z. lia. }
  destruct Hd as (d & Hd & Hdig).
  destruct (binary_round_aux_normal (mx * my) (ex + ey) d Hdig)
    as (m' & e' & Hround & Hm' & He' & Hval); try lia.
  assert (Exy : Prim2SF (x * y) = S754_finite false m' e').
  { rewrite mul_spec, Ex, Ey. exact Hround. }
  split.
  - exists m', e'. split; [exact Exy|]. split; [exact Hm' | lia].
  - rewrite (F2R_normal x mx ex Ex), (F2R_normal y my ey Ey),
      (F2R_normal _ m' e' Exy).
    set (U := powerRZ 2 (ex + ey)).
    assert (HU : 0 < U) by apply powerRZ_2_pos.
    assert (Hv : IZR (Z.pos mx) * powerRZ 2 ex * (IZR (Z.pos my) * powerRZ 2 ey)
                 = IZR (Z.pos (mx * my)) * U).
    { subst U. rewrite powerRZ_2_add, Pos2Z.inj_mul, mult_IZR. ring. }
    assert (Hr : IZR (Z.pos m') * powerRZ 2 e'
                 = IZR (Z.pos m' * 2 ^ (e' - (ex + ey))) * U).
    { subst U. set (k := (e' - (ex + ey))%Z).
      replace e' with ((ex + ey) + k)%Z by (subst k; lia).
      rewrite powerRZ_2_add, (powerRZ_2_Z k), mult_IZR by (subst k; lia). ring. }
    rewrite Hv, Hr.
    destruct Hval as [Hv1 Hv2]. apply IZR_le in Hv1, Hv2.
    rewrite minus_IZR in Hv1. rewrite plus_IZR in Hv2.
    assert (Hdp : IZR (2 ^ d) * 4503599627370496 <= IZR (Z.pos (mx * my))).
    { change 4503599627370496 with (IZR (2 ^ 52)). rewrite <- mult_IZR. apply IZR_le.
      rewrite <- Z.pow_add_r by lia.
      pose proof (digits2_pos_bounds (mx * my)) as [Blo _]. rewrite Hdig in Blo.
      replace (d + 52)%Z with (53 + d - 1)%Z by lia. exact Blo. }
    set (P := IZR (Z.pos (mx * my))) in *.
    set (Mr := IZR (Z.pos m' * 2 ^ (e' - (ex + ey)))) in *.
    set (D := IZR (2 ^ d)) in *.
    split.
    + replace (P * U * (1 - / 4503599627370496))
        with ((P * (1 - / 4503599627370496)) * U) by ring.
      apply Rmult_le_compat_r; lra.
    + replace (P * U * (1 + / 4503599627370496))
        with ((P * (1 + / 4503599627370496)) * U) by ring.
      apply Rmult_le_compat_r; lra.
Qed.

End NormalProducts.

(** A number between two positive normal numbers is positive normal,
    with its exponent between theirs. *)
Lemma normal_between_bounds (clo chi x : float) mlo elo mhi ehi :
  Prim2SF clo = S754_finite false mlo elo ->
  Prim2SF chi = S754_finite false mhi ehi ->
  (-1074 < elo)%Z ->
  (clo <=? x)%float = true -> (x <=? chi)%float = true ->
  normal_between elo ehi x.
Proof.
  intros Elo Ehi Hmin. rewrite !leb_spec, Elo, Ehi.
  pose proof (Prim2SF_valid x) as Hvalid.
  destruct (Prim2SF x) as [s|s| |s m e] eqn:Ex; unfold SFleb, SFcompare.
  - destruct s; intros H1 H2; discriminate H1.
  - destruct s; intros H1 H2; first [discriminate H1 | discriminate H2].
  - intros H1 H2; discriminate H1.
  - destruct s; [intros H1 H2; discriminate H1|].
    intros H1 H2.
    assert (He1 : (elo <= e)%Z).
    { revert H1. destruct (Z.compare_spec elo e); intros H1; [lia | lia | discriminate H1]. }
    assert (He2 : (e <= ehi)%Z).
    { revert H2. destruct (Z.compare_spec e ehi); intros H2; [lia | lia | discriminate H2]. }
    exists m, e. split; [exact Ex|]. split; [|lia].
    simpl in Hvalid. unfold bounded, canonical_mantissa in Hvalid.
    apply andb_prop in Hvalid as [Hcan _]. apply Z.eqb_eq in Hcan.
    unfold fexp, emin, prec, emax in Hcan.
    assert (Hdig : Z.pos (digits2_pos m) = 53%Z) by lia.
    pose proof (digits2_pos_bounds m) as Hb. rewrite Hdig in Hb.
    exact Hb.
Qed.

Lemma normal_between_not_nan lo hi x : normal_between lo hi x -> is_nan x = false.
Proof.
  intros (m & e & E & _). unfold is_nan. rewrite FloatAxioms.eqb_spec, E.
  unfold SFeqb, SFcompare. rewrite Z.compare_refl.
  change (Pos.compare_cont Eq m m) with (Pos.compare m m).
  now rewrite Pos.compare_refl.
Qed.

(** * Wind alignment and spread probability *)

Section WindAlignment.

Variable M : Trig.t.

Lemma spread_loop_spread_probability cell params nb rest newCell rng :
  Cell.burnState nb = BURNING ->
  spread_loop M cell params (Some nb :: rest) newCell rng
  = (if Rng.draws rng (Rng.cursor rng) <? spread_probability M nb cell params * 0.1
     then
       Normal
         (Cell.with_burn newCell BURNING
            (Rng.draws rng (S (Rng.cursor rng)) * 0.5 + 0.5) 0,
          {| Rng.draws := Rng.draws rng; Rng.cursor := S (S (Rng.cursor rng)) |})
     else
       spread_loop M cell params rest newCell
         {| Rng.draws := Rng.draws rng; Rng.cursor := S (Rng.cursor rng) |}).
Proof.
  intros Hnb. simpl. rewrite decide_True by exact Hnb.
  draw.
  unfold spread_probability. cbv zeta. now destruct (_ <? _).
Qed.

(** [calculateSpreadProbability] is the capped product of the
    environment factor, the wind factor and the intensity factor. *)
Lemma calculateSpreadProbability_factors fromCell toCell params windEffect :
  calculateSpreadProbability fromCell toCell params windEffect
  = Js.Math_min 1
      (environment_factor toCell params * (0.8 + 0.4 * windEffect)
       * intensity_factor fromCell).
Proof. reflexivity. Qed.

(** Wind along the direction of travel: the wind effect is 1. *)
Lemma calculateWindEffect_aligned neighbor cell windDirection :
  Trig.cos M 0 = 1 ->
  wind_angle M neighbor cell windDirection = 0 ->
  calculateWindEffect M (Cell.x neighbor) (Cell.y neighbor) (Cell.x cell) (Cell.y cell)
    windDirection = 1.
Proof.
  intros Hcos Hangle. unfold calculateWindEffect. cbv zeta.
  unfold wind_angle in Hangle. cbv zeta in Hangle. rewrite Hangle.
  replace (Js.Math_min 0 (360 - 0) * Js.Math_PI / 180) with 0 by reflexivity.
  now rewrite Hcos.
Qed.

(** Wind against the direction of travel: the wind effect is
    0.3 - 0.7. *)
Lemma calculateWindEffect_reversed neighbor cell windDirection :
  Trig.cos M Js.Math_PI = -1 ->
  wind_angle M neighbor cell windDirection = 180 ->
  calculateWindEffect M (Cell.x neighbor) (Cell.y neighbor) (Cell.x cell) (Cell.y cell)
    windDirection = -0.39999999999999997.
Proof.
  intros Hcos Hangle. unfold calculateWindEffect. cbv zeta.
  unfold wind_angle in Hangle. cbv zeta in Hangle. rewrite Hangle.
  replace (Js.Math_min 180 (360 - 180) * Js.Math_PI / 180) with Js.Math_PI by reflexivity.
  now rewrite Hcos.
Qed.

Lemma Math_min_one_normal lo hi (p : float) :
  normal_between lo hi p -> Js.Math_min 1 p = if 1 <? p then 1 else p.
Proof.
  intros Hp. unfold Js.Math_min.
  replace (is_nan 1) with false by reflexivity.
  rewrite (normal_between_not_nan lo hi p Hp). cbn [orb].
  destruct (1 <? p); [reflexivity|]. now destruct (p <? 1).
Qed.

End WindAlignment.

Section WindFactor.

#[local] Open Scope R_scope.

Lemma powerRZ_2_m52 : powerRZ 2 (-52) = / 4503599627370496.
Proof.
  change (-52)%Z with (- (52))%Z. rewrite powerRZ_neg', (powerRZ_2_Z 52) by lia.
  reflexivity.
Qed.

Lemma powerRZ_2_m53 : powerRZ 2 (-53) = / 9007199254740992.
Proof.
  change (-53)%Z with (- (53))%Z. rewrite powerRZ_neg', (powerRZ_2_Z 53) by lia.
  reflexivity.
Qed.

(** The wind factor 0.8 + 0.4 x 1 of an aligned wind, as a double. *)
Lemma wind_factor_aligned :
  normal_between (-52) (-52) (0.8 + 0.4 * 1)%float
  /\ F2R (0.8 + 0.4 * 1)%float = 5404319552844596 / 4503599627370496.
Proof.
  split.
  - exists 5404319552844596%positive, (-52)%Z. split; [reflexivity|]. split; [|lia].
    split; [now vm_compute | now vm_compute].
  - rewrite (F2R_normal _ 5404319552844596%positive (-52)%Z) by reflexivity.
    rewrite powerRZ_2_m52. reflexivity.
Qed.

(** The wind factor 0.8 + 0.4 x (0.3 - 0.7) of a reversed wind. *)
Lemma wind_factor_reversed :
  normal_between (-53) (-53) (0.8 + 0.4 * -0.39999999999999997)%float
  /\ F2R (0.8 + 0.4 * -0.39999999999999997)%float = 5764607523034235 / 9007199254740992.
Proof.
  split.
  - exists 5764607523034235%positive, (-53)%Z. split; [reflexivity|]. split; [|lia].
    split; [now vm_compute | now vm_compute].
  - rewrite (F2R_normal _ 5764607523034235%positive (-53)%Z) by reflexivity.
    rewrite powerRZ_2_m53. reflexivity.
Qed.

(** Between two products that differ only in the wind factor, the one
    with the aligned factor is the larger double, rounding included. *)
Lemma aligned_product_larger (base intensity : float) :
  normal_between (-452) 348 base -> normal_between (-452) 348 intensity ->
  let aligned := (base * (0.8 + 0.4 * 1) * intensity)%float in
  let reversed := (base * (0.8 + 0.4 * -0.39999999999999997) * intensity)%float in
  normal_between (-852) 752 aligned
  /\ normal_between (-853) 751 reversed
  /\ (reversed <? aligned)%float = true.
Proof.
  intros Hb Hi. cbv zeta.
  destruct wind_factor_aligned as [Hn1 Hv1]. destruct wind_factor_reversed as [Hn2 Hv2].
  destruct (mul_normal _ _ _ _ _ _ Hb Hn1) as [Hb1 [Lb1 _]]; [lia | lia|].
  destruct (mul_normal _ _ _ _ _ _ Hb Hn2) as [Hb2 [_ Ub2]]; [lia | lia|].
  destruct (mul_normal _ _ _ _ _ _ Hb1 Hi) as [Hr1 [Lr1 _]]; [lia | lia|].
  destruct (mul_normal _ _ _ _ _ _ Hb2 Hi) as [Hr2 [_ Ur2]]; [lia | lia|].
  simpl Z.add in *.
  split; [exact Hr1|]. split; [exact Hr2|].
  eapply ltb_normal; [exact Hr2 | exact Hr1 |].
  pose proof (F2R_normal_pos _ _ _ Hb) as Pb.
  pose proof (F2R_normal_pos _ _ _ Hi) as Pi.
  pose proof (F2R_normal_pos _ _ _ Hb1) as Pb1.
  pose proof (F2R_normal_pos _ _ _ Hb2) as Pb2.
  rewrite Hv1 in Lb1. rewrite Hv2 in Ub2.
  set (a := F2R base) in *. set (j := F2R intensity) in *.
  set (b1 := F2R (base * (0.8 + 0.4 * 1))%float) in *.
  set (b2 := F2R (base * (0.8 + 0.4 * -0.39999999999999997))%float) in *.
  set (r1 := F2R (base * (0.8 + 0.4 * 1) * intensity)%float) in *.
  set (r2 := F2R (base * (0.8 + 0.4 * -0.39999999999999997) * intensity)%float) in *.
  assert (Hb12 : b2 * (1 + / 4503599627370496) < b1 * (1 - / 4503599627370496)).
  { assert (b2 <= a * (65 / 100)) by lra.
    assert (a * (119 / 100) <= b1) by lra.
    lra. }
  apply Rle_lt_trans with (1 := Ur2). apply Rlt_le_trans with (2 := Lr1).
  replace (b2 * j * (1 + / 4503599627370496))
    with ((b2 * (1 + / 4503599627370496)) * j) by ring.
  replace (b1 * j * (1 - / 4503599627370496))
    with ((b1 * (1 - / 4503599627370496)) * j) by ring.
  apply Rmult_lt_compat_r; assumption.
Qed.

End WindFactor.

(** C8 (as stated, refuted): with a Water target east of a burning
    forest cell, wind direction 0 points from the neighbour to the
    target and 180 the opposite way, and the spread probability is 0
    under both; the aligned one is not strictly higher. *)
Lemma water_target_ignores_wind :
  wind_angle grid_trig burning_forest pond_east 0 = 0
  /\ wind_angle grid_trig burning_forest pond_east 180 = 180
  /\ spread_probability grid_trig burning_forest pond_east
       (with_windDirection sample_params 0) = 0
  /\ spread_probability grid_trig burning_forest pond_east
       (with_windDirection sample_params 180) = 0
  /\ (spread_probability grid_trig burning_forest pond_east
        (with_windDirection sample_params 180)
      <? spread_probability grid_trig burning_forest pond_east
           (with_windDirection sample_params 0)) = false.
Proof. repeat split. Qed.

(** C8 (amended): when the environment factor (target flammability
    times the temperature, humidity and rain factors) and the source's
    intensity factor are positive numbers between 2^-400 and 2^400, and
    the probability under the reversed wind is below the cap 1, the
    spread probability under a wind pointing from the burning neighbour
    to the target (angle 0 between wind and travel direction) is
    strictly higher than under the reversed wind (angle 180), all other
    inputs equal.  [Math.cos] is taken to return 1 at 0 and -1 at
    [Math.PI]. *)
Theorem aligned_wind_spreads_more
    (M : Trig.t) (fromCell toCell : Cell.t) (params : SimulationParams.t)
    (aligned reversed : float) :
  Trig.cos M 0 = 1 -> Trig.cos M Js.Math_PI = -1 ->
  wind_angle M fromCell toCell aligned = 0 ->
  wind_angle M fromCell toCell reversed = 180 ->
  (0x1p-400 <=? environment_factor toCell params) = true ->
  (environment_factor toCell params <=? 0x1p400) = true ->
  (0x1p-400 <=? intensity_factor fromCell) = true ->
  (intensity_factor fromCell <=? 0x1p400) = true ->
  (spread_probability M fromCell toCell (with_windDirection params reversed) <? 1) = true ->
  (spread_probability M fromCell toCell (with_windDirection params reversed)
   <? spread_probability M fromCell toCell (with_windDirection params aligned)) = true.
Proof.
  intros Hcos0 Hcospi Hal Hre He1 He2 Hi1 Hi2.
  assert (Hbase : normal_between (-452) 348 (environment_factor toCell params)).
  { eapply (normal_between_bounds 0x1p-400 0x1p400); try eassumption;
      [reflexivity | reflexivity | lia]. }
  assert (Hint : normal_between (-452) 348 (intensity_factor fromCell)).
  { eapply (normal_between_bounds 0x1p-400 0x1p400); try eassumption;
      [reflexivity | reflexivity | lia]. }
  destruct (aligned_product_larger _ _ Hbase Hint) as (Hn1 & Hn2 & Hlt).
  unfold spread_probability. cbv zeta. cbn [with_windDirection SimulationParams.windDirection].
  rewrite (calculateWindEffect_aligned M fromCell toCell aligned Hcos0 Hal).
  rewrite (calculateWindEffect_reversed M fromCell toCell reversed Hcospi Hre).
  rewrite !calculateSpreadProbability_factors.
  change (environment_factor toCell (with_windDirection params reversed))
    with (environment_factor toCell params).
  change (environment_factor toCell (with_windDirection params aligned))
    with (environment_factor toCell params).
  rewrite (Math_min_one_normal _ _ _ Hn1), (Math_min_one_normal _ _ _ Hn2).
  destruct (1 <? environment_factor toCell params
                 * (0.8 + 0.4 * -0.39999999999999997) * intensity_factor fromCell) eqn:Hcap2.
  - intros Hcap. discriminate Hcap.
  - intros Hcap.
    destruct (1 <? environment_factor toCell params * (0.8 + 0.4 * 1)
                   * intensity_factor fromCell); [exact Hcap | exact Hlt].
Qed.

Lemma aligned_wind_spreads_more_witness :
  Trig.cos grid_trig 0 = 1 /\ Trig.cos grid_trig Js.Math_PI = -1
  /\ wind_angle grid_trig burning_forest grass_east 0 = 0
  /\ wind_angle grid_trig burning_forest grass_east 180 = 180
  /\ (0x1p-400 <=? environment_factor grass_east sample_params) = true
  /\ (environment_factor grass_east sample_params <=? 0x1p400) = true
  /\ (0x1p-400 <=? intensity_factor burning_forest) = true
  /\ (intensity_factor burning_forest <=? 0x1p400) = true
  /\ (spread_probability grid_trig burning_forest grass_east
        (with_windDirection sample_params 180) <? 1) = true
  /\ (spread_probability grid_trig burning_forest grass_east
        (with_windDirection sample_params 180)
      <? spread_probability grid_trig burning_forest grass_east
           (with_windDirection sample_params 0)) = true.
Proof.
  do 9 (split; [reflexivity|]).
  apply (aligned_wind_spreads_more grid_trig burning_forest grass_east sample_params 0 180);
    reflexivity.
Defined.

(** * The Moore neighbourhood *)

Lemma inside_well_formed (g : GridData.t) (nx ny : Z) :
  well_formed g -> GridData.cells g <> [] ->
  inside (GridData.cells g) (nx, ny) = true
  <-> (0 <= nx < GridData.width g)%Z /\ (0 <= ny < GridData.height g)%Z.
Proof.
  intros Hwf Hne. unfold inside.
  destruct (GridData.cells g) as [|row0 rows] eqn:Hcells; [done|].
  assert (Hw : GridData.width g = Z.of_nat (length row0)).
  { destruct Hwf as [_ Hrows]. rewrite Hcells in Hrows. now inversion Hrows. }
  assert (Hh : GridData.height g = Z.of_nat (length (row0 :: rows))).
  { destruct Hwf as [Hh _]. now rewrite Hcells in Hh. }
  cbn [lookup list_lookup]. rewrite Hw, Hh.
  rewrite !andb_true_iff, !Z.leb_le, !Z.ltb_lt. tauto.
Qed.

Lemma around_adjacent (x y nx ny : Z) :
  (nx, ny) ∈ around x y <-> adjacent x y nx ny.
Proof.
  unfold around, adjacent. rewrite !elem_of_cons, elem_of_nil. split.
  - intros H. decompose [or] H; clear H; simplify_eq;
      (split; [lia|]; split; [lia|]; intros [=]; lia).
  - intros (Hx & Hy & Hne).
    assert (Ex : nx = (x - 1)%Z \/ nx = x \/ nx = (x + 1)%Z) by lia.
    assert (Ey : ny = (y - 1)%Z \/ ny = y \/ ny = (y + 1)%Z) by lia.
    destruct Ex as [ -> | [ -> | -> ] ], Ey as [ -> | [ -> | -> ] ]; tauto.
Qed.

Lemma around_NoDup (x y : Z) : NoDup (around x y).
Proof.
  unfold around. rewrite !NoDup_cons, !elem_of_cons, !elem_of_nil.
  split_and!; try apply NoDup_nil_2;
    intros H; repeat destruct H as [H|H]; try done; injection H; lia.
Qed.

Lemma getNeighbors_around (g : GridData.t) (x y : Z) :
  GridData.cells g <> [] ->
  getNeighbors (GridData.cells g) x y
  = Normal (cells_inside (GridData.cells g) (around x y)).
Proof.
  intros Hne.
  destruct (GridData.cells g) as [|row0 rows] eqn:Hcells; [done|].
  unfold getNeighbors. rewrite (neighbors_loop_inside _ row0) by reflexivity.
  unfold directions, around. cbn [map fst snd app]. now rewrite !Z.add_0_r.
Qed.

(** Each cell [getNeighbors] returns is stored in the grid at a position
    adjacent to ([x], [y]). *)
Lemma cells_inside_around (g : GridData.t) (x y : Z) (nb : Cell.t) :
  well_formed g -> GridData.cells g <> [] ->
  Some nb ∈ cells_inside (GridData.cells g) (around x y) ->
  exists nx ny,
    adjacent x y nx ny /\ (0 <= nx < GridData.width g)%Z
    /\ (0 <= ny < GridData.height g)%Z
    /\ grid_cell g (Z.to_nat nx) (Z.to_nat ny) = Some nb.
Proof.
  intros Hwf Hne Hin. unfold cells_inside in Hin.
  apply list_elem_of_fmap in Hin as ([nx ny] & Hnb & Hpos).
  apply list_elem_of_filter in Hpos as [Hins Hpos].
  apply around_adjacent in Hpos.
  apply (inside_well_formed g nx ny Hwf Hne) in Hins as [Hx Hy].
  exists nx, ny. split_and!; try assumption; try lia. now symmetry.
Qed.

(** X1: on a well-formed grid with at least one row, [getNeighbors]
    never throws and reads each in-grid position adjacent to ([x], [y])
    exactly once, and no other position: no wrap-around at the edges,
    never the cell itself, at most 8 cells, and exactly 8 away from the
    border. *)
Theorem getNeighbors_moore (g : GridData.t) (x y : Z) :
  well_formed g -> GridData.cells g <> [] ->
  exists positions : list (Z * Z),
    getNeighbors (GridData.cells g) x y
    = Normal (map (fun p => grid_cell g (Z.to_nat (fst p)) (Z.to_nat (snd p))) positions)
    /\ NoDup positions
    /\ (forall nx ny,
          (nx, ny) ∈ positions
          <-> (0 <= nx < GridData.width g)%Z /\ (0 <= ny < GridData.height g)%Z
              /\ adjacent x y nx ny)
    /\ Forall (fun p => is_Some (grid_cell g (Z.to_nat (fst p)) (Z.to_nat (snd p))))
         positions
    /\ (length positions <= 8)%nat
    /\ ((1 <= x)%Z -> (x + 1 < GridData.width g)%Z ->
        (1 <= y)%Z -> (y + 1 < GridData.height g)%Z ->
        length positions = 8%nat).
Proof.
  intros Hwf Hne.
  set (positions := filter (fun pos => inside (GridData.cells g) pos = true) (around x y)).
  pose proof (getNeighbors_around g x y Hne) as Hrun.
  exists positions. split_and!.
  - rewrite Hrun. reflexivity.
  - apply NoDup_filter, around_NoDup.
  - intros nx ny. subst positions. rewrite list_elem_of_filter, around_adjacent.
    rewrite (inside_well_formed g nx ny Hwf Hne). tauto.
  - pose proof (cells_inside_defined (GridData.cells g) (around x y)) as Hdef.
    unfold cells_inside in Hdef. rewrite Forall_map in Hdef. apply Hdef.
    intros row0 row Hrow0 Hin.
    rewrite (well_formed_rows g row Hwf Hin).
    symmetry. apply well_formed_rows; [exact Hwf|].
    eapply list_elem_of_lookup_2; exact Hrow0.
  - subst positions. etransitivity; [apply length_filter|]. reflexivity.
  - intros Hx1 Hx2 Hy1 Hy2. subst positions. unfold around.
    repeat (rewrite filter_cons, decide_True
              by (apply (inside_well_formed g _ _ Hwf Hne); lia)).
    reflexivity.
Qed.

(** * A tick of the whole grid, cell by cell *)

Section Spread.

Variable M : Trig.t.
Variable params : SimulationParams.t.

(** With no Burning neighbour the scan returns the cell as it was and
    draws nothing. *)
Lemma spread_loop_quiet cell neighbors newCell rng :
  Forall (fun n => exists nb, n = Some nb /\ Cell.burnState nb <> BURNING) neighbors ->
  spread_loop M cell params neighbors newCell rng = Normal (newCell, rng).
Proof.
  induction 1 as [|n rest (nb & -> & Hnb) _ IH]; simpl; [reflexivity|].
  now rewrite decide_False by exact Hnb.
Qed.

(** A scan that sets the cell alight names its source: a Burning
    neighbour, a draw below a tenth of that neighbour's spread
    probability, and the next draw as the new intensity. *)
Lemma spread_loop_source cell neighbors newCell rng c' rng' :
  spread_loop M cell params neighbors newCell rng = Normal (c', rng') ->
  c' = newCell
  \/ exists nb n,
       Some nb ∈ neighbors /\ Cell.burnState nb = BURNING
       /\ (Rng.cursor rng <= n)%nat
       /\ (Rng.draws rng n <? spread_probability M nb cell params * 0.1) = true
       /\ c' = Cell.with_burn newCell BURNING (Rng.draws rng (S n) * 0.5 + 0.5) 0.
Proof.
  revert rng. induction neighbors as [|[nb|] rest IH]; intros rng.
  - simpl. intros [= <- _]. now left.
  - destruct (decide (Cell.burnState nb = BURNING)) as [Hnb|Hnb].
    + rewrite (spread_loop_spread_probability M cell params nb rest newCell rng Hnb).
      destruct (_ <? _) eqn:Hdraw.
      * intros [= <- _]. right. exists nb, (Rng.cursor rng).
        split_and!; try done. apply list_elem_of_here.
      * intros Hrun. apply IH in Hrun as [->|(nb' & n & Hin & Hb & Hn & Hd & ->)];
          [now left|]. right. exists nb', n. simpl in Hn, Hd |- *.
        split_and!; try done; [now apply list_elem_of_further | lia].
    + simpl. rewrite decide_False by exact Hnb. intros Hrun.
      apply IH in Hrun as [->|(nb' & n & Hin & Hb & Hn & Hd & ->)]; [now left|].
      right. exists nb', n. split_and!; try done. now apply list_elem_of_further.
  - discriminate.
Qed.

End Spread.

Lemma for_loop_fixed {S : Type} (body : nat -> S -> Sim S) (s : S) (rng : Rng.t)
    (count : nat) :
  forall start,
    (forall i, (start <= i < start + count)%nat -> body i s rng = Normal (s, rng)) ->
    for_loop start count body s rng = Normal (s, rng).
Proof.
  induction count as [|k IH]; intros start Hbody; simpl; [reflexivity|].
  unfold bind. rewrite Hbody by lia. apply IH. intros i Hi. apply Hbody. lia.
Qed.

Lemma tick_without_fire
    (M : Trig.t) (params : SimulationParams.t) (g : GridData.t) (rng : Rng.t) :
  well_formed g ->
  (forall x y c, grid_cell g x y = Some c -> Cell.burnState c <> BURNING) ->
  stepSimulation M g params rng = Normal (g, rng).
Proof.
  intros Hwf Hquiet. unfold stepSimulation, bind.
  rewrite for_loop_fixed; [unfold ret; now rewrite with_cells_id|].
  intros y Hy. rewrite (well_formed_height g Hwf) in Hy.
  destruct (lookup_lt_is_Some_2 (GridData.cells g) y) as [row Hrow]; [lia|].
  assert (Hne : GridData.cells g <> []).
  { intros E. rewrite E in Hrow. discriminate. }
  assert (Hlen : length row = Z.to_nat (GridData.width g)).
  { apply well_formed_rows; [exact Hwf|]. eapply list_elem_of_lookup_2; exact Hrow. }
  apply for_loop_fixed. intros x Hx.
  destruct (lookup_lt_is_Some_2 row x) as [cell Hcell]; [lia|].
  unfold step_cell. rewrite Hrow, getNeighbors_around by exact Hne.
  unfold bind at 1. unfold lift at 1. rewrite Hcell.
  assert (Hupd : updateCellBurnState M cell
                   (cells_inside (GridData.cells g) (around (Z.of_nat x) (Z.of_nat y)))
                   params rng = Normal (cell, rng)).
  { unfold updateCellBurnState.
    destruct (Cell.burnState cell) eqn:Hst.
    - apply spread_loop_quiet. apply Forall_forall. intros [nb|] Hin.
      + exists nb. split; [reflexivity|].
        apply (cells_inside_around g _ _ nb Hwf Hne) in Hin
          as (nx & ny & _ & _ & _ & Hnb).
        eapply Hquiet; exact Hnb.
      + exfalso.
        pose proof (cells_inside_defined (GridData.cells g)
                      (around (Z.of_nat x) (Z.of_nat y))) as Hdef.
        rewrite Forall_forall in Hdef.
        destruct (Hdef (fun row0 r Hrow0 Hr =>
                    eq_trans (well_formed_rows g r Hwf Hr)
                      (eq_sym (well_formed_rows g row0 Hwf
                                 (list_elem_of_lookup_2 _ _ _ Hrow0)))) None Hin)
          as [? [=]].
    - exfalso. apply (Hquiet x y cell); [|exact Hst].
      unfold grid_cell. now rewrite Hrow.
    - reflexivity. }
  unfold bind. rewrite Hupd. unfold lift, assign_cell. rewrite Hrow.
  now rewrite (list_insert_id row x cell Hcell), (list_insert_id _ y row Hrow).
Qed.

(** X2: a tick of a well-formed grid in which no cell is Burning
    returns the grid as it was and draws no random number, whatever the
    terrain and the parameters; so does any number of ticks in a row. *)
Theorem stepSimulation_without_fire
    (M : Trig.t) (g : GridData.t) (rng : Rng.t) :
  well_formed g ->
  (forall x y c, grid_cell g x y = Some c -> Cell.burnState c <> BURNING) ->
  (forall params, stepSimulation M g params rng = Normal (g, rng))
  /\ forall paramss, run M (map Tick paramss) g rng = Normal (g, rng).
Proof.
  intros Hwf Hquiet. split; [intros params; now apply tick_without_fire|].
  induction paramss as [|params rest IH]; [reflexivity|].
  cbn [map run apply_operation]. unfold bind.
  rewrite tick_without_fire by assumption. exact IH.
Qed.

Lemma tick_spread_source
    (M : Trig.t) (params : SimulationParams.t) (g : GridData.t) (rng : Rng.t) :
  well_formed g ->
  exists g' rng',
    stepSimulation M g params rng = Normal (g', rng')
    /\ forall x y c,
         grid_cell g x y = Some c -> Cell.burnState c = UNBURNED ->
         grid_cell g' x y = Some c
         \/ exists nx ny nb n,
              adjacent (Z.of_nat x) (Z.of_nat y) nx ny
              /\ (0 <= nx < GridData.width g)%Z /\ (0 <= ny < GridData.height g)%Z
              /\ grid_cell g (Z.to_nat nx) (Z.to_nat ny) = Some nb
              /\ Cell.burnState nb = BURNING
              /\ (Rng.cursor rng <= n)%nat
              /\ (Rng.draws rng n <? spread_probability M nb c params * 0.1) = true
              /\ grid_cell g' x y
                 = Some (Cell.with_burn c BURNING (Rng.draws rng (S n) * 0.5 + 0.5) 0).
Proof.
  intros Hwf.
  destruct (stepSimulation_cells M params g Hwf rng)
    as (g' & rng' & Hrun & _ & _ & _ & Hcells).
  exists g', rng'. split; [exact Hrun|]. intros x y c Hc Hst.
  destruct (grid_cell_in_range g x y c Hwf Hc) as [Hx Hy].
  destruct (Hcells x y Hx Hy)
    as (c' & Hc' & c0 & neighbors & rng1 & rng2 & Hc0 & Hnbs & Hdraws & Hcur & Hupd).
  rewrite Hc in Hc0. injection Hc0 as <-.
  assert (Hne : GridData.cells g <> []).
  { intros E. unfold grid_cell in Hc. rewrite E in Hc. discriminate. }
  rewrite getNeighbors_around in Hnbs by exact Hne. injection Hnbs as <-.
  unfold updateCellBurnState in Hupd. rewrite Hst in Hupd.
  apply spread_loop_source in Hupd as [->|(nb & n & Hin & Hb & Hn & Hd & ->)];
    [now left|]. right.
  apply (cells_inside_around g _ _ nb Hwf Hne) in Hin
    as (nx & ny & Hadj & Hnx & Hny & Hnb).
  exists nx, ny, nb, n. rewrite Hdraws in Hd, Hc'.
  split_and!; try done; lia.
Qed.


(** * Sequences of ticks and ignitions, cell by cell *)

Lemma same_land_refl c : same_land c c.
Proof.
  exists (Cell.burnState c), (Cell.burnIntensity c), (Cell.burnDuration c).
  now destruct c.
Qed.

Lemma same_land_trans c1 c2 c3 : same_land c1 c2 -> same_land c2 c3 -> same_land c1 c3.
Proof. intros (st & i & d & ->) (st' & i' & d' & ->). now exists st', i', d'. Qed.

Lemma grid_cell_is_Some (g : GridData.t) x y :
  well_formed g ->
  (x < Z.to_nat (GridData.width g))%nat -> (y < Z.to_nat (GridData.height g))%nat ->
  is_Some (grid_cell g x y).
Proof.
  intros Hwf Hx Hy. rewrite (well_formed_height g Hwf) in Hy.
  destruct (lookup_lt_is_Some_2 (GridData.cells g) y Hy) as [row Hrow].
  unfold grid_cell. rewrite Hrow. apply lookup_lt_is_Some_2.
  rewrite (well_formed_rows g row Hwf); [exact Hx|].
  eapply list_elem_of_lookup_2; exact Hrow.
Qed.

(** What one operation does to each cell: only the burn fields can
    change; a cell that is not Unburned takes one [burn_step] on a tick
    and is left alone by an ignition. *)
Lemma apply_operation_cells M op g rng :
  well_formed g ->
  exists g' rng',
    apply_operation M op g rng = Normal (g', rng')
    /\ well_formed g'
    /\ g' = GridData.with_cells g (GridData.cells g')
    /\ forall x y c, grid_cell g x y = Some c ->
         exists c',
           grid_cell g' x y = Some c' /\ same_land c c'
           /\ (Cell.burnState c <> UNBURNED ->
               c' = match op with Tick _ => burn_step c | Ignite _ _ => c end).
Proof.
  intros Hwf. destruct op as [params|x y]; simpl.
  - destruct (stepSimulation_cells M params g Hwf rng)
      as (g' & rng' & Hrun & _ & Hframe & Hwf' & Hcells).
    exists g', rng'. split_and!; try assumption.
    intros x y c Hc.
    destruct (grid_cell_in_range g x y c Hwf Hc) as [Hx Hy].
    destruct (Hcells x y Hx Hy)
      as (c' & Hc' & c0 & nbrs & r1 & r2 & Hc0 & _ & _ & _ & Hup).
    assert (c0 = c) as -> by congruence.
    exists c'. split; [exact Hc'|]. split.
    + apply (updateCellBurnState_result M params) in Hup
        as (_ & (st & i & d & -> & _) & _).
      now exists st, i, d.
    + intros Hst. rewrite (updateCellBurnState_burn_step M) in Hup by exact Hst.
      now injection Hup as <- _.
  - assert (Hsame : forall x' y' c, grid_cell g x' y' = Some c ->
                      exists c', grid_cell g x' y' = Some c' /\ same_land c c'
                                 /\ (Cell.burnState c <> UNBURNED -> c' = c)).
    { intros x' y' c Hc. exists c. split; [exact Hc|].
      split; [apply same_land_refl | reflexivity]. }
    unfold lift.
    destruct (igniteCell_cases g x y Hwf)
      as [(_ & _ & row & cell & Hrow & Hcell & Hrun)|[_ Hrun]]; rewrite Hrun.
    2: { exists g, rng. split_and!; try done. now rewrite with_cells_id. }
    destruct (bool_decide (Cell.burnState cell = UNBURNED)
              && (0 <? getFlammability (Cell.terrain cell))) eqn:Hcond.
    2: { exists g, rng. split_and!; try done. now rewrite with_cells_id. }
    apply andb_prop in Hcond as [Hst _]. apply bool_decide_eq_true_1 in Hst.
    eexists _, rng. split; [reflexivity|].
    split; [now apply well_formed_assign|]. split; [reflexivity|].
    intros x' y' c Hc.
    rewrite (grid_cell_assign g _ _ row)
      by (try assumption; eapply lookup_lt_Some; exact Hcell).
    destruct (decide ((x', y') = (Z.to_nat x, Z.to_nat y))) as [[= -> ->]|_].
    + assert (c = cell) as ->.
      { unfold grid_cell in Hc. rewrite Hrow in Hc. congruence. }
      eexists. split; [reflexivity|]. split; [now exists BURNING, 1.0, 0|].
      intros Hne. now destruct Hne.
    + exists c. split; [exact Hc|]. split; [apply same_land_refl | reflexivity].
Qed.

Lemma run_cells M ops :
  forall g rng,
    well_formed g ->
    exists g' rng',
      run M ops g rng = Normal (g', rng')
      /\ well_formed g'
      /\ g' = GridData.with_cells g (GridData.cells g')
      /\ forall x y c, grid_cell g x y = Some c ->
           exists c',
             grid_cell g' x y = Some c' /\ same_land c c'
             /\ (Cell.burnState c <> UNBURNED -> c' = burn_for (ticks ops) c).
Proof.
  induction ops as [|op rest IH]; intros g rng Hwf.
  - exists g, rng. split; [reflexivity|]. split; [exact Hwf|].
    split; [now rewrite with_cells_id|].
    intros x y c Hc. exists c. split; [exact Hc|].
    split; [apply same_land_refl | reflexivity].
  - destruct (apply_operation_cells M op g rng Hwf)
      as (g1 & rng1 & Hrun1 & Hwf1 & Hframe1 & Hcells1).
    destruct (IH g1 rng1 Hwf1) as (g' & rng' & Hrun & Hwf' & Hframe & Hcells).
    exists g', rng'. simpl. unfold bind. rewrite Hrun1.
    split; [exact Hrun|]. split; [exact Hwf'|]. split.
    { rewrite Hframe at 1. rewrite Hframe1. reflexivity. }
    intros x y c Hc.
    destruct (Hcells1 x y c Hc) as (c1 & Hc1 & Hland1 & Hstep1).
    destruct (Hcells x y c1 Hc1) as (c' & Hc' & Hland & Hstep).
    exists c'. split; [exact Hc'|].
    split; [eapply same_land_trans; eassumption|].
    intros Hst. specialize (Hstep1 Hst). subst c1.
    destruct op as [params|ix iy]; simpl.
    + apply Hstep. now apply burn_step_not_unburned.
    + now apply Hstep.
Qed.

(** X3: what a tick does to each cell of a well-formed grid.  A cell
    that was Unburned is either exactly as it was, or alight with
    duration 0 and an intensity of half a draw plus 0.5; in the second
    case a cell adjacent to it was Burning before the tick, and the draw
    tested for that neighbour was below a tenth of its spread
    probability.  A cell that was Burning or Burned takes one burn step,
    whatever its neighbours and the draws. *)
Theorem stepSimulation_cell_by_cell
    (M : Trig.t) (params : SimulationParams.t) (g : GridData.t) (rng : Rng.t) :
  well_formed g ->
  exists g' rng',
    stepSimulation M g params rng = Normal (g', rng')
    /\ (forall x y c,
          grid_cell g x y = Some c -> Cell.burnState c = UNBURNED ->
          grid_cell g' x y = Some c
          \/ exists nx ny nb n,
               adjacent (Z.of_nat x) (Z.of_nat y) nx ny
               /\ (0 <= nx < GridData.width g)%Z /\ (0 <= ny < GridData.height g)%Z
               /\ grid_cell g (Z.to_nat nx) (Z.to_nat ny) = Some nb
               /\ Cell.burnState nb = BURNING
               /\ (Rng.cursor rng <= n)%nat
               /\ (Rng.draws rng n <? spread_probability M nb c params * 0.1) = true
               /\ grid_cell g' x y
                  = Some (Cell.with_burn c BURNING (Rng.draws rng (S n) * 0.5 + 0.5) 0))
    /\ (forall x y c,
          grid_cell g x y = Some c -> Cell.burnState c <> UNBURNED ->
          grid_cell g' x y = Some (burn_step c)).
Proof.
  intros Hwf.
  destruct (tick_spread_source M params g rng Hwf) as (g' & rng' & Hrun & Hspread).
  exists g', rng'. split; [exact Hrun|]. split; [exact Hspread|].
  intros x y c Hc Hst.
  destruct (apply_operation_cells M (Tick params) g rng Hwf)
    as (g1 & rng1 & Hrun1 & _ & _ & Hcells).
  cbn [apply_operation] in Hrun1. rewrite Hrun in Hrun1. injection Hrun1 as <- <-.
  destruct (Hcells x y c Hc) as (c' & Hc' & _ & Hstep).
  now rewrite Hc', (Hstep Hst).
Qed.

(** X4: any sequence of ticks and ignitions on a well-formed
    grid leaves the grid's width, height, bounds and cell size as they
    were, keeps the grid well-formed, and changes nothing in a cell but
    its burn state, intensity and duration. *)
Theorem run_frame
    (M : Trig.t) (ops : list Operation) (g : GridData.t) (rng : Rng.t) :
  well_formed g ->
  exists g' rng',
    run M ops g rng = Normal (g', rng')
    /\ well_formed g'
    /\ GridData.width g' = GridData.width g
    /\ GridData.height g' = GridData.height g
    /\ GridData.bounds g' = GridData.bounds g
    /\ GridData.cellSize g' = GridData.cellSize g
    /\ (forall x y, grid_cell g x y = None -> grid_cell g' x y = None)
    /\ forall x y c,
         grid_cell g x y = Some c ->
         exists st i d, grid_cell g' x y = Some (Cell.with_burn c st i d).
Proof.
  intros Hwf.
  destruct (run_cells M ops g rng Hwf) as (g' & rng' & Hrun & Hwf' & Hframe & Hcells).
  exists g', rng'. split; [exact Hrun|]. split; [exact Hwf'|].
  assert (Hw : GridData.width g' = GridData.width g) by now rewrite Hframe.
  assert (Hh : GridData.height g' = GridData.height g) by now rewrite Hframe.
  split_and!; try assumption; try (rewrite Hframe; reflexivity).
  - intros x y Hnone.
    destruct (grid_cell g' x y) as [c'|] eqn:Hc'; [exfalso|reflexivity].
    destruct (grid_cell_in_range g' x y c' Hwf' Hc') as [Hx Hy].
    rewrite Hw in Hx. rewrite Hh in Hy.
    destruct (grid_cell_is_Some g x y Hwf Hx Hy) as [c Hc]. congruence.
  - intros x y c Hc.
    destruct (Hcells x y c Hc) as (c' & Hc' & (st & i & d & ->) & _).
    now exists st, i, d.
Qed.

(** * How long a fire lasts *)

Lemma burn_step_burning cell :
  Cell.burnState cell = BURNING ->
  Cell.terrain (burn_step cell) = Cell.terrain cell
  /\ Cell.burnDuration (burn_step cell) = Cell.burnDuration cell + 1
  /\ (Cell.burnState (burn_step cell) = BURNED
      /\ Cell.burnIntensity (burn_step cell) = 0
      \/ Cell.burnState (burn_step cell) = BURNING
         /\ (getFlammability (Cell.terrain cell) * 20 + 10
             <=? Cell.burnDuration cell + 1) = false).
Proof.
  intros Hst. unfold burn_step. rewrite Hst.
  destruct (_ <=? Cell.burnDuration cell + 1) eqn:Hd; simpl; [tauto|].
  destruct (_ <=? 0.1); simpl; tauto.
Qed.

(** Whatever its intensity, a Burning cell is Burned by the tick at
    which its duration reaches the burn-out duration of its terrain. *)
Lemma burn_for_burns_out n :
  forall cell,
    Cell.burnState cell = BURNING ->
    (getFlammability (Cell.terrain cell) * 20 + 10
     <=? Nat.iter (S n) (fun d => d + 1) (Cell.burnDuration cell)) = true ->
    Cell.burnState (burn_for (S n) cell) = BURNED
    /\ Cell.burnIntensity (burn_for (S n) cell) = 0.
Proof.
  induction n as [|n IH]; intros cell Hst Hd;
    destruct (burn_step_burning cell Hst) as (Ht & Hdur & [[Hb Hi]|[Hb Hlt]]).
  - simpl. tauto.
  - simpl in Hd. congruence.
  - change (burn_for (S (S n)) cell) with (burn_for (S n) (burn_step cell)).
    rewrite burn_for_burned by exact Hb. tauto.
  - change (burn_for (S (S n)) cell) with (burn_for (S n) (burn_step cell)).
    apply IH; [exact Hb|]. rewrite Ht, Hdur.
    rewrite Nat.iter_succ_r in Hd. exact Hd.
Qed.

Lemma burn_for_burnout_ticks cell k :
  Cell.burnState cell = BURNING -> Cell.burnDuration cell = 0 ->
  (burnout_ticks (Cell.terrain cell) <= k)%nat ->
  Cell.burnState (burn_for k cell) = BURNED /\ Cell.burnIntensity (burn_for k cell) = 0.
Proof.
  intros Hst Hd Hk.
  replace k with (burnout_ticks (Cell.terrain cell)
                  + (k - burnout_ticks (Cell.terrain cell)))%nat by lia.
  rewrite burn_for_add.
  assert (Hout : Cell.burnState (burn_for (burnout_ticks (Cell.terrain cell)) cell) = BURNED
                 /\ Cell.burnIntensity (burn_for (burnout_ticks (Cell.terrain cell)) cell) = 0).
  { destruct (Cell.terrain cell) eqn:Ht; unfold burnout_ticks;
      apply burn_for_burns_out; try exact Hst; rewrite Ht, Hd; reflexivity. }
  rewrite burn_for_burned by apply Hout. exact Hout.
Qed.

Lemma burn_for_not_unburned n :
  forall cell,
    Cell.burnState cell <> UNBURNED -> Cell.burnState (burn_for n cell) <> UNBURNED.
Proof.
  induction n as [|n IH]; intros cell Hst; [exact Hst|].
  apply IH. now apply burn_step_not_unburned.
Qed.

(** A cell alight at intensity 1.0 and duration 0, as [igniteCell]
    leaves it, is Burning after each of the first 17 burn steps and
    Burned after the 18th, unless its terrain's burn-out duration is
    shorter: 14 steps for urban land, 10 for water. *)
Lemma ignited_burn_for (cell : Cell.t) k :
  Cell.burnState cell = BURNING ->
  Cell.burnIntensity cell = 1.0 -> Cell.burnDuration cell = 0 ->
  Cell.burnState (burn_for k cell) = BURNED
  <-> (Nat.min 18 (burnout_ticks (Cell.terrain cell)) <= k)%nat.
Proof.
  destruct cell as [t st x y wx wy h tp i d].
  cbn [Cell.burnState Cell.burnIntensity Cell.burnDuration Cell.terrain].
  intros -> -> ->.
  remember (Nat.min 18 (burnout_ticks t)) as n eqn:Hn.
  destruct (le_lt_dec n k) as [Hk|Hk].
  - split; [intros _; exact Hk|]. intros _.
    replace k with (n + (k - n))%nat by lia.
    rewrite burn_for_add. rewrite burn_for_burned; subst n; now destruct t.
  - split; [|intros Hle; exfalso; lia]. intros Hb. exfalso. subst n.
    destruct t; simpl in Hk;
      do 18 (try (destruct k as [|k]; [vm_compute in Hb; discriminate|])); lia.
Qed.

(** X5: in any sequence of operations on a well-formed grid, a
    cell that is Burning with duration 0 is Burned, with intensity 0,
    once the sequence holds as many ticks as its terrain's burn-out
    duration (forest 26, grass 22, farmland 18, urban 14, water 10),
    whatever its intensity was and whatever the draws and parameters
    are. *)
Theorem fire_burns_out
    (M : Trig.t) (ops : list Operation) (g : GridData.t) (rng : Rng.t)
    (x y : nat) (c : Cell.t) :
  well_formed g -> grid_cell g x y = Some c ->
  Cell.burnState c = BURNING -> Cell.burnDuration c = 0 ->
  (burnout_ticks (Cell.terrain c) <= ticks ops)%nat ->
  exists g' rng' c',
    run M ops g rng = Normal (g', rng')
    /\ grid_cell g' x y = Some c'
    /\ Cell.burnState c' = BURNED /\ Cell.burnIntensity c' = 0.
Proof.
  intros Hwf Hc Hst Hd Hk.
  destruct (run_cells M ops g rng Hwf) as (g' & rng' & Hrun & _ & _ & Hcells).
  destruct (Hcells x y c Hc) as (c' & Hc' & _ & Hstep).
  exists g', rng', c'. split; [exact Hrun|]. split; [exact Hc'|].
  rewrite Hstep by (rewrite Hst; discriminate).
  now apply burn_for_burnout_ticks.
Qed.

(** X6: an Unburned cell of flammable terrain that [igniteCell]
    sets alight is still Burning after fewer than 18 further ticks
    (14 for urban land) and Burned after that many or more, whatever
    the draws, the parameters and the ignitions in between. *)
Theorem ignited_cell_burn_time
    (M : Trig.t) (ops : list Operation) (g : GridData.t) (rng : Rng.t)
    (x y : nat) (c : Cell.t) :
  well_formed g -> grid_cell g x y = Some c ->
  Cell.burnState c = UNBURNED -> Cell.terrain c <> WATER ->
  exists g' rng' c',
    run M (Ignite (Z.of_nat x) (Z.of_nat y) :: ops) g rng = Normal (g', rng')
    /\ grid_cell g' x y = Some c'
    /\ Cell.burnState c'
       = (if (Nat.min 18 (burnout_ticks (Cell.terrain c)) <=? ticks ops)%nat
          then BURNED else BURNING).
Proof.
  intros Hwf Hc Hst Hland.
  destruct (grid_cell_in_range g x y c Hwf Hc) as [Hx Hy].
  destruct (igniteCell_cases g (Z.of_nat x) (Z.of_nat y) Hwf)
    as [(_ & _ & row & cell & Hrow & Hcell & Hign)|[Hout _]]; [|lia].
  rewrite !Nat2Z.id in *.
  assert (cell = c) as ->.
  { unfold grid_cell in Hc. rewrite Hrow in Hc. congruence. }
  rewrite bool_decide_eq_true_2, (proj2 (flammability_positive _)) in Hign
    by assumption.
  simpl in Hign.
  set (g1 := GridData.with_cells g
               (<[y := <[x := Cell.with_burn c BURNING 1.0 0]> row]> (GridData.cells g)))
    in Hign.
  assert (Hwf1 : well_formed g1) by now apply well_formed_assign.
  assert (Hc1 : grid_cell g1 x y = Some (Cell.with_burn c BURNING 1.0 0)).
  { unfold g1. rewrite (grid_cell_assign g x y row)
      by (try assumption; eapply lookup_lt_Some; exact Hcell).
    now rewrite decide_True. }
  destruct (run_cells M ops g1 rng Hwf1) as (g' & rng' & Hrun & _ & _ & Hcells).
  destruct (Hcells x y _ Hc1) as (c' & Hc' & _ & Hstep).
  exists g', rng', c'. split.
  { simpl. unfold bind, lift. rewrite Hign. exact Hrun. }
  split; [exact Hc'|]. rewrite Hstep by discriminate.
  pose proof (ignited_burn_for (Cell.with_burn c BURNING 1.0 0) (ticks ops)
                eq_refl eq_refl eq_refl) as Hiff.
  simpl Cell.terrain in Hiff.
  destruct (Nat.leb_spec (Nat.min 18 (burnout_ticks (Cell.terrain c))) (ticks ops))
    as [Hle|Hlt].
  - now apply Hiff.
  - assert (Hnb : Cell.burnState (burn_for (ticks ops) (Cell.with_burn c BURNING 1.0 0))
                  <> BURNED) by (intros Hb; apply Hiff in Hb; lia).
    assert (Hnu : Cell.burnState (burn_for (ticks ops) (Cell.with_burn c BURNING 1.0 0))
                  <> UNBURNED) by (apply burn_for_not_unburned; discriminate).
    now destruct (Cell.burnState (burn_for _ _)).
Qed.

(** * Resetting the grid *)

Lemma grid_cell_resetGrid (g : GridData.t) x y :
  grid_cell (resetGrid g) x y
  = (fun cell => Cell.with_burn cell UNBURNED 0 0) <$> grid_cell g x y.
Proof.
  unfold grid_cell, resetGrid. simpl.
  change (map ?f (GridData.cells g)) with (f <$> GridData.cells g).
  rewrite list_lookup_fmap.
  destruct (GridData.cells g !! y) as [row|]; simpl; [|reflexivity].
  change (map ?f row) with (f <$> row). now rewrite list_lookup_fmap.
Qed.

Lemma well_formed_resetGrid (g : GridData.t) : well_formed g -> well_formed (resetGrid g).
Proof.
  intros [Hh Hrows]. split; simpl.
  - now rewrite length_map.
  - apply Forall_map. eapply Forall_impl; [exact Hrows|].
    intros row Hrow. simpl. now rewrite length_map.
Qed.

(** X7: resetting the grid after any sequence of ticks and
    ignitions gives the grid that resetting the starting grid gives;
    resetting twice is resetting once; and a tick of a reset grid
    returns it unchanged without drawing a random number. *)
Theorem resetGrid_run
    (M : Trig.t) (ops : list Operation) (g : GridData.t) (rng : Rng.t) :
  well_formed g ->
  (exists g' rng',
      run M ops g rng = Normal (g', rng') /\ resetGrid g' = resetGrid g)
  /\ resetGrid (resetGrid g) = resetGrid g
  /\ forall params rng1,
       stepSimulation M (resetGrid g) params rng1 = Normal (resetGrid g, rng1).
Proof.
  intros Hwf. split_and!.
  - destruct (run_cells M ops g rng Hwf) as (g' & rng' & Hrun & Hwf' & Hframe & Hcells).
    exists g', rng'. split; [exact Hrun|].
    apply grid_ext;
      [now apply well_formed_resetGrid | now apply well_formed_resetGrid | |].
    { unfold resetGrid. rewrite Hframe at 1. reflexivity. }
    intros x y. rewrite !grid_cell_resetGrid.
    destruct (grid_cell g x y) as [c|] eqn:Hc.
    + destruct (Hcells x y c Hc) as (c' & -> & (st & i & d & ->) & _). reflexivity.
    + destruct (grid_cell g' x y) as [c'|] eqn:Hc'; [exfalso|reflexivity].
      destruct (grid_cell_in_range g' x y c' Hwf' Hc') as [Hx Hy].
      rewrite Hframe in Hx, Hy. simpl in Hx, Hy.
      destruct (grid_cell_is_Some g x y Hwf Hx Hy) as [c Hc0]. congruence.
  - apply grid_ext;
      [now apply well_formed_resetGrid
      | now apply well_formed_resetGrid, well_formed_resetGrid | reflexivity |].
    intros x y. rewrite !grid_cell_resetGrid.
    now destruct (grid_cell g x y).
  - intros params rng1. apply tick_without_fire; [now apply well_formed_resetGrid|].
    intros x y c. rewrite grid_cell_resetGrid.
    destruct (grid_cell g x y); simpl; [|discriminate].
    now intros [= <-].
Qed.

(** * Ignition *)

(** X8: a second [igniteCell] at the same position changes
    nothing: the cell is then Burning, or was not ignitable in the
    first place. *)
Theorem igniteCell_idempotent (g g' : GridData.t) (x y : Z) :
  well_formed g ->
  igniteCell g x y = Normal g' ->
  igniteCell g' x y = Normal g'.
Proof.
  intros Hwf Hrun.
  destruct (igniteCell_cases g x y Hwf)
    as [(Hx & Hy & row & cell & Hrow & Hcell & Hign)|[_ Hign]];
    rewrite Hign in Hrun; injection Hrun as <-; [|exact Hign].
  destruct (bool_decide (Cell.burnState cell = UNBURNED)
            && (0 <? getFlammability (Cell.terrain cell))) eqn:Hcond.
  - unfold igniteCell. simpl.
    replace ((0 <=? x)%Z && (x <? GridData.width g)%Z
             && (0 <=? y)%Z && (y <? GridData.height g)%Z) with true
      by (symmetry; rewrite !andb_true_iff, !Z.leb_le, !Z.ltb_lt; lia).
    rewrite list_lookup_insert_eq by (eapply lookup_lt_Some; exact Hrow).
    rewrite list_lookup_insert_eq by (eapply lookup_lt_Some; exact Hcell).
    simpl. unfold GridData.with_cells. simpl. reflexivity.
  - rewrite Hign. rewrite ?Hcond. reflexivity.
Qed.

(** * Grids whose stored size reaches past the cell array *)

Lemma for_loop_throws {S : Type} (body : nat -> S -> Sim S) (count : nat) :
  forall start i s rng,
    (start <= i < start + count)%nat ->
    (forall s' rng', body i s' rng' = TypeError) ->
    for_loop start count body s rng = TypeError.
Proof.
  induction count as [|k IH]; intros start i s rng Hi Hbody; [lia|].
  simpl. unfold bind.
  destruct (decide (i = start)) as [->|Hne]; [now rewrite Hbody|].
  destruct (body start s rng) as [[s1 rng1]|]; [|reflexivity].
  apply (IH _ i); [lia | exact Hbody].
Qed.

(** X9: when some position inside the stored width and
    height holds no cell (a row is missing or too short),
    [stepSimulation] throws, and so does [igniteCell] at that
    position. *)
Theorem missing_cell_throws
    (M : Trig.t) (params : SimulationParams.t) (g : GridData.t) (rng : Rng.t)
    (x y : nat) :
  (x < Z.to_nat (GridData.width g))%nat -> (y < Z.to_nat (GridData.height g))%nat ->
  grid_cell g x y = None ->
  stepSimulation M g params rng = TypeError
  /\ igniteCell g (Z.of_nat x) (Z.of_nat y) = TypeError.
Proof.
  intros Hx Hy Hnone. split.
  - unfold stepSimulation, bind.
    rewrite (for_loop_throws _ _ 0 y); [reflexivity | lia |].
    intros s' rng'. apply (for_loop_throws _ _ 0 x); [lia|].
    intros s1 rng1. unfold step_cell, grid_cell in *.
    destruct (GridData.cells g !! y) as [row|]; [|reflexivity].
    unfold bind, lift. rewrite Hnone.
    now destruct (getNeighbors _ _ _).
  - unfold igniteCell, grid_cell in *.
    replace ((0 <=? Z.of_nat x)%Z && (Z.of_nat x <? GridData.width g)%Z
             && (0 <=? Z.of_nat y)%Z && (Z.of_nat y <? GridData.height g)%Z) with true
      by (symmetry; rewrite !andb_true_iff, !Z.leb_le, !Z.ltb_lt; lia).
    rewrite !Nat2Z.id.
    destruct (GridData.cells g !! y) as [row|]; [|reflexivity].
    now rewrite Hnone.
Qed.

(** * Saturated air *)

Section Saturation.

Lemma mul_zero_or_nan_r (a b : float) : zero_or_nan b -> zero_or_nan (a * b).
Proof.
  unfold zero_or_nan. rewrite mul_spec. unfold SF64mul, SFmul.
  destruct (Prim2SF a), (Prim2SF b); simpl; tauto.
Qed.

Lemma ltb_zero_not_positive (x : float) :
  sf_not_positive (Prim2SF x) -> (0 <? x) = false.
Proof.
  rewrite ltb_spec. replace (Prim2SF 0) with (S754_zero false) by reflexivity.
  destruct (Prim2SF x) as [s|[]| |[] m e]; simpl; tauto.
Qed.

(** [Math.max(0, x)] is a zero or NaN when [x] is not above zero. *)
Lemma Math_max_zero_floor (x : float) :
  (0 <? x) = false -> zero_or_nan (Js.Math_max 0 x).
Proof.
  intros Hx. unfold Js.Math_max. rewrite Hx.
  replace (is_nan 0) with false by reflexivity. cbn [orb].
  destruct (is_nan x); [exact I|].
  replace (get_sign 0) with false by reflexivity.
  destruct (x <? 0); exact I.
Qed.

(** Rounding keeps a minus sign: it may reach zero or overflow, never a
    positive number. *)
Lemma binary_round_aux_not_positive (m e : Z) (l : location) :
  sf_not_positive (binary_round_aux prec emax true m e l).
Proof.
  unfold binary_round_aux.
  destruct (shr_fexp prec emax m e l) as [r1 e1].
  destruct (shr_fexp prec emax _ e1 loc_Exact) as [r2 e2].
  destruct (shr_m r2); simpl; [exact I | | exact I].
  destruct (e2 <=? emax - prec)%Z; exact I.
Qed.

Lemma binary_normalize_not_positive (z e : Z) :
  (z <= 0)%Z -> sf_not_positive (binary_normalize prec emax z e false).
Proof.
  intros Hz. destruct z as [|p|p]; simpl; [exact I | lia |].
  unfold binary_round. destruct (shl_align p e _) as [mz ez].
  apply binary_round_aux_not_positive.
Qed.

Lemma div_not_positive (x y : float) (m : positive) (e : Z) :
  Prim2SF y = S754_finite false m e ->
  sf_not_positive (Prim2SF x) -> sf_not_positive (Prim2SF (x / y)).
Proof.
  intros Hy Hx. rewrite div_spec, Hy. unfold SF64div, SFdiv.
  destruct (Prim2SF x) as [s|[]| |[] mx ex]; simpl in *; try tauto.
  destruct (SFdiv_core_binary _ _ _ _ _ _) as [[mz ez] lz].
  apply binary_round_aux_not_positive.
Qed.

(** A finite number above the exponent of 100 has a full 53-bit
    mantissa. *)
Lemma valid_mantissa (h : float) (s : bool) (m : positive) (e : Z) :
  Prim2SF h = S754_finite s m e -> (-1074 < e)%Z ->
  (4503599627370496 <= Z.pos m)%Z.
Proof.
  intros Hh He. pose proof (Prim2SF_valid h) as Hv. rewrite Hh in Hv.
  unfold SpecFloat.valid_binary, bounded, canonical_mantissa in Hv.
  apply andb_prop in Hv as [Hc _]. apply Z.eqb_eq in Hc.
  unfold fexp, SpecFloat.emin, prec, emax in Hc.
  assert (Hd : Z.pos (digits2_pos m) = 53%Z) by lia.
  pose proof (digits2_pos_bounds m) as [Hlo _]. rewrite Hd in Hlo.
  exact Hlo.
Qed.

Lemma hundred_minus_not_positive (h : float) :
  (100 <=? h) = true -> sf_not_positive (Prim2SF (100 - h)).
Proof.
  rewrite leb_spec, sub_spec.
  replace (Prim2SF 100) with (S754_finite false 7036874417766400 (-46)) by reflexivity.
  destruct (Prim2SF h) as [s|[]| |[] m e] eqn:Hh; try discriminate; try (intros _; exact I).
  unfold SFleb, SFcompare, SF64sub, SFsub.
  destruct (Z.compare_spec (-46) e) as [He|He|He]; try discriminate.
  - subst e. intros Hle. apply binary_normalize_not_positive.
    rewrite Z.min_id. unfold shl_align. rewrite Z.sub_diag. cbn [fst cond_Zopp].
    change (Pos.compare_cont Eq 7036874417766400 m)
      with (Pos.compare 7036874417766400 m) in Hle.
    destruct (Pos.compare_spec 7036874417766400 m); try discriminate; lia.
  - intros _. apply binary_normalize_not_positive.
    rewrite Z.min_l by lia. unfold shl_align. rewrite Z.sub_diag.
    destruct (-46 - e)%Z as [|d|d] eqn:Hd; try lia.
    cbn [fst cond_Zopp].
    change (Pos.iter xO m d) with (shift_pos d m). rewrite shift_pos_correct.
    pose proof (valid_mantissa h false m e Hh ltac:(lia)) as Hm.
    assert (Hpow : (2 <= Z.pow_pos 2 d)%Z).
    { rewrite Z.pow_pos_fold. change 2%Z with (2 ^ 1)%Z at 1.
      apply Z.pow_le_mono_r; lia. }
    nia.
Qed.

(** At a humidity or a rain likelihood of 100 or more, the factor
    [Math.max(0, (100 - value) / 100)] is a zero or NaN. *)
Lemma saturated_factor (h : float) :
  (100 <=? h) = true -> zero_or_nan (Js.Math_max 0 ((100 - h) / 100)).
Proof.
  intros Hh. apply Math_max_zero_floor, ltb_zero_not_positive.
  apply (div_not_positive _ 100 7036874417766400 (-46)); [reflexivity|].
  now apply hundred_minus_not_positive.
Qed.

Lemma calculateSpreadProbability_saturated fromCell toCell params windEffect :
  (100 <=? SimulationParams.humidity params) = true
  \/ (100 <=? SimulationParams.rainLikelihood params) = true ->
  zero_or_nan (calculateSpreadProbability fromCell toCell params windEffect).
Proof.
  intros Hsat. unfold calculateSpreadProbability. cbv zeta.
  apply Math_min_one_zero_or_nan. do 2 apply mul_zero_or_nan.
  destruct Hsat as [Hh|Hr].
  - apply mul_zero_or_nan, mul_zero_or_nan_r. now apply saturated_factor.
  - apply mul_zero_or_nan_r. now apply saturated_factor.
Qed.

End Saturation.

(** X10: at a humidity of 100 or more, or a rain likelihood of
    100 or more, a tick sets no cell alight: every Unburned cell of a
    well-formed grid comes out exactly as it went in, whatever burns
    next to it. *)
Theorem saturated_air_stops_spread
    (M : Trig.t) (params : SimulationParams.t) (g : GridData.t) (rng : Rng.t) :
  well_formed g -> Rng.unit_interval rng ->
  (100 <=? SimulationParams.humidity params) = true
  \/ (100 <=? SimulationParams.rainLikelihood params) = true ->
  exists g' rng',
    stepSimulation M g params rng = Normal (g', rng')
    /\ forall x y c,
         grid_cell g x y = Some c -> Cell.burnState c = UNBURNED ->
         grid_cell g' x y = Some c.
Proof.
  intros Hwf Hunit Hsat.
  destruct (tick_spread_source M params g rng Hwf) as (g' & rng' & Hrun & Hcells).
  exists g', rng'. split; [exact Hrun|]. intros x y c Hc Hst.
  destruct (Hcells x y c Hc Hst)
    as [Hsame|(nx & ny & nb & n & _ & _ & _ & _ & _ & _ & Hdraw & _)]; [exact Hsame|].
  exfalso. rewrite ltb_zero_or_nan in Hdraw; [discriminate | apply Hunit |].
  apply mul_zero_or_nan. unfold spread_probability.
  now apply calculateSpreadProbability_saturated.
Qed.

(** * Classifying sampled colours *)

Lemma bytes_spec (k : Z) : (0 <= k <= 255)%Z -> In k bytes.
Proof.
  intros Hk. unfold bytes. apply in_map_iff. exists (Z.to_nat k).
  split; [lia|]. apply in_seq. lia.
Qed.

(** X11: a gray pixel (equal red, green and blue bytes) is classified
    as urban when the byte is between 78 and 202, and as farmland
    otherwise, black and white included. *)
Theorem classifyTerrain_gray (k : Z) :
  (0 <= k <= 255)%Z ->
  classifyTerrain (Js.of_Z k) (Js.of_Z k) (Js.of_Z k)
  = if (78 <=? k)%Z && (k <=? 202)%Z then URBAN else FARMLAND.
Proof.
  intros Hk.
  assert (Hall : forallb
                   (fun k => bool_decide
                      (classifyTerrain (Js.of_Z k) (Js.of_Z k) (Js.of_Z k)
                       = if (78 <=? k)%Z && (k <=? 202)%Z then URBAN else FARMLAND))
                   bytes = true) by (vm_compute; reflexivity).
  rewrite forallb_forall in Hall.
  exact (bool_decide_eq_true_1 _ (Hall k (bytes_spec k Hk))).
Qed.

(** Averaging up to 49 samples of one byte gives that byte back. *)
Lemma uniform_average_exact (count : nat) (k : Z) :
  (1 <= count <= 49)%nat -> (0 <= k <= 255)%Z ->
  uniform_average count k = Js.of_Z k.
Proof.
  intros Hc Hk.
  assert (Hall : forallb
                   (fun m => forallb
                      (fun k => Leibniz.eqb (uniform_average (S m) k) (Js.of_Z k)) bytes)
                   (seq 0 49) = true) by (vm_compute; reflexivity).
  rewrite forallb_forall in Hall.
  specialize (Hall (count - 1)%nat ltac:(apply in_seq; lia)).
  rewrite forallb_forall in Hall.
  specialize (Hall k (bytes_spec k Hk)).
  replace (S (count - 1)) with count in Hall by lia.
  now apply Leibniz.eqb_spec.
Qed.

Lemma fold_left_channel {A : Type} (f : A -> float) (c : A) (count : nat) :
  forall acc,
    fold_left (fun sum s => sum + f s) (repeat c count) acc
    = fold_left (fun sum s => sum + s) (repeat (f c) count) acc.
Proof. induction count as [|n IH]; intros acc; simpl; [reflexivity | apply IH]. Qed.

Lemma flat_map_uniform {A B : Type} (f : A -> list B) (c : B) (l : list A) :
  (forall a, f a = [c] \/ f a = []) ->
  exists n, (n <= length l)%nat /\ flat_map f l = repeat c n.
Proof.
  intros Hf. induction l as [|a l (n & Hn & IH)]; [now exists 0%nat|].
  simpl. rewrite IH. destruct (Hf a) as [-> | ->].
  - exists (S n). split; [lia | reflexivity].
  - exists n. split; [lia | reflexivity].
Qed.

Lemma flat_map_repeat {A B : Type} (f : A -> list B) (c : B) (l : list A) :
  (forall a, exists n, (n <= 7)%nat /\ f a = repeat c n) ->
  exists n, (n <= 7 * length l)%nat /\ flat_map f l = repeat c n.
Proof.
  intros Hf. induction l as [|a l (n & Hn & IH)]; [now exists 0%nat|].
  simpl. rewrite IH. destruct (Hf a) as (k & Hk & ->).
  exists (k + n)%nat. split; [lia|]. now rewrite repeat_app.
Qed.

(** X12: when the tile of a location is found and every pixel read
    that succeeds returns the same colour, the location is classified
    as that colour or, when reads fail, as the fallback colour
    (120, 150, 80); when no read fails it is classified as that colour.
    Where the location falls in the tile plays no part. *)
Theorem sampleTerrainAtLocation_uniform
    (M : MathLib.t) (lat lon : float) (tiles : list Tile.t) (tile : Tile.t)
    (r g b : Z) :
  (let tileCoord := latLonToTile M lat lon 16 in
   List.find
     (fun t => (Tile.x t =? TileXY.x tileCoord) && (Tile.y t =? TileXY.y tileCoord))
     tiles = Some tile) ->
  (0 <= r <= 255)%Z -> (0 <= g <= 255)%Z -> (0 <= b <= 255)%Z ->
  (forall sx sy rgb,
      Image.getImageData (Tile.image tile) sx sy = Some rgb ->
      rgb = (Js.of_Z r, Js.of_Z g, Js.of_Z b)) ->
  (sampleTerrainAtLocation M lat lon tiles
   = classifyTerrain (Js.of_Z r) (Js.of_Z g) (Js.of_Z b)
   \/ sampleTerrainAtLocation M lat lon tiles = classifyTerrain 120 150 80)
  /\ ((forall sx sy, is_Some (Image.getImageData (Tile.image tile) sx sy)) ->
      sampleTerrainAtLocation M lat lon tiles
      = classifyTerrain (Js.of_Z r) (Js.of_Z g) (Js.of_Z b)).
Proof.
  cbv zeta. intros Hfind Hr Hg Hb Huni.
  unfold sampleTerrainAtLocation. cbv zeta. rewrite Hfind.
  set (c := (Js.of_Z r, Js.of_Z g, Js.of_Z b)).
  match goal with
  | |- context [flat_map ?f sample_offsets] => set (rows := f)
  end.
  assert (Hrows : exists n, (n <= 7 * 7)%nat /\ flat_map rows sample_offsets = repeat c n).
  { apply (flat_map_repeat rows c sample_offsets). intros dy. subst rows. cbv beta.
    apply (flat_map_uniform _ c sample_offsets). intros dx.
    destruct (Image.getImageData _ _ _) as [rgb|] eqn:Hread; [left|now right].
    now rewrite (Huni _ _ rgb Hread). }
  destruct Hrows as (n & Hn & Hsamples).
  rewrite Hsamples, repeat_length.
  destruct n as [|n']; [split; [now right|] | ].
  - intros Hall. exfalso. subst rows.
    unfold sample_offsets in Hsamples. cbn [flat_map app] in Hsamples.
    match type of Hsamples with
    | context [Image.getImageData ?i ?sx ?sy] =>
        destruct (Hall sx sy) as [rgb Hread]; rewrite Hread in Hsamples
    end.
    discriminate.
  - assert (Hclass :
      classifyTerrain
        (Js.Math_round
           (fold_left (fun sum s => sum + fst (fst s)) (repeat c (S n')) 0
            / Js.of_Z (Z.of_nat (S n'))))
        (Js.Math_round
           (fold_left (fun sum s => sum + snd (fst s)) (repeat c (S n')) 0
            / Js.of_Z (Z.of_nat (S n'))))
        (Js.Math_round
           (fold_left (fun sum s => sum + snd s) (repeat c (S n')) 0
            / Js.of_Z (Z.of_nat (S n'))))
      = classifyTerrain (Js.of_Z r) (Js.of_Z g) (Js.of_Z b)).
    { rewrite !(fold_left_channel _ c (S n')). subst c. cbn [fst snd].
      fold (uniform_average (S n') r) (uniform_average (S n') g)
        (uniform_average (S n') b).
      now rewrite !uniform_average_exact by (simpl in Hn; lia). }
    split; [left|intros _]; exact Hclass.
Qed.

(** * The statements above at sample data *)

Lemma getNeighbors_moore_witness :
  well_formed sample_grid /\ GridData.cells sample_grid <> []
  /\ exists positions : list (Z * Z),
       getNeighbors (GridData.cells sample_grid) 1 1
       = Normal (map (fun p => grid_cell sample_grid (Z.to_nat (fst p)) (Z.to_nat (snd p)))
                   positions)
       /\ NoDup positions
       /\ (forall nx ny,
             (nx, ny) ∈ positions
             <-> (0 <= nx < GridData.width sample_grid)%Z
                 /\ (0 <= ny < GridData.height sample_grid)%Z
                 /\ adjacent 1 1 nx ny)
       /\ Forall (fun p => is_Some (grid_cell sample_grid (Z.to_nat (fst p))
                                      (Z.to_nat (snd p))))
            positions
       /\ (length positions <= 8)%nat
       /\ ((1 <= 1)%Z -> (1 + 1 < GridData.width sample_grid)%Z ->
           (1 <= 1)%Z -> (1 + 1 < GridData.height sample_grid)%Z ->
           length positions = 8%nat).
Proof.
  split; [exact sample_grid_well_formed|]. split; [discriminate|].
  apply (getNeighbors_moore sample_grid 1 1);
    [exact sample_grid_well_formed | discriminate].
Defined.

Lemma reset_sample_grid_quiet :
  forall x y c,
    grid_cell (resetGrid sample_grid) x y = Some c -> Cell.burnState c <> BURNING.
Proof.
  intros x y c. rewrite grid_cell_resetGrid.
  destruct (grid_cell sample_grid x y); simpl; [|discriminate].
  now intros [= <-].
Qed.

Lemma stepSimulation_without_fire_witness :
  well_formed (resetGrid sample_grid)
  /\ (forall x y c,
        grid_cell (resetGrid sample_grid) x y = Some c -> Cell.burnState c <> BURNING)
  /\ (forall params,
        stepSimulation grid_trig (resetGrid sample_grid) params (constant_tape 0.5)
        = Normal (resetGrid sample_grid, constant_tape 0.5))
  /\ forall paramss,
       run grid_trig (map Tick paramss) (resetGrid sample_grid) (constant_tape 0.5)
       = Normal (resetGrid sample_grid, constant_tape 0.5).
Proof.
  split; [exact (well_formed_resetGrid _ sample_grid_well_formed)|].
  split; [exact reset_sample_grid_quiet|].
  apply (stepSimulation_without_fire grid_trig (resetGrid sample_grid) (constant_tape 0.5));
    [exact (well_formed_resetGrid _ sample_grid_well_formed)
    | exact reset_sample_grid_quiet].
Defined.

Lemma stepSimulation_cell_by_cell_witness :
  well_formed sample_grid
  /\ exists g' rng',
       stepSimulation grid_trig sample_grid sample_params (constant_tape 0.5)
       = Normal (g', rng')
       /\ (forall x y c,
             grid_cell sample_grid x y = Some c -> Cell.burnState c = UNBURNED ->
             grid_cell g' x y = Some c
             \/ exists nx ny nb n,
                  adjacent (Z.of_nat x) (Z.of_nat y) nx ny
                  /\ (0 <= nx < GridData.width sample_grid)%Z
                  /\ (0 <= ny < GridData.height sample_grid)%Z
                  /\ grid_cell sample_grid (Z.to_nat nx) (Z.to_nat ny) = Some nb
                  /\ Cell.burnState nb = BURNING
                  /\ (Rng.cursor (constant_tape 0.5) <= n)%nat
                  /\ (Rng.draws (constant_tape 0.5) n
                      <? spread_probability grid_trig nb c sample_params * 0.1) = true
                  /\ grid_cell g' x y
                     = Some (Cell.with_burn c BURNING
                               (Rng.draws (constant_tape 0.5) (S n) * 0.5 + 0.5) 0))
       /\ (forall x y c,
             grid_cell sample_grid x y = Some c -> Cell.burnState c <> UNBURNED ->
             grid_cell g' x y = Some (burn_step c)).
Proof.
  split; [exact sample_grid_well_formed|].
  apply (stepSimulation_cell_by_cell grid_trig sample_params sample_grid
           (constant_tape 0.5)).
  exact sample_grid_well_formed.
Defined.

Lemma run_frame_witness :
  well_formed sample_grid
  /\ exists g' rng',
       run grid_trig [Ignite 1 1; Tick sample_params; Ignite 2 2; Tick sample_params]
         sample_grid (constant_tape 0.5)
       = Normal (g', rng')
       /\ well_formed g'
       /\ GridData.width g' = GridData.width sample_grid
       /\ GridData.height g' = GridData.height sample_grid
       /\ GridData.bounds g' = GridData.bounds sample_grid
       /\ GridData.cellSize g' = GridData.cellSize sample_grid
       /\ (forall x y, grid_cell sample_grid x y = None -> grid_cell g' x y = None)
       /\ forall x y c,
            grid_cell sample_grid x y = Some c ->
            exists st i d, grid_cell g' x y = Some (Cell.with_burn c st i d).
Proof.
  split; [exact sample_grid_well_formed|].
  apply (run_frame grid_trig _ sample_grid (constant_tape 0.5)).
  exact sample_grid_well_formed.
Defined.

Lemma fire_burns_out_witness :
  well_formed sample_grid
  /\ grid_cell sample_grid 0 1 = Some (sample_cell FOREST BURNING 0 1 1 0)
  /\ exists g' rng' c',
       run grid_trig (repeat (Tick sample_params) 26) sample_grid (constant_tape 0.5)
       = Normal (g', rng')
       /\ grid_cell g' 0 1 = Some c'
       /\ Cell.burnState c' = BURNED /\ Cell.burnIntensity c' = 0.
Proof.
  split; [exact sample_grid_well_formed|]. split; [reflexivity|].
  apply (fire_burns_out grid_trig (repeat (Tick sample_params) 26) sample_grid
           (constant_tape 0.5) 0 1 (sample_cell FOREST BURNING 0 1 1 0));
    [exact sample_grid_well_formed | reflexivity | reflexivity | reflexivity
    | simpl; lia].
Defined.

Lemma ignited_cell_burn_time_witness :
  well_formed sample_grid
  /\ grid_cell sample_grid 1 1 = Some (sample_cell GRASS UNBURNED 1 1 0 0)
  /\ exists g' rng' c',
       run grid_trig (Ignite 1 1 :: repeat (Tick sample_params) 18) sample_grid
         (constant_tape 0.5)
       = Normal (g', rng')
       /\ grid_cell g' 1 1 = Some c'
       /\ Cell.burnState c' = BURNED.
Proof.
  split; [exact sample_grid_well_formed|]. split; [reflexivity|].
  apply (ignited_cell_burn_time grid_trig (repeat (Tick sample_params) 18) sample_grid
           (constant_tape 0.5) 1 1 (sample_cell GRASS UNBURNED 1 1 0 0));
    [exact sample_grid_well_formed | reflexivity | reflexivity | discriminate].
Defined.

Lemma resetGrid_run_witness :
  well_formed sample_grid
  /\ (exists g' rng',
         run grid_trig [Ignite 1 1; Tick sample_params; Tick sample_params] sample_grid
           (constant_tape 0.5)
         = Normal (g', rng')
         /\ resetGrid g' = resetGrid sample_grid)
  /\ resetGrid (resetGrid sample_grid) = resetGrid sample_grid
  /\ forall params rng1,
       stepSimulation grid_trig (resetGrid sample_grid) params rng1
       = Normal (resetGrid sample_grid, rng1).
Proof.
  split; [exact sample_grid_well_formed|].
  apply (resetGrid_run grid_trig _ sample_grid (constant_tape 0.5)).
  exact sample_grid_well_formed.
Defined.

Lemma igniteCell_idempotent_witness :
  well_formed sample_grid
  /\ igniteCell sample_grid 1 1
     = Normal (GridData.with_cells sample_grid
                 (<[1%nat := <[1%nat := sample_cell GRASS BURNING 1 1 1 0]>
                               [ sample_cell FOREST BURNING 0 1 1 0;
                                 sample_cell GRASS UNBURNED 1 1 0 0;
                                 sample_cell GRASS UNBURNED 2 1 0 0 ]]>
                    (GridData.cells sample_grid)))
  /\ igniteCell
       (GridData.with_cells sample_grid
          (<[1%nat := <[1%nat := sample_cell GRASS BURNING 1 1 1 0]>
                        [ sample_cell FOREST BURNING 0 1 1 0;
                          sample_cell GRASS UNBURNED 1 1 0 0;
                          sample_cell GRASS UNBURNED 2 1 0 0 ]]>
             (GridData.cells sample_grid))) 1 1
     = Normal (GridData.with_cells sample_grid
                 (<[1%nat := <[1%nat := sample_cell GRASS BURNING 1 1 1 0]>
                               [ sample_cell FOREST BURNING 0 1 1 0;
                                 sample_cell GRASS UNBURNED 1 1 0 0;
                                 sample_cell GRASS UNBURNED 2 1 0 0 ]]>
                    (GridData.cells sample_grid))).
Proof.
  split; [exact sample_grid_well_formed|]. split; [reflexivity|].
  apply (igniteCell_idempotent sample_grid _ 1 1);
    [exact sample_grid_well_formed | reflexivity].
Defined.

Lemma missing_cell_throws_witness :
  (1 < Z.to_nat (GridData.width short_grid))%nat
  /\ (0 < Z.to_nat (GridData.height short_grid))%nat
  /\ grid_cell short_grid 1 0 = None
  /\ stepSimulation grid_trig short_grid sample_params (constant_tape 0.5) = TypeError
  /\ igniteCell short_grid (Z.of_nat 1) (Z.of_nat 0) = TypeError.
Proof.
  split; [simpl; lia|]. split; [simpl; lia|]. split; [reflexivity|].
  apply (missing_cell_throws grid_trig sample_params short_grid (constant_tape 0.5) 1 0);
    [simpl; lia | simpl; lia | reflexivity].
Defined.

Lemma saturated_air_stops_spread_witness :
  well_formed sample_grid /\ Rng.unit_interval (constant_tape 0.5)
  /\ ((100 <=? SimulationParams.humidity humid_params) = true
      \/ (100 <=? SimulationParams.rainLikelihood humid_params) = true)
  /\ exists g' rng',
       stepSimulation grid_trig sample_grid humid_params (constant_tape 0.5)
       = Normal (g', rng')
       /\ forall x y c,
            grid_cell sample_grid x y = Some c -> Cell.burnState c = UNBURNED ->
            grid_cell g' x y = Some c.
Proof.
  assert (Hunit : Rng.unit_interval (constant_tape 0.5))
    by (apply constant_tape_unit_interval; reflexivity).
  split; [exact sample_grid_well_formed|]. split; [exact Hunit|].
  split; [left; reflexivity|].
  apply (saturated_air_stops_spread grid_trig humid_params sample_grid (constant_tape 0.5));
    [exact sample_grid_well_formed | exact Hunit | left; reflexivity].
Defined.

Lemma classifyTerrain_gray_witness :
  (0 <= 128 <= 255)%Z
  /\ classifyTerrain (Js.of_Z 128) (Js.of_Z 128) (Js.of_Z 128) = URBAN.
Proof.
  split; [lia|]. apply (classifyTerrain_gray 128). lia.
Defined.

Lemma sampleTerrainAtLocation_uniform_witness :
  (0 <= 128 <= 255)%Z
  /\ (sampleTerrainAtLocation sample_math 0 0 [gray_tile]
      = classifyTerrain (Js.of_Z 128) (Js.of_Z 128) (Js.of_Z 128)
      \/ sampleTerrainAtLocation sample_math 0 0 [gray_tile] = classifyTerrain 120 150 80)
  /\ ((forall sx sy, is_Some (Image.getImageData (Tile.image gray_tile) sx sy)) ->
      sampleTerrainAtLocation sample_math 0 0 [gray_tile]
      = classifyTerrain (Js.of_Z 128) (Js.of_Z 128) (Js.of_Z 128)).
Proof.
  split; [lia|].
  apply (sampleTerrainAtLocation_uniform sample_math 0 0 [gray_tile] gray_tile 128 128 128);
    [reflexivity | lia | lia | lia |].
  intros sx sy rgb [= <-]. reflexivity.
Defined.

(** * Integers as numbers: exact increments and comparisons *)

Section Integers.

#[local] Open Scope Z_scope.
Lemma digits2_pos_log2 (p : positive) : Z.pos (digits2_pos p) = Z.log2 (Z.pos p) + 1.
Proof.
  apply digits2_pos_unique.
  pose proof (Z.log2_spec (Z.pos p) ltac:(lia)) as [Hlo Hhi].
  replace (Z.log2 (Z.pos p) + 1 - 1) with (Z.log2 (Z.pos p)) by lia.
  replace (Z.log2 (Z.pos p) + 1) with (Z.succ (Z.log2 (Z.pos p))) by lia. lia.
Qed.

Lemma shr_1_even (m : Z) :
  0 <= m ->
  shr_1 {| shr_m := 2 * m; shr_r := false; shr_s := false |}
  = {| shr_m := m; shr_r := false; shr_s := false |}.
Proof. destruct m as [|p|p]; try lia; reflexivity. Qed.

Lemma iter_shr_1_exact (n : positive) :
  forall m, 0 <= m ->
    SpecFloat.iter_pos shr_1 n {| shr_m := 2 ^ Z.pos n * m; shr_r := false; shr_s := false |}
    = {| shr_m := m; shr_r := false; shr_s := false |}.
Proof.
  induction n as [n IH|n IH|]; intros m Hm.
  - assert (Hpow : 2 ^ Z.pos n~1 * m = 2 * (2 ^ Z.pos n * (2 ^ Z.pos n * m))).
    { replace (Z.pos n~1) with (1 + Z.pos n + Z.pos n) by lia.
      rewrite !Z.pow_add_r by lia. change (2 ^ 1) with 2. ring. }
    rewrite Hpow.
    change (SpecFloat.iter_pos shr_1 n~1 ?x)
      with (SpecFloat.iter_pos shr_1 n (SpecFloat.iter_pos shr_1 n (shr_1 x))).
    assert (H2n : 0 < 2 ^ Z.pos n) by (apply Z.pow_pos_nonneg; lia).
    rewrite shr_1_even by nia. rewrite IH by nia. now rewrite IH.
  - assert (Hpow : 2 ^ Z.pos n~0 * m = 2 ^ Z.pos n * (2 ^ Z.pos n * m)).
    { replace (Z.pos n~0) with (Z.pos n + Z.pos n) by lia.
      rewrite !Z.pow_add_r by lia. ring. }
    rewrite Hpow.
    change (SpecFloat.iter_pos shr_1 n~0 ?x)
      with (SpecFloat.iter_pos shr_1 n (SpecFloat.iter_pos shr_1 n x)).
    assert (H2n : 0 < 2 ^ Z.pos n) by (apply Z.pow_pos_nonneg; lia).
    rewrite IH by nia. now rewrite IH.
  - change (2 ^ 1 * m) with (2 * m). now apply shr_1_even.
Qed.

(** Shifting out [n] zero bits loses nothing. *)
Lemma shr_fexp_exact (p : positive) (e n q : Z) :
  Z.pos (digits2_pos p) = 53 + n -> 0 <= n -> Z.pos p = 2 ^ n * q ->
  -1074 <= e + n ->
  shr_fexp prec emax (Z.pos p) e loc_Exact
  = ({| shr_m := q; shr_r := false; shr_s := false |}, e + n).
Proof.
  intros Hdig Hn Hq He.
  assert (H2n : 0 < 2 ^ n) by (apply Z.pow_pos_nonneg; lia).
  assert (Hq0 : 0 <= q) by nia.
  unfold shr_fexp. cbn [Zdigits2]. rewrite Hdig.
  rewrite fexp_normal by lia.
  replace (53 + n + e - 53 - e) with n by lia.
  destruct n as [|np|np]; try lia.
  - cbn [shr shr_record_of_loc]. rewrite Hq. change (2 ^ 0) with 1.
    replace (1 * q) with q by lia. now rewrite Z.add_0_r.
  - cbn [shr shr_record_of_loc]. rewrite Hq. now rewrite iter_shr_1_exact.
Qed.

Lemma binary_round_aux_exact (s : bool) (p : positive) (e n : Z) (q : positive) :
  Z.pos (digits2_pos p) = 53 + n -> 0 <= n -> Z.pos p = 2 ^ n * Z.pos q ->
  -1074 <= e + n <= 971 ->
  binary_round_aux prec emax s (Z.pos p) e loc_Exact = S754_finite s q (e + n).
Proof.
  intros Hdig Hn Hq He.
  assert (H2n : 0 < 2 ^ n) by (apply Z.pow_pos_nonneg; lia).
  unfold binary_round_aux.
  rewrite (shr_fexp_exact p e n (Z.pos q)) by (assumption || lia).
  cbn [shr_m loc_of_shr_record round_nearest_even].
  assert (Hdq : Z.pos (digits2_pos q) = 53).
  { apply digits2_pos_unique.
    pose proof (digits2_pos_bounds p) as [Plo Phi]. rewrite Hdig in Plo, Phi.
    replace (53 + n - 1) with (n + 52) in Plo by lia.
    rewrite Z.pow_add_r in Plo, Phi by lia.
    change (53 - 1) with 52. nia. }
  rewrite shr_fexp_keep by (assumption || lia). cbn [shr_m]. cbv iota.
  replace (e + n <=? emax - prec) with true
    by (symmetry; apply Z.leb_le; unfold emax, prec; lia).
  reflexivity.
Qed.

Lemma canon_mantissa (v : Z) :
  0 < v < 2 ^ 53 ->
  0 <= Z.log2 v <= 52
  /\ 2 ^ Z.log2 v <= v < 2 ^ (Z.log2 v + 1)
  /\ 2 ^ 52 <= v * 2 ^ (52 - Z.log2 v) < 2 ^ 53.
Proof.
  intros Hv.
  pose proof (Z.log2_spec v ltac:(lia)) as Hspec.
  replace (Z.succ (Z.log2 v)) with (Z.log2 v + 1) in Hspec by lia.
  pose proof (Z.log2_nonneg v) as H0.
  assert (H52 : Z.log2 v < 53) by (apply Z.log2_lt_pow2; lia).
  split; [lia|]. split; [exact Hspec|].
  assert (Hs : 0 < 2 ^ (52 - Z.log2 v)) by (apply Z.pow_pos_nonneg; lia).
  assert (E52 : 2 ^ 52 = 2 ^ Z.log2 v * 2 ^ (52 - Z.log2 v)).
  { rewrite <- Z.pow_add_r by lia. f_equal. lia. }
  assert (E53 : 2 ^ 53 = 2 ^ (Z.log2 v + 1) * 2 ^ (52 - Z.log2 v)).
  { rewrite <- Z.pow_add_r by lia. f_equal. lia. }
  split; [rewrite E52 | rewrite E53]; nia.
Qed.

Lemma canon_eq (v : Z) :
  canon v = S754_finite false (Z.to_pos (v * 2 ^ (52 - Z.log2 v))) (Z.log2 v - 52).
Proof. unfold canon. cbv zeta. f_equal; [f_equal; f_equal; f_equal|]; lia. Qed.

(** An integer below 2^53 scaled by a power of two is normalized without
    rounding. *)
Lemma binary_normalize_value (v t : Z) :
  0 < v < 2 ^ 53 -> 0 <= t ->
  binary_normalize prec emax (v * 2 ^ t) (- t) false = canon v.
Proof.
  intros Hv Ht. rewrite canon_eq.
  destruct (canon_mantissa v Hv) as (Hl & Hspec & Hm).
  set (l := Z.log2 v) in *.
  assert (H2t : 0 < 2 ^ t) by (apply Z.pow_pos_nonneg; lia).
  destruct (v * 2 ^ t) as [|p|p] eqn:Hp; try nia.
  cbn [binary_normalize]. unfold binary_round.
  assert (Hdig : Z.pos (digits2_pos p) = l + 1 + t).
  { apply digits2_pos_unique. rewrite <- Hp.
    replace (l + 1 + t - 1) with (l + t) by lia.
    rewrite !Z.pow_add_r by lia. change (2 ^ 1) with 2.
    rewrite Z.pow_add_r in Hspec by lia. change (2 ^ 1) with 2 in Hspec. nia. }
  rewrite Hdig, fexp_normal by lia.
  set (q := Z.to_pos (v * 2 ^ (52 - l))).
  assert (Hq : Z.pos q = v * 2 ^ (52 - l)) by (subst q; rewrite Z2Pos.id; lia).
  unfold shl_align.
  destruct (l + 1 + t + - t - 53 - - t) as [|dd|dd] eqn:Hdd.
  - rewrite (binary_round_aux_exact false p (- t) (l + t - 52) q); try lia.
    + f_equal. lia.
    + rewrite Hq, <- Hp. replace (l + t - 52) with 0 by lia.
      replace (52 - l) with t by lia. change (2 ^ 0) with 1. lia.
  - rewrite (binary_round_aux_exact false p (- t) (l + t - 52) q); try lia.
    + f_equal. lia.
    + rewrite Hq, <- Hp.
      replace t with ((l + t - 52) + (52 - l)) at 1 by lia.
      rewrite Z.pow_add_r by lia. ring.
  - change (Pos.iter xO p dd) with (shift_pos dd p).
    assert (Hmz : Z.pos (shift_pos dd p) = Z.pos q).
    { rewrite shift_pos_correct, Z.pow_pos_fold, Hq, <- Hp.
      replace (52 - l) with (t + Z.pos dd) by lia.
      rewrite Z.pow_add_r by lia. ring. }
    injection Hmz as ->.
    rewrite (binary_round_aux_exact false q _ 0 q); try lia.
    + f_equal. lia.
    + apply digits2_pos_unique. change (53 + 0 - 1) with 52. change (53 + 0) with 53. lia.
Qed.

Lemma canon_valid (v : Z) : 0 < v < 2 ^ 53 -> valid_binary (canon v) = true.
Proof.
  intros Hv. rewrite canon_eq.
  destruct (canon_mantissa v Hv) as (Hl & Hspec & Hm).
  cbn [SpecFloat.valid_binary]. unfold SpecFloat.bounded, SpecFloat.canonical_mantissa.
  assert (Hdig : Z.pos (digits2_pos (Z.to_pos (v * 2 ^ (52 - Z.log2 v)))) = 53).
  { apply digits2_pos_unique. rewrite Z2Pos.id by lia. change (53 - 1) with 52. lia. }
  rewrite Hdig, fexp_normal by lia.
  apply andb_true_intro. split; [apply Z.eqb_eq | apply Z.leb_le; unfold emax, prec]; lia.
Qed.

Lemma Prim2SF_of_Z (v : Z) : 0 < v < 2 ^ 53 -> Prim2SF (Js.of_Z v) = canon v.
Proof.
  intros Hv. unfold Js.of_Z.
  replace (binary_normalize prec emax v 0 false) with (canon v).
  - apply Prim2SF_SF2Prim. now apply canon_valid.
  - rewrite <- (binary_normalize_value v 0) by lia.
    change (2 ^ 0) with 1. now rewrite Z.mul_1_r.
Qed.

Lemma Prim2SF_inj (a b : float) : Prim2SF a = Prim2SF b -> a = b.
Proof. intros E. rewrite <- (SF2Prim_Prim2SF a), <- (SF2Prim_Prim2SF b). now rewrite E. Qed.

Lemma shl_align_value (m : positive) (e e' : Z) :
  e' <= e -> Z.pos (fst (shl_align m e e')) = Z.pos m * 2 ^ (e - e').
Proof.
  intros He. unfold shl_align.
  destruct (e' - e) as [|d|d] eqn:Hd; try lia; cbn [fst].
  - replace (e - e') with 0 by lia. change (2 ^ 0) with 1. lia.
  - change (Pos.iter xO m d) with (shift_pos d m).
    rewrite shift_pos_correct, Z.pow_pos_fold.
    replace (e - e') with (Z.pos d) by lia. ring.
Qed.

(** Adding two non-negative integers whose sum is below 2^53 is exact. *)
Lemma of_Z_add (j k : Z) :
  0 <= j -> 0 <= k -> j + k < 2 ^ 53 ->
  (Js.of_Z j + Js.of_Z k)%float = Js.of_Z (j + k).
Proof.
  intros Hj Hk Hsum. apply Prim2SF_inj. rewrite add_spec.
  destruct (Z.eq_dec j 0) as [->|Hj0]; [|destruct (Z.eq_dec k 0) as [->|Hk0]].
  - change (Prim2SF (Js.of_Z 0)) with (S754_zero false). rewrite Z.add_0_l.
    destruct (Z.eq_dec k 0) as [->|Hk0]; [reflexivity|].
    rewrite Prim2SF_of_Z by lia. now rewrite canon_eq.
  - change (Prim2SF (Js.of_Z 0)) with (S754_zero false). rewrite Z.add_0_r.
    rewrite Prim2SF_of_Z by lia. now rewrite canon_eq.
  - rewrite !Prim2SF_of_Z by lia.
    rewrite (canon_eq j), (canon_eq k).
    destruct (canon_mantissa j ltac:(lia)) as (Hlj & _ & Hmj).
    destruct (canon_mantissa k ltac:(lia)) as (Hlk & _ & Hmk).
    unfold SF64add, SFadd. cbv zeta.
    rewrite !shl_align_value by lia. cbn [cond_Zopp].
    rewrite !Z2Pos.id by lia.
    set (ez := Z.min (Z.log2 j - 52) (Z.log2 k - 52)).
    replace (j * 2 ^ (52 - Z.log2 j) * 2 ^ (Z.log2 j - 52 - ez)
             + k * 2 ^ (52 - Z.log2 k) * 2 ^ (Z.log2 k - 52 - ez))
      with ((j + k) * 2 ^ (- ez)).
    + replace ez with (- - ez) at 2 by lia.
      apply binary_normalize_value; lia.
    + rewrite <- !Z.mul_assoc, <- !Z.pow_add_r by lia.
      replace (52 - Z.log2 j + (Z.log2 j - 52 - ez)) with (- ez) by lia.
      replace (52 - Z.log2 k + (Z.log2 k - 52 - ez)) with (- ez) by lia. ring.
Qed.

Lemma of_Z_compare (j k : Z) :
  0 <= j < 2 ^ 53 -> 0 <= k < 2 ^ 53 ->
  SFcompare (Prim2SF (Js.of_Z j)) (Prim2SF (Js.of_Z k)) = Some (j ?= k).
Proof.
  intros Hj Hk.
  destruct (Z.eq_dec j 0) as [->|Hj0]; destruct (Z.eq_dec k 0) as [->|Hk0].
  - reflexivity.
  - change (Prim2SF (Js.of_Z 0)) with (S754_zero false).
    rewrite Prim2SF_of_Z by lia. rewrite canon_eq. cbn [SFcompare].
    now rewrite (proj2 (Z.compare_lt_iff 0 k)) by lia.
  - change (Prim2SF (Js.of_Z 0)) with (S754_zero false).
    rewrite Prim2SF_of_Z by lia. rewrite canon_eq. cbn [SFcompare].
    now rewrite (proj2 (Z.compare_gt_iff j 0)) by lia.
  - rewrite !Prim2SF_of_Z by lia. rewrite (canon_eq j), (canon_eq k).
    destruct (canon_mantissa j ltac:(lia)) as (Hlj & Hsj & Hmj).
    destruct (canon_mantissa k ltac:(lia)) as (Hlk & Hsk & Hmk).
    unfold SFcompare.
    destruct (Z.compare_spec (Z.log2 j - 52) (Z.log2 k - 52)) as [He|He|He].
    + change (Pos.compare_cont Eq ?a ?b) with (Pos.compare a b).
      rewrite Pos2Z.inj_compare, !Z2Pos.id by lia.
      replace (Z.log2 k) with (Z.log2 j) by lia.
      f_equal.
      assert (Hs : 0 < 2 ^ (52 - Z.log2 j)) by (apply Z.pow_pos_nonneg; lia).
      destruct (Z.compare_spec j k) as [Hc|Hc|Hc].
      * subst k. apply Z.compare_refl.
      * apply Z.compare_lt_iff. nia.
      * apply Z.compare_gt_iff. nia.
    + f_equal. symmetry. apply Z.compare_lt_iff.
      assert (2 ^ (Z.log2 j + 1) <= 2 ^ Z.log2 k) by (apply Z.pow_le_mono_r; lia).
      lia.
    + f_equal. symmetry. apply Z.compare_gt_iff.
      assert (2 ^ (Z.log2 k + 1) <= 2 ^ Z.log2 j) by (apply Z.pow_le_mono_r; lia).
      lia.
Qed.

Lemma of_Z_ltb (j k : Z) :
  0 <= j < 2 ^ 53 -> 0 <= k < 2 ^ 53 ->
  (Js.of_Z j <? Js.of_Z k)%float = (j <? k).
Proof.
  intros Hj Hk. rewrite ltb_spec. unfold SFltb. rewrite of_Z_compare by assumption.
  unfold Z.ltb. now destruct (j ?= k).
Qed.

Lemma of_Z_leb (j k : Z) :
  0 <= j < 2 ^ 53 -> 0 <= k < 2 ^ 53 ->
  (Js.of_Z j <=? Js.of_Z k)%float = (j <=? k).
Proof.
  intros Hj Hk. rewrite leb_spec. unfold SFleb. rewrite of_Z_compare by assumption.
  unfold Z.leb. now destruct (j ?= k).
Qed.

End Integers.

Example ceil_samples :
  (Math_ceil 2.2, Math_ceil 3, Math_ceil (-2.5), Math_ceil 0.0001, Math_ceil 4503599627370497,
   Math_ceil infinity)
  = (3, 3, -2, 1, 4503599627370497, infinity)
  /\ Prim2SF (Math_ceil (-0.5)) = S754_zero true
  /\ is_nan (Math_ceil nan) = true.
Proof. repeat split; reflexivity. Qed.

(** * Loops over a number *)

Lemma zrange_cons (a b : Z) : (a <= b)%Z -> zrange a b = a :: zrange (a + 1) b.
Proof.
  intros Hab. unfold zrange.
  replace (Z.to_nat (b + 1 - a)) with (S (Z.to_nat (b + 1 - (a + 1)))) by lia.
  cbn [seq map]. f_equal; [lia|].
  rewrite <- seq_shift, map_map. apply map_ext. intros i. lia.
Qed.

Lemma zrange_nil (a b : Z) : (b < a)%Z -> zrange a b = [].
Proof. intros Hab. unfold zrange. now replace (Z.to_nat (b + 1 - a)) with 0%nat by lia. Qed.

Lemma zrange_length (a b : Z) : length (zrange a b) = Z.to_nat (b + 1 - a).
Proof. unfold zrange. now rewrite length_map, length_seq. Qed.

Lemma zrange_lookup (a b : Z) (i : nat) :
  (i < Z.to_nat (b + 1 - a))%nat -> zrange a b !! i = Some (a + Z.of_nat i)%Z.
Proof.
  intros Hi. unfold zrange.
  change (map ?f ?l) with (f <$> l). rewrite list_lookup_fmap.
  now rewrite lookup_seq_lt.
Qed.

Section NumberLoops.

Context {S : Type}.
Variable body : float -> S -> option S.
Variable step : Z -> S -> S.
Variable hi : Z.
Hypothesis Hhi : (0 <= hi < 2 ^ 53 - 1)%Z.

(** A loop [for (i = lo; i <= hi; i++)] over integers below 2^53 runs
    its body once for each integer from [lo] to [hi], in order, when the
    fuel allows one test more than that. *)
Lemma for_number_le (n : nat) :
  forall (fuel : nat) (lo : Z) (s : S),
    (forall i s', (lo <= i <= hi)%Z -> body (Js.of_Z i) s' = Some (step i s')) ->
    (0 <= lo < 2 ^ 53)%Z -> n = Z.to_nat (hi + 1 - lo) -> (n < fuel)%nat ->
    for_number fuel (fun i => i <=? Js.of_Z hi) (Js.of_Z lo) body s
    = Some (fold_left (fun s' i => step i s') (zrange lo hi) s).
Proof.
  induction n as [|n IH]; intros fuel lo s Hbody Hlo Hn Hfuel;
    (destruct fuel as [|fuel]; [lia|]); cbn [for_number].
  - rewrite of_Z_leb by lia.
    replace (lo <=? hi)%Z with false by (symmetry; apply Z.leb_gt; lia).
    now rewrite zrange_nil by lia.
  - rewrite of_Z_leb by lia.
    replace (lo <=? hi)%Z with true by (symmetry; apply Z.leb_le; lia).
    rewrite Hbody by lia.
    change 1 with (Js.of_Z 1). rewrite of_Z_add by lia.
    rewrite zrange_cons by lia. cbn [fold_left].
    apply IH; try lia. intros i s' Hi. apply Hbody. lia.
Qed.

(** The same for [for (i = lo; i < hi; i++)]: the integers from [lo] to
    [hi - 1]. *)
Lemma for_number_lt (n : nat) :
  forall (fuel : nat) (lo : Z) (s : S),
    (forall i s', (lo <= i < hi)%Z -> body (Js.of_Z i) s' = Some (step i s')) ->
    (0 <= lo < 2 ^ 53)%Z -> n = Z.to_nat (hi - lo) -> (n < fuel)%nat ->
    for_number fuel (fun i => i <? Js.of_Z hi) (Js.of_Z lo) body s
    = Some (fold_left (fun s' i => step i s') (zrange lo (hi - 1)) s).
Proof.
  induction n as [|n IH]; intros fuel lo s Hbody Hlo Hn Hfuel;
    (destruct fuel as [|fuel]; [lia|]); cbn [for_number].
  - rewrite of_Z_ltb by lia.
    replace (lo <? hi)%Z with false by (symmetry; apply Z.ltb_ge; lia).
    now rewrite zrange_nil by lia.
  - rewrite of_Z_ltb by lia.
    replace (lo <? hi)%Z with true by (symmetry; apply Z.ltb_lt; lia).
    rewrite Hbody by lia.
    change 1 with (Js.of_Z 1). rewrite of_Z_add by lia.
    rewrite zrange_cons by lia. cbn [fold_left].
    apply IH; try lia. intros i s' Hi. apply Hbody. lia.
Qed.

End NumberLoops.

Lemma fold_left_push {A B : Type} (f : A -> B) (l : list A) :
  forall acc, fold_left (fun acc' i => acc' ++ [f i]) l acc = acc ++ map f l.
Proof.
  induction l as [|a l IH]; intros acc; cbn [fold_left map].
  - now rewrite app_nil_r.
  - rewrite IH. now rewrite <- app_assoc.
Qed.

Lemma fold_left_push_all {A B : Type} (f : A -> list B) (l : list A) :
  forall acc, fold_left (fun acc' i => acc' ++ f i) l acc = acc ++ flat_map f l.
Proof.
  induction l as [|a l IH]; intros acc; cbn [fold_left flat_map].
  - now rewrite app_nil_r.
  - rewrite IH. now rewrite <- app_assoc.
Qed.

(** * The tiles of a bounding box *)

Lemma flat_map_map_length {A B C : Type} (f : A -> B -> C) (l1 : list A) (l2 : list B) :
  length (flat_map (fun a => map (f a) l2) l1) = (length l1 * length l2)%nat.
Proof.
  induction l1 as [|a l1 IH]; [reflexivity|].
  cbn [flat_map]. rewrite length_app, length_map, IH. simpl. lia.
Qed.

Lemma getTilesForBounds_tiles
    (M : MathLib.t) (toString : float -> String.string) (fuel : nat)
    (bounds : BoundingBox.t) (zoom : float) (x0 y0 x1 y1 : Z) :
  latLonToTile M (BoundingBox.north bounds) (BoundingBox.west bounds) zoom
  = {| TileXY.x := Js.of_Z x0; TileXY.y := Js.of_Z y0 |} ->
  latLonToTile M (BoundingBox.south bounds) (BoundingBox.east bounds) zoom
  = {| TileXY.x := Js.of_Z x1; TileXY.y := Js.of_Z y1 |} ->
  (0 <= x0 < 2 ^ 53)%Z -> (0 <= y0 < 2 ^ 53)%Z ->
  (0 <= x1 < 2 ^ 53 - 1)%Z -> (0 <= y1 < 2 ^ 53 - 1)%Z ->
  (Z.to_nat (x1 + 1 - x0) < fuel)%nat -> (Z.to_nat (y1 + 1 - y0) < fuel)%nat ->
  getTilesForBounds M toString fuel bounds zoom
  = Some (flat_map (fun x => map (tile_info toString zoom x) (zrange y0 y1))
            (zrange x0 x1)).
Proof.
  intros Htl Hbr Hx0 Hy0 Hx1 Hy1 Hfx Hfy.
  unfold getTilesForBounds. cbv zeta. rewrite Htl, Hbr. cbn [TileXY.x TileXY.y].
  rewrite (for_number_le _
             (fun x tiles => tiles ++ map (tile_info toString zoom x) (zrange y0 y1))
             x1 Hx1 (Z.to_nat (x1 + 1 - x0))); try (reflexivity || lia).
  - now rewrite fold_left_push_all.
  - intros x tiles Hx.
    rewrite (for_number_le _ (fun y tiles' => tiles' ++ [tile_info toString zoom x y])
               y1 Hy1 (Z.to_nat (y1 + 1 - y0))); try (reflexivity || lia).
    now rewrite fold_left_push.
Qed.

(** X13: when the two corners of the bounding box fall in tiles with
    integer indices (columns [x0] and [x1], rows [y0] and [y1]),
    [getTilesForBounds] returns, given fuel for one test more than the
    longer range, exactly one tile for each column from [x0] to [x1]
    and each row from [y0] to [y1], column by column and row by row
    within a column, each at the zoom asked for; it returns no tile when
    either range is empty. *)
Theorem getTilesForBounds_range
    (M : MathLib.t) (toString : float -> String.string) (fuel : nat)
    (bounds : BoundingBox.t) (zoom : float) (x0 y0 x1 y1 : Z) :
  latLonToTile M (BoundingBox.north bounds) (BoundingBox.west bounds) zoom
  = {| TileXY.x := Js.of_Z x0; TileXY.y := Js.of_Z y0 |} ->
  latLonToTile M (BoundingBox.south bounds) (BoundingBox.east bounds) zoom
  = {| TileXY.x := Js.of_Z x1; TileXY.y := Js.of_Z y1 |} ->
  (0 <= x0 < 2 ^ 53)%Z -> (0 <= y0 < 2 ^ 53)%Z ->
  (0 <= x1 < 2 ^ 53 - 1)%Z -> (0 <= y1 < 2 ^ 53 - 1)%Z ->
  (Z.to_nat (x1 + 1 - x0) < fuel)%nat -> (Z.to_nat (y1 + 1 - y0) < fuel)%nat ->
  getTilesForBounds M toString fuel bounds zoom
  = Some (flat_map (fun x => map (tile_info toString zoom x) (zrange y0 y1))
            (zrange x0 x1))
  /\ length (flat_map (fun x => map (tile_info toString zoom x) (zrange y0 y1))
               (zrange x0 x1))
     = (Z.to_nat (x1 + 1 - x0) * Z.to_nat (y1 + 1 - y0))%nat.
Proof.
  intros Htl Hbr Hx0 Hy0 Hx1 Hy1 Hfx Hfy. split.
  - now apply getTilesForBounds_tiles.
  - now rewrite flat_map_map_length, !zrange_length.
Qed.

(** * The grid the rasterizer builds *)

Lemma grid_of_map (cell : Z -> Z -> Cell.t) (w h : Z) (bounds : BoundingBox.t)
    (cellSize : float) :
  (0 <= w)%Z -> (0 <= h)%Z ->
  let cells := map (fun y => map (fun x => cell x y) (zrange 0 (w - 1))) (zrange 0 (h - 1)) in
  well_formed (newGridData cells w h bounds cellSize)
  /\ forall x y c,
       grid_cell (newGridData cells w h bounds cellSize) x y = Some c ->
       c = cell (Z.of_nat x) (Z.of_nat y).
Proof.
  intros Hw Hh cells. split; [split|].
  - cbn [newGridData GridData.height GridData.cells]. subst cells.
    rewrite length_map, zrange_length. lia.
  - cbn [newGridData GridData.width GridData.cells]. subst cells.
    apply Forall_map, Forall_forall. intros y _. cbv beta.
    rewrite length_map, zrange_length. lia.
  - intros x y c. unfold grid_cell. cbn [newGridData GridData.cells]. subst cells.
    change (map ?f ?l) with (f <$> l). rewrite list_lookup_fmap.
    destruct (zrange 0 (h - 1) !! y) as [yz|] eqn:Hy; simpl; [|discriminate].
    rewrite list_lookup_fmap.
    destruct (zrange 0 (w - 1) !! x) as [xz|] eqn:Hx; simpl; [|discriminate].
    intros [= <-].
    pose proof (lookup_lt_Some _ _ _ Hy) as Hylt. rewrite zrange_length in Hylt.
    pose proof (lookup_lt_Some _ _ _ Hx) as Hxlt. rewrite zrange_length in Hxlt.
    rewrite zrange_lookup in Hy, Hx by assumption.
    injection Hy as <-. injection Hx as <-. reflexivity.
Qed.

Lemma processAreaToGrid_cells
    (M : MathLib.t) (T : Trig.t) (sin : float -> float)
    (toString : float -> String.string) (load : TileInfo.t -> option Image.t)
    (fuel : nat) (bounds : BoundingBox.t)
    (cellSize windSpeed windDirection temperature humidity : float)
    (x0 y0 x1 y1 w h : Z) :
  latLonToTile M (BoundingBox.north bounds) (BoundingBox.west bounds) 16
  = {| TileXY.x := Js.of_Z x0; TileXY.y := Js.of_Z y0 |} ->
  latLonToTile M (BoundingBox.south bounds) (BoundingBox.east bounds) 16
  = {| TileXY.x := Js.of_Z x1; TileXY.y := Js.of_Z y1 |} ->
  (0 <= x0 < 2 ^ 53)%Z -> (0 <= y0 < 2 ^ 53)%Z ->
  (0 <= x1 < 2 ^ 53 - 1)%Z -> (0 <= y1 < 2 ^ 53 - 1)%Z ->
  grid_size T bounds cellSize = (Js.of_Z w, Js.of_Z h) ->
  (0 <= w < 2 ^ 53 - 1)%Z -> (0 <= h < 2 ^ 53 - 1)%Z ->
  (Z.to_nat (x1 + 1 - x0) < fuel)%nat -> (Z.to_nat (y1 + 1 - y0) < fuel)%nat ->
  (Z.to_nat w < fuel)%nat -> (Z.to_nat h < fuel)%nat ->
  processAreaToGrid M T sin toString false load fuel bounds cellSize
    windSpeed windDirection temperature humidity
  = Some NoCanvasContext
  /\ exists cell : Z -> Z -> Cell.t,
       processAreaToGrid M T sin toString true load fuel bounds cellSize
         windSpeed windDirection temperature humidity
       = Some (Grid (map (fun y => map (fun x => cell x y) (zrange 0 (w - 1)))
                       (zrange 0 (h - 1)))
                 (Js.of_Z w) (Js.of_Z h))
       /\ forall x y,
            Cell.burnState (cell x y) = UNBURNED
            /\ Cell.burnIntensity (cell x y) = 0 /\ Cell.burnDuration (cell x y) = 0
            /\ Cell.x (cell x y) = Js.of_Z x /\ Cell.y (cell x y) = Js.of_Z y
            /\ Cell.humidity (cell x y) = humidity
            /\ Cell.temperature (cell x y) = temperature
            /\ Cell.windX (cell x y)
               = windSpeed * Trig.cos T (windDirection * Js.Math_PI / 180)
            /\ Cell.windY (cell x y) = windSpeed * sin (windDirection * Js.Math_PI / 180).
Proof.
  intros Htl Hbr Hx0 Hy0 Hx1 Hy1 Hsize Hw Hh Hfx Hfy Hfw Hfh.
  pose proof (getTilesForBounds_tiles M toString fuel bounds 16 x0 y0 x1 y1
                Htl Hbr Hx0 Hy0 Hx1 Hy1 Hfx Hfy) as Htiles.
  unfold grid_size in Hsize. cbv zeta in Hsize. injection Hsize as Hgw Hgh.
  unfold processAreaToGrid. cbv zeta. rewrite Htiles, Hgw, Hgh. cbn [negb].
  split; [reflexivity|].
  set (validTiles := omap _ _).
  change (for_number fuel ?t 0 ?b ?s) with (for_number fuel t (Js.of_Z 0) b s).
  erewrite (for_number_lt _ _ h Hh (Z.to_nat h)); try lia.
  2: { intros y cells Hy. cbv beta.
       change (for_number fuel ?t 0 ?b ?s) with (for_number fuel t (Js.of_Z 0) b s).
       erewrite (for_number_lt _ _ w Hw (Z.to_nat w)); try lia.
       2: { intros x row Hx. cbv beta. reflexivity. }
       cbv beta. rewrite fold_left_push. cbn [app]. reflexivity. }
  cbv beta. rewrite fold_left_push. cbn [app].
  eexists (fun x y => _). split; [reflexivity|].
  intros x y. cbn. split_and!; reflexivity.
Qed.

(** X14: when the corners of the bounding box fall in tiles with
    integer indices and the grid dimensions come out as the integers [w]
    and [h], [processAreaToGrid] returns, given enough fuel, a grid of
    exactly [h] rows of [w] cells (well-formed when stored with that
    width and height).  Every cell is Unburned with intensity and
    duration 0, carries its own column and row index as [x] and [y], the
    humidity and temperature passed in, and the wind components computed
    from the wind speed and direction; a tick of this grid changes
    nothing.  Without a canvas context the function throws instead. *)
Theorem processAreaToGrid_grid
    (M : MathLib.t) (T : Trig.t) (sin : float -> float)
    (toString : float -> String.string) (load : TileInfo.t -> option Image.t)
    (fuel : nat) (bounds : BoundingBox.t)
    (cellSize windSpeed windDirection temperature humidity : float)
    (x0 y0 x1 y1 w h : Z) :
  latLonToTile M (BoundingBox.north bounds) (BoundingBox.west bounds) 16
  = {| TileXY.x := Js.of_Z x0; TileXY.y := Js.of_Z y0 |} ->
  latLonToTile M (BoundingBox.south bounds) (BoundingBox.east bounds) 16
  = {| TileXY.x := Js.of_Z x1; TileXY.y := Js.of_Z y1 |} ->
  (0 <= x0 < 2 ^ 53)%Z -> (0 <= y0 < 2 ^ 53)%Z ->
  (0 <= x1 < 2 ^ 53 - 1)%Z -> (0 <= y1 < 2 ^ 53 - 1)%Z ->
  grid_size T bounds cellSize = (Js.of_Z w, Js.of_Z h) ->
  (0 <= w < 2 ^ 53 - 1)%Z -> (0 <= h < 2 ^ 53 - 1)%Z ->
  (Z.to_nat (x1 + 1 - x0) < fuel)%nat -> (Z.to_nat (y1 + 1 - y0) < fuel)%nat ->
  (Z.to_nat w < fuel)%nat -> (Z.to_nat h < fuel)%nat ->
  processAreaToGrid M T sin toString false load fuel bounds cellSize
    windSpeed windDirection temperature humidity
  = Some NoCanvasContext
  /\ exists cells,
       processAreaToGrid M T sin toString true load fuel bounds cellSize
         windSpeed windDirection temperature humidity
       = Some (Grid cells (Js.of_Z w) (Js.of_Z h))
       /\ well_formed (newGridData cells w h bounds cellSize)
       /\ (forall x y c,
             grid_cell (newGridData cells w h bounds cellSize) x y = Some c ->
             Cell.burnState c = UNBURNED
             /\ Cell.burnIntensity c = 0 /\ Cell.burnDuration c = 0
             /\ Cell.x c = Js.of_Z (Z.of_nat x) /\ Cell.y c = Js.of_Z (Z.of_nat y)
             /\ Cell.humidity c = humidity /\ Cell.temperature c = temperature
             /\ Cell.windX c = windSpeed * Trig.cos T (windDirection * Js.Math_PI / 180)
             /\ Cell.windY c = windSpeed * sin (windDirection * Js.Math_PI / 180))
       /\ forall (T' : Trig.t) (params : SimulationParams.t) (rng : Rng.t),
            stepSimulation T' (newGridData cells w h bounds cellSize) params rng
            = Normal (newGridData cells w h bounds cellSize, rng).
Proof.
  intros Htl Hbr Hx0 Hy0 Hx1 Hy1 Hsize Hw Hh Hfx Hfy Hfw Hfh.
  destruct (processAreaToGrid_cells M T sin toString load fuel bounds cellSize
              windSpeed windDirection temperature humidity x0 y0 x1 y1 w h)
    as (Hthrow & cell & Hrun & Hcell); try assumption.
  split; [exact Hthrow|].
  destruct (grid_of_map cell w h bounds cellSize) as [Hwf Hlookup]; try lia.
  eexists. split; [exact Hrun|]. split; [exact Hwf|].
  assert (Hcells : forall x y c,
            grid_cell (newGridData
                         (map (fun y => map (fun x => cell x y) (zrange 0 (w - 1)))
                            (zrange 0 (h - 1)))
                         w h bounds cellSize) x y = Some c ->
            Cell.burnState c = UNBURNED
            /\ Cell.burnIntensity c = 0 /\ Cell.burnDuration c = 0
            /\ Cell.x c = Js.of_Z (Z.of_nat x) /\ Cell.y c = Js.of_Z (Z.of_nat y)
            /\ Cell.humidity c = humidity /\ Cell.temperature c = temperature
            /\ Cell.windX c = windSpeed * Trig.cos T (windDirection * Js.Math_PI / 180)
            /\ Cell.windY c = windSpeed * sin (windDirection * Js.Math_PI / 180)).
  { intros x y c Hc. rewrite (Hlookup x y c Hc). apply Hcell. }
  split; [exact Hcells|].
  intros T' params rng. apply tick_without_fire; [exact Hwf|].
  intros x y c Hc. destruct (Hcells x y c Hc) as [-> _]. discriminate.
Qed.

Lemma getTilesForBounds_range_witness :
  latLonToTile sample_math (BoundingBox.north small_bounds) (BoundingBox.west small_bounds) 16
  = {| TileXY.x := Js.of_Z 32768; TileXY.y := Js.of_Z 32766 |}
  /\ latLonToTile sample_math (BoundingBox.south small_bounds) (BoundingBox.east small_bounds)
       16
     = {| TileXY.x := Js.of_Z 32769; TileXY.y := Js.of_Z 32768 |}
  /\ getTilesForBounds sample_math sample_toString 4 small_bounds 16
     = Some (flat_map (fun x => map (tile_info sample_toString 16 x) (zrange 32766 32768))
               (zrange 32768 32769))
  /\ length (flat_map (fun x => map (tile_info sample_toString 16 x) (zrange 32766 32768))
               (zrange 32768 32769))
     = (Z.to_nat (32769 + 1 - 32768) * Z.to_nat (32768 + 1 - 32766))%nat.
Proof.
  split; [reflexivity|]. split; [reflexivity|].
  apply (getTilesForBounds_range sample_math sample_toString 4 small_bounds 16
           32768 32766 32769 32768); try reflexivity; lia.
Defined.

Lemma processAreaToGrid_grid_witness :
  grid_size grid_trig small_bounds 0.5 = (Js.of_Z 3, Js.of_Z 3)
  /\ processAreaToGrid sample_math grid_trig (fun x => x) sample_toString false no_image 4
       small_bounds 0.5 10 0 25 30
     = Some NoCanvasContext
  /\ exists cells,
       processAreaToGrid sample_math grid_trig (fun x => x) sample_toString true no_image 4
         small_bounds 0.5 10 0 25 30
       = Some (Grid cells (Js.of_Z 3) (Js.of_Z 3))
       /\ well_formed (newGridData cells 3 3 small_bounds 0.5)
       /\ (forall x y c,
             grid_cell (newGridData cells 3 3 small_bounds 0.5) x y = Some c ->
             Cell.burnState c = UNBURNED
             /\ Cell.burnIntensity c = 0 /\ Cell.burnDuration c = 0
             /\ Cell.x c = Js.of_Z (Z.of_nat x) /\ Cell.y c = Js.of_Z (Z.of_nat y)
             /\ Cell.humidity c = 30 /\ Cell.temperature c = 25
             /\ Cell.windX c = 10 * Trig.cos grid_trig (0 * Js.Math_PI / 180)
             /\ Cell.windY c = 10 * (0 * Js.Math_PI / 180))
       /\ forall (T' : Trig.t) (params : SimulationParams.t) (rng : Rng.t),
            stepSimulation T' (newGridData cells 3 3 small_bounds 0.5) params rng
            = Normal (newGridData cells 3 3 small_bounds 0.5, rng).
Proof.
  split; [reflexivity|].
  apply (processAreaToGrid_grid sample_math grid_trig (fun x => x) sample_toString no_image 4
           small_bounds 0.5 10 0 25 30 32768 32766 32769 32768 3 3);
    try reflexivity; lia.
Defined.

(** * Pixel reads stay inside the tile *)

Section NumberOrder.

Lemma SFcompare_antisym (x y : spec_float) :
  SFcompare y x
  = match SFcompare x y with Some c => Some (CompOpp c) | None => None end.
Proof.
  destruct x as [sx|sx| |sx mx ex], y as [sy|sy| |sy my ey];
    try destruct sx; try destruct sy; try reflexivity; cbn [SFcompare];
    rewrite (Z.compare_antisym ex ey);
    pose proof (Pos.compare_cont_antisym mx my Eq) as Hanti; cbn [CompOpp] in Hanti;
    rewrite <- Hanti;
    destruct (ex ?= ey)%Z; cbn [CompOpp]; try reflexivity;
    now destruct (Pos.compare_cont Eq mx my).
Qed.

Lemma ltb_leb (a b : float) : (a <? b) = true -> (a <=? b) = true.
Proof.
  rewrite ltb_spec, leb_spec. unfold SFltb, SFleb.
  now destruct (SFcompare _ _) as [[]|].
Qed.

Lemma leb_refl (a : float) : is_nan a = false -> (a <=? a) = true.
Proof.
  unfold is_nan. rewrite FloatAxioms.eqb_spec, leb_spec. unfold SFeqb, SFleb.
  now destruct (SFcompare _ _) as [[]|].
Qed.

Lemma leb_not_nan (a b : float) : (a <=? b) = true -> is_nan b = false.
Proof.
  unfold is_nan. rewrite FloatAxioms.eqb_spec, leb_spec. unfold SFeqb, SFleb.
  destruct (Prim2SF a) as [sa|sa| |sa ma ea], (Prim2SF b) as [sb|[]| |sb mb eb];
    try discriminate; try reflexivity; intros _; cbn [SFcompare];
    rewrite Z.compare_refl;
    change (Pos.compare_cont Eq mb mb) with (Pos.compare mb mb);
    rewrite Pos.compare_refl; now destruct sb.
Qed.

Lemma not_ltb_leb (a b : float) :
  is_nan a = false -> is_nan b = false -> (a <? b) = false -> (b <=? a) = true.
Proof.
  unfold is_nan. rewrite !FloatAxioms.eqb_spec, ltb_spec, leb_spec.
  unfold SFeqb, SFltb, SFleb. rewrite (SFcompare_antisym (Prim2SF a) (Prim2SF b)).
  destruct (SFcompare (Prim2SF a) (Prim2SF b)) as [[]|] eqn:Hc; try discriminate;
    try reflexivity.
  intros Ha Hb _. exfalso.
  destruct (Prim2SF a) as [sa|sa| |sa ma ea], (Prim2SF b) as [sb|sb| |sb mb eb];
    discriminate.
Qed.

(** [Math.max(0, Math.min(hi, p))] is NaN or lies between 0 and [hi],
    when [hi] is not below 0. *)
Lemma clamp_inside (hi p : float) :
  (0 <=? hi) = true ->
  is_nan (Js.Math_max 0 (Js.Math_min hi p)) = true
  \/ ((0 <=? Js.Math_max 0 (Js.Math_min hi p)) = true
      /\ (Js.Math_max 0 (Js.Math_min hi p) <=? hi) = true).
Proof.
  intros Hhi. pose proof (leb_not_nan 0 hi Hhi) as Hnan.
  assert (Hmin : is_nan (Js.Math_min hi p) = true
                 \/ (is_nan (Js.Math_min hi p) = false
                     /\ (Js.Math_min hi p <=? hi) = true)).
  { unfold Js.Math_min. rewrite Hnan. cbn [orb].
    destruct (is_nan p) eqn:Hp; [now left|]. right.
    destruct (hi <? p) eqn:H1; [split; [exact Hnan | now apply leb_refl]|].
    destruct (p <? hi) eqn:H2; [split; [exact Hp | now apply ltb_leb]|].
    destruct (get_sign hi); [split; [exact Hnan | now apply leb_refl]|].
    split; [exact Hp | now apply not_ltb_leb]. }
  destruct Hmin as [Hm|[Hm Hle]].
  - left. unfold Js.Math_max. rewrite Hm. now rewrite orb_true_r.
  - right. unfold Js.Math_max. rewrite Hm.
    replace (is_nan 0) with false by reflexivity. cbn [orb].
    destruct (0 <? Js.Math_min hi p) eqn:H1; [split; [now apply ltb_leb | exact Hle]|].
    destruct (Js.Math_min hi p <? 0); [split; [reflexivity | exact Hhi]|].
    replace (get_sign 0) with false by reflexivity. split; [reflexivity | exact Hhi].
Qed.

End NumberOrder.

(** X15: the pixel reads of [sampleTerrainAtLocation] stay inside
    the tile image: when the image is at least one pixel wide and high,
    replacing it by an image of the same size that agrees with it at
    every pixel coordinate from 0 to width - 1 and 0 to height - 1 (and
    at NaN) does not change the terrain returned. *)
Theorem sampleTerrainAtLocation_reads_inside
    (M : MathLib.t) (lat lon : float) (tiles : list Tile.t) (tile : Tile.t)
    (image : Image.t) :
  (let tileCoord := latLonToTile M lat lon 16 in
   List.find
     (fun t => (Tile.x t =? TileXY.x tileCoord) && (Tile.y t =? TileXY.y tileCoord))
     tiles = Some tile) ->
  (0 <=? Image.width (Tile.image tile) - 1) = true ->
  (0 <=? Image.height (Tile.image tile) - 1) = true ->
  Image.width image = Image.width (Tile.image tile) ->
  Image.height image = Image.height (Tile.image tile) ->
  (forall sx sy,
      in_image (Image.width (Tile.image tile)) sx ->
      in_image (Image.height (Tile.image tile)) sy ->
      Image.getImageData image sx sy = Image.getImageData (Tile.image tile) sx sy) ->
  sampleTerrainAtLocation M lat lon [with_image tile image]
  = sampleTerrainAtLocation M lat lon tiles.
Proof.
  cbv zeta. intros Hfind Hw Hh Ew Eh Hagree.
  pose proof (find_some _ _ Hfind) as [_ Htest].
  unfold sampleTerrainAtLocation. cbv zeta. rewrite Hfind.
  cbn [List.find with_image Tile.x Tile.y]. rewrite Htest.
  cbn [with_image Tile.image Tile.x Tile.y]. rewrite Ew, Eh.
  match goal with
  | |- match flat_map ?f sample_offsets with _ => _ end
       = match flat_map ?f' sample_offsets with _ => _ end =>
      assert (Hsame : flat_map f sample_offsets = flat_map f' sample_offsets)
  end.
  { apply flat_map_ext. intros dy. apply flat_map_ext. intros dx.
    rewrite Hagree; [reflexivity | |]; apply clamp_inside; assumption. }
  now rewrite Hsame.
Qed.

Lemma sampleTerrainAtLocation_reads_inside_witness :
  (0 <=? Image.width (Tile.image gray_tile) - 1) = true
  /\ (0 <=? Image.height (Tile.image gray_tile) - 1) = true
  /\ sampleTerrainAtLocation sample_math 0 0 [with_image gray_tile framed_gray]
     = sampleTerrainAtLocation sample_math 0 0 [gray_tile].
Proof.
  split; [reflexivity|]. split; [reflexivity|].
  apply (sampleTerrainAtLocation_reads_inside sample_math 0 0 [gray_tile] gray_tile
           framed_gray); try reflexivity.
  assert (Hside : forall s, in_image 256 s ->
            is_nan s || (0 <=? s) && (s <=? 255) = true).
  { intros s [Hs|[Hs0 Hs1]]; [now rewrite Hs|].
    change (256 - 1) with 255 in Hs1. rewrite Hs0, Hs1. apply orb_true_r. }
  intros sx sy Hx Hy.
  cbn [framed_gray gray_tile Tile.image Image.getImageData Image.width Image.height] in *.
  now rewrite (Hside sx Hx), (Hside sy Hy).
Defined.

(** * Tile columns and their west edges *)

Lemma all_from_spec (f : Z -> bool) (n : nat) :
  forall x, all_from f n x = true ->
            forall i, (x <= i < x + Z.of_nat n)%Z -> f i = true.
Proof.
  induction n as [|n IH]; intros x Hall i Hi; [lia|].
  cbn [all_from] in Hall. apply andb_prop in Hall as [Hx Hrest].
  destruct (Z.eq_dec i x) as [->|Hne]; [exact Hx|].
  apply (IH (x + 1)%Z Hrest). lia.
Qed.

(** X16: at zoom 16, the zoom the rasterizer works at, the longitude
    that [tileToLatLon] gives for the west edge of tile column [x]
    is mapped back to column [x] by [latLonToTile], for every column
    from 0 to 65536 and whatever the row and the latitude, provided
    [Math.pow(2, 16)] is 65536.  The check runs over all the columns. *)
Theorem tile_column_round_trip (M : MathLib.t) (x : Z) (y lat : float) :
  MathLib.pow M 2 16 = 65536 ->
  (0 <= x <= 65536)%Z ->
  TileXY.x (latLonToTile M lat (LatLon.lon (tileToLatLon M (Js.of_Z x) y 16)) 16)
  = Js.of_Z x.
Proof.
  intros Hpow Hx.
  unfold latLonToTile, tileToLatLon. cbn [TileXY.x LatLon.lon]. rewrite Hpow.
  change (Js.Math_floor ((Js.of_Z x / 65536 * 360 - 180 + 180) / 360 * 65536))
    with (column_of_west_edge (Js.of_Z x)).
  apply Leibniz.eqb_spec.
  assert (Hall : all_from
                   (fun x => Leibniz.eqb (column_of_west_edge (Js.of_Z x)) (Js.of_Z x))
                   (Z.to_nat 65537) 0 = true) by (vm_compute; reflexivity).
  apply (all_from_spec _ _ 0 Hall x). lia.
Qed.

Lemma tile_column_round_trip_witness :
  MathLib.pow sample_math 2 16 = 65536
  /\ TileXY.x
       (latLonToTile sample_math 0
          (LatLon.lon (tileToLatLon sample_math (Js.of_Z 32768) 7 16)) 16)
     = Js.of_Z 32768.
Proof.
  split; [reflexivity|].
  apply (tile_column_round_trip sample_math 32768 7 0); [reflexivity | lia].
Defined.

(** * Every fire goes out *)

Lemma duration_table (t : TerrainType) (k : nat) :
  (k <= 26)%nat ->
  (getFlammability t * 20 + 10 <=? duration_after k) = (burnout_ticks t <=? k)%nat.
Proof.
  intros Hk.
  assert (Hall : forallb
                   (fun t => forallb
                      (fun k => eqb (getFlammability t * 20 + 10 <=? duration_after k)
                                  (burnout_ticks t <=? k)%nat)
                      (seq 0 27))
                   [FOREST; GRASS; URBAN; WATER; FARMLAND] = true)
    by (vm_compute; reflexivity).
  rewrite forallb_forall in Hall.
  specialize (Hall t ltac:(destruct t; simpl; tauto)).
  rewrite forallb_forall in Hall.
  specialize (Hall k ltac:(apply in_seq; lia)).
  now apply eqb_prop in Hall.
Qed.

Lemma burn_age_table (k : nat) : (k < 26)%nat -> burn_age (duration_after k) = Some k.
Proof.
  intros Hk.
  assert (Hall : forallb
                   (fun k => bool_decide (burn_age (duration_after k) = Some k))
                   (seq 0 26) = true) by (vm_compute; reflexivity).
  rewrite forallb_forall in Hall.
  assert (Hin : In k (seq 0 26)) by (apply in_seq; lia).
  exact (bool_decide_eq_true_1 _ (Hall k Hin)).
Qed.

Lemma burnout_ticks_bound (t : TerrainType) : (burnout_ticks t <= 26)%nat.
Proof. destruct t; simpl; lia. Qed.

(** One step of a counted cell leaves it counted and never adds to its
    fuel; a burn step of a Burning cell uses some of it up. *)
Lemma cell_step_fuel (c c' : Cell.t) :
  counted c -> cell_step c c' ->
  counted c' /\ (fuel_left c' <= fuel_left c)%nat
  /\ (Cell.burnState c = BURNING -> c' = burn_step c ->
      (fuel_left c' < fuel_left c)%nat).
Proof.
  intros Hcount [->|[[Hst (i & ->)]|[Hst ->]]].
  - split; [exact Hcount|]. split; [lia|].
    intros Hb Hstep. exfalso.
    destruct (Hcount Hb) as (k & Hk & Hd).
    pose proof (burnout_ticks_bound (Cell.terrain c)) as Hbt.
    destruct (burn_step_burning c Hb) as (_ & Hdur & [[Hs _]|[_ Htest]]).
    + rewrite <- Hstep in Hs. congruence.
    + rewrite <- Hstep in Hdur. rewrite Hd in Hdur.
      change (duration_after k + 1) with (duration_after (S k)) in Hdur.
      apply (f_equal burn_age) in Hdur.
      destruct (Nat.eq_dec (S k) 26%nat) as [E|E].
      * rewrite Hd in Htest.
        change (duration_after k + 1) with (duration_after (S k)) in Htest.
        rewrite duration_table in Htest by lia.
        apply Nat.leb_gt in Htest. lia.
      * rewrite !burn_age_table in Hdur by lia. injection Hdur as Hdur. lia.
  - split; [|split].
    + intros _. exists 0%nat.
      split; [cbn [Cell.with_burn Cell.terrain]; destruct (Cell.terrain c); simpl; lia
             | reflexivity].
    + unfold fuel_left. rewrite Hst. simpl. lia.
    + rewrite Hst. discriminate.
  - destruct (Cell.burnState c) eqn:Hb; [done| |].
    + destruct (Hcount Hb) as (k & Hk & Hd).
      pose proof (burnout_ticks_bound (Cell.terrain c)) as Hbt.
      assert (Hfuel : fuel_left c = (26 - k)%nat).
      { unfold fuel_left. rewrite Hb, Hd, burn_age_table by lia. reflexivity. }
      destruct (burn_step_burning c Hb) as (Ht & Hdur & [[Hs _]|[Hs Htest]]).
      * assert (Hfuel' : fuel_left (burn_step c) = 0%nat)
          by (unfold fuel_left; now rewrite Hs).
        split; [intros Hb'; congruence|]. rewrite Hfuel, Hfuel'. split; lia.
      * rewrite Hd in Htest, Hdur.
        change (duration_after k + 1) with (duration_after (S k)) in Htest, Hdur.
        rewrite duration_table in Htest by lia. apply Nat.leb_gt in Htest.
        assert (Hfuel' : fuel_left (burn_step c) = (26 - S k)%nat).
        { unfold fuel_left. rewrite Hs, Hdur, burn_age_table by lia. reflexivity. }
        split; [|rewrite Hfuel, Hfuel'; split; lia].
        intros _. exists (S k). rewrite Ht. split; [lia | exact Hdur].
    + rewrite burn_step_burned by exact Hb.
      split; [exact Hcount|]. split; [lia | discriminate].
Qed.

Lemma list_sum_step (l l' : list Cell.t) :
  Forall counted l ->
  Forall2 (fun c c' => cell_step c c'
                       /\ (Cell.burnState c = BURNING -> c' = burn_step c)) l l' ->
  Forall counted l'
  /\ (list_sum (map fuel_left l') <= list_sum (map fuel_left l))%nat
  /\ (existsb (fun c => bool_decide (Cell.burnState c = BURNING)) l = true ->
      (list_sum (map fuel_left l') < list_sum (map fuel_left l))%nat).
Proof.
  intros Hcount Hstep. induction Hstep as [|c c' l l' [Hc Hburn] _ IH].
  - split; [constructor|]. split; [simpl; lia | discriminate].
  - apply Forall_cons in Hcount as [Hc0 Hl].
    destruct (IH Hl) as (Hl' & Hle & Hlt).
    destruct (cell_step_fuel c c' Hc0 Hc) as (Hc' & Hcle & Hclt).
    split; [now constructor|]. cbn [map existsb].
    change (list_sum (?a :: ?m)) with (a + list_sum m)%nat. split; [lia|].
    intros Hex. apply orb_prop in Hex as [Hb|Hex].
    + apply bool_decide_eq_true_1 in Hb. specialize (Hclt Hb (Hburn Hb)). lia.
    + specialize (Hlt Hex). lia.
Qed.

Lemma list_sum_step_quiet (l l' : list Cell.t) :
  Forall counted l -> Forall2 cell_step l l' ->
  Forall counted l'
  /\ (list_sum (map fuel_left l') <= list_sum (map fuel_left l))%nat.
Proof.
  intros Hcount Hstep. induction Hstep as [|c c' l l' Hc _ IH].
  - split; [constructor | simpl; lia].
  - apply Forall_cons in Hcount as [Hc0 Hl].
    destruct (IH Hl) as (Hl' & Hle).
    destruct (cell_step_fuel c c' Hc0 Hc) as (Hc' & Hcle & _).
    split; [now constructor|]. cbn [map].
    change (list_sum (?a :: ?m)) with (a + list_sum m)%nat. lia.
Qed.

Lemma all_cells_lookup (g : GridData.t) (c : Cell.t) :
  c ∈ all_cells g <-> exists x y, grid_cell g x y = Some c.
Proof.
  unfold all_cells, grid_cell. rewrite list_elem_of_In, in_concat. split.
  - intros (row & Hrow & Hc).
    apply list_elem_of_In, list_elem_of_lookup_1 in Hrow as [y Hy].
    apply list_elem_of_In, list_elem_of_lookup_1 in Hc as [x Hx].
    exists x, y. now rewrite Hy.
  - intros (x & y & Hc).
    destruct (GridData.cells g !! y) as [row|] eqn:Hy; [|discriminate].
    exists row. split; apply list_elem_of_In; eapply list_elem_of_lookup_2; eassumption.
Qed.

Lemma Forall2_concat_rows {A B : Type} (R : A -> B -> Prop)
    (ls : list (list A)) (ks : list (list B)) :
  Forall2 (Forall2 R) ls ks -> Forall2 R (concat ls) (concat ks).
Proof.
  induction 1 as [|l k ls ks Hlk _ IH]; [constructor|].
  cbn [concat]. now apply Forall2_app.
Qed.

Lemma on_fire_false (g : GridData.t) :
  on_fire g = false ->
  forall x y c, grid_cell g x y = Some c -> Cell.burnState c <> BURNING.
Proof.
  unfold on_fire. intros Hoff x y c Hc Hb.
  assert (Hin : In c (all_cells g)).
  { apply list_elem_of_In, all_cells_lookup. eauto. }
  assert (Hon : existsb (fun c => bool_decide (Cell.burnState c = BURNING)) (all_cells g)
                = true).
  { apply existsb_exists. exists c. split; [exact Hin | now apply bool_decide_eq_true_2]. }
  congruence.
Qed.

(** Cells related position by position in two grids of the same shape
    are related along the lists of all cells. *)
Lemma all_cells_related (R : Cell.t -> Cell.t -> Prop) (g g' : GridData.t) :
  well_formed g -> well_formed g' ->
  g' = GridData.with_cells g (GridData.cells g') ->
  (forall x y c, grid_cell g x y = Some c ->
                 exists c', grid_cell g' x y = Some c' /\ R c c') ->
  Forall2 R (all_cells g) (all_cells g').
Proof.
  intros Hwf Hwf' Hframe Hcells. unfold all_cells.
  apply Forall2_concat_rows.
  assert (Hh : length (GridData.cells g) = length (GridData.cells g')).
  { rewrite <- (well_formed_height g Hwf), <- (well_formed_height g' Hwf').
    now rewrite Hframe. }
  apply Forall2_same_length_lookup_2; [exact Hh|].
  intros y row row' Hrow Hrow'.
  assert (Hw : length row = length row').
  { rewrite (well_formed_rows g row Hwf) by (eapply list_elem_of_lookup_2; exact Hrow).
    rewrite (well_formed_rows g' row' Hwf') by (eapply list_elem_of_lookup_2; exact Hrow').
    now rewrite Hframe. }
  apply Forall2_same_length_lookup_2; [exact Hw|].
  intros x c c' Hc Hc'.
  destruct (Hcells x y c) as (c'' & Hc'' & HR).
  { unfold grid_cell. now rewrite Hrow. }
  unfold grid_cell in Hc''. rewrite Hrow' in Hc''. congruence.
Qed.

(** What any operation does to each cell, in the terms of [cell_step]. *)
Lemma apply_operation_step M op g rng :
  well_formed g ->
  exists g' rng',
    apply_operation M op g rng = Normal (g', rng')
    /\ well_formed g'
    /\ g' = GridData.with_cells g (GridData.cells g')
    /\ forall x y c, grid_cell g x y = Some c ->
         exists c',
           grid_cell g' x y = Some c' /\ cell_step c c'
           /\ ((exists params, op = Tick params) ->
               Cell.burnState c = BURNING -> c' = burn_step c).
Proof.
  intros Hwf.
  destruct (apply_operation_cells M op g rng Hwf)
    as (g' & rng' & Hrun & Hwf' & Hframe & Hcells).
  exists g', rng'. split_and!; try assumption.
  intros x y c Hc. destruct (Hcells x y c Hc) as (c' & Hc' & _ & Hstep).
  exists c'. split; [exact Hc'|].
  destruct (decide (Cell.burnState c = UNBURNED)) as [Hst|Hst].
  - split; [|intros _ Hb; congruence].
    destruct op as [params|ix iy]; cbn [apply_operation] in Hrun.
    + destruct (tick_spread_source M params g rng Hwf) as (g1 & rng1 & Hrun1 & Hspread).
      rewrite Hrun in Hrun1. injection Hrun1 as <- <-.
      destruct (Hspread x y c Hc Hst)
        as [Hsame|(nx & ny & nb & n & _ & _ & _ & _ & _ & _ & _ & Hlit)].
      * left. congruence.
      * right. left. split; [exact Hst|]. eexists. rewrite Hc' in Hlit.
        injection Hlit as ->. reflexivity.
    + unfold lift in Hrun.
      destruct (igniteCell_cases g ix iy Hwf)
        as [(_ & _ & row & cell & Hrow & Hcell & Hign)|[_ Hign]];
        rewrite Hign in Hrun; injection Hrun as <- <-.
      2: { left. congruence. }
      destruct (bool_decide (Cell.burnState cell = UNBURNED)
                && (0 <? getFlammability (Cell.terrain cell))) eqn:Hcond.
      2: { left. congruence. }
      rewrite (grid_cell_assign g _ _ row) in Hc'
        by (try assumption; eapply lookup_lt_Some; exact Hcell).
      destruct (decide ((x, y) = (Z.to_nat ix, Z.to_nat iy))) as [[= -> ->]|_].
      * assert (c = cell) as ->.
        { unfold grid_cell in Hc. rewrite Hrow in Hc. congruence. }
        right. left. split; [exact Hst|]. exists 1.0. congruence.
      * left. congruence.
  - specialize (Hstep Hst). destruct op as [params|ix iy].
    + split; [right; right; now split | intros _ _; exact Hstep].
    + split; [now left | intros [params [=]]].
Qed.

Lemma run_counted M ops :
  forall g rng,
    well_formed g -> Forall counted (all_cells g) ->
    exists g' rng',
      run M ops g rng = Normal (g', rng')
      /\ well_formed g'
      /\ g' = GridData.with_cells g (GridData.cells g')
      /\ Forall counted (all_cells g').
Proof.
  induction ops as [|op rest IH]; intros g rng Hwf Hcount.
  - exists g, rng. split_and!; try done. now rewrite with_cells_id.
  - destruct (apply_operation_step M op g rng Hwf)
      as (g1 & rng1 & Hrun1 & Hwf1 & Hframe1 & Hcells1).
    assert (Hrel : Forall2 cell_step (all_cells g) (all_cells g1)).
    { apply all_cells_related; try assumption.
      intros x y c Hc. destruct (Hcells1 x y c Hc) as (c' & Hc' & Hs & _). eauto. }
    destruct (list_sum_step_quiet _ _ Hcount Hrel) as [Hcount1 _].
    destruct (IH g1 rng1 Hwf1 Hcount1) as (g' & rng' & Hrun & Hwf' & Hframe & Hcount').
    exists g', rng'. cbn [run]. unfold bind. rewrite Hrun1.
    split_and!; try assumption.
    rewrite Hframe at 1. rewrite Hframe1. reflexivity.
Qed.

Lemma ticks_put_fire_out M paramss :
  forall g rng,
    well_formed g -> Forall counted (all_cells g) ->
    on_fire g = false \/ (grid_fuel g <= length paramss)%nat ->
    exists g' rng',
      run M (map Tick paramss) g rng = Normal (g', rng')
      /\ well_formed g'
      /\ g' = GridData.with_cells g (GridData.cells g')
      /\ on_fire g' = false.
Proof.
  induction paramss as [|params rest IH]; intros g rng Hwf Hcount Hbound.
  - exists g, rng. split; [reflexivity|]. split; [exact Hwf|].
    split; [now rewrite with_cells_id|].
    destruct Hbound as [Hoff|Hfuel]; [exact Hoff|].
    destruct (on_fire g) eqn:Hon; [exfalso|reflexivity].
    unfold on_fire in Hon. apply existsb_exists in Hon as (c & Hin & Hb).
    apply bool_decide_eq_true_1 in Hb.
    rewrite Forall_forall in Hcount.
    destruct (Hcount c (proj2 (list_elem_of_In _ _) Hin) Hb) as (k & Hk & Hd).
    pose proof (burnout_ticks_bound (Cell.terrain c)) as Hbt.
    assert (Hc : fuel_left c = (26 - k)%nat).
    { unfold fuel_left. rewrite Hb, Hd, burn_age_table by lia. reflexivity. }
    unfold grid_fuel in Hfuel. simpl in Hfuel.
    apply in_split in Hin as (l1 & l2 & Hsplit). rewrite Hsplit in Hfuel.
    rewrite map_app, list_sum_app in Hfuel. cbn [map] in Hfuel.
    change (list_sum (?a :: ?m)) with (a + list_sum m)%nat in Hfuel. lia.
  - cbn [map run apply_operation]. unfold bind.
    destruct (on_fire g) eqn:Hon.
    + destruct Hbound as [Hoff|Hfuel]; [discriminate|].
      destruct (apply_operation_step M (Tick params) g rng Hwf)
        as (g1 & rng1 & Hrun1 & Hwf1 & Hframe1 & Hcells1).
      cbn [apply_operation] in Hrun1. rewrite Hrun1.
      assert (Hrel : Forall2 (fun c c' => cell_step c c'
                                /\ (Cell.burnState c = BURNING -> c' = burn_step c))
                       (all_cells g) (all_cells g1)).
      { apply all_cells_related; try assumption.
        intros x y c Hc. destruct (Hcells1 x y c Hc) as (c' & Hc' & Hs & Hb).
        exists c'. split; [exact Hc'|]. split; [exact Hs|]. apply Hb. now exists params. }
      destruct (list_sum_step _ _ Hcount Hrel) as (Hcount1 & _ & Hlt).
      specialize (Hlt Hon). fold (grid_fuel g1) (grid_fuel g) in Hlt.
      destruct (IH g1 rng1 Hwf1 Hcount1) as (g' & rng' & Hrun & Hwf' & Hframe & Hoff).
      { right. simpl in Hfuel. lia. }
      exists g', rng'. split_and!; try assumption.
      rewrite Hframe at 1. rewrite Hframe1. reflexivity.
    + rewrite (tick_without_fire M params g rng Hwf (on_fire_false g Hon)).
      apply IH; try assumption. now left.
Qed.

Lemma run_app M ops ops' g rng :
  run M (ops ++ ops') g rng
  = match run M ops g rng with
    | Normal (g1, rng1) => run M ops' g1 rng1
    | TypeError => TypeError
    end.
Proof.
  revert g rng. induction ops as [|op rest IH]; intros g rng; [reflexivity|].
  cbn [app run]. unfold bind.
  destruct (apply_operation M op g rng) as [[g1 rng1]|]; [apply IH | reflexivity].
Qed.

Lemma fuel_left_bound (c : Cell.t) : (fuel_left c <= 27)%nat.
Proof.
  unfold fuel_left. destruct (Cell.burnState c); try lia.
  destruct (burn_age _); lia.
Qed.

Lemma grid_fuel_bound (g : GridData.t) :
  well_formed g ->
  (grid_fuel g <= 27 * (Z.to_nat (GridData.width g) * Z.to_nat (GridData.height g)))%nat.
Proof.
  intros [Hh Hrows]. unfold grid_fuel, all_cells.
  rewrite Hh, Nat2Z.id. clear Hh.
  induction Hrows as [|row rows Hrow _ IH]; [simpl; lia|].
  cbn [concat length]. rewrite map_app, list_sum_app.
  assert (Hsum : forall l : list Cell.t,
            (list_sum (map fuel_left l) <= 27 * length l)%nat).
  { induction l as [|c l IHl]; [simpl; lia|]. cbn [map length].
    change (list_sum (?a :: ?m)) with (a + list_sum m)%nat.
    pose proof (fuel_left_bound c). lia. }
  specialize (Hsum row). rewrite Hrow, Nat2Z.id. nia.
Qed.

(** X17: every fire goes out.  Start from a well-formed grid in which
    the cells that burn have duration 0 (a rasterized grid, with or
    without ignitions), run any sequence of ticks and ignitions, then at
    least 27 ticks per cell of the grid: no cell is Burning at the end,
    whatever the terrain, the parameters and the random draws, and
    further ticks change nothing. *)
Theorem fire_dies_out
    (M : Trig.t) (ops : list Operation) (paramss : list SimulationParams.t)
    (g : GridData.t) (rng : Rng.t) :
  well_formed g ->
  (forall x y c,
      grid_cell g x y = Some c -> Cell.burnState c = BURNING -> Cell.burnDuration c = 0) ->
  (27 * (Z.to_nat (GridData.width g) * Z.to_nat (GridData.height g))
   <= length paramss)%nat ->
  exists g' rng',
    run M (ops ++ map Tick paramss) g rng = Normal (g', rng')
    /\ (forall x y c, grid_cell g' x y = Some c -> Cell.burnState c <> BURNING)
    /\ forall more rng2, run M (map Tick more) g' rng2 = Normal (g', rng2).
Proof.
  intros Hwf Hfresh Hlen.
  assert (Hcount : Forall counted (all_cells g)).
  { apply Forall_forall. intros c Hc Hb.
    apply all_cells_lookup in Hc as (x & y & Hc).
    exists 0%nat. split; [destruct (Cell.terrain c); simpl; lia|].
    exact (Hfresh x y c Hc Hb). }
  destruct (run_counted M ops g rng Hwf Hcount)
    as (g1 & rng1 & Hrun1 & Hwf1 & Hframe1 & Hcount1).
  destruct (ticks_put_fire_out M paramss g1 rng1 Hwf1 Hcount1)
    as (g' & rng' & Hrun & Hwf' & _ & Hoff).
  { right. pose proof (grid_fuel_bound g1 Hwf1) as Hbound.
    assert (Hw : GridData.width g1 = GridData.width g) by now rewrite Hframe1.
    assert (Hh : GridData.height g1 = GridData.height g) by now rewrite Hframe1.
    rewrite Hw, Hh in Hbound. lia. }
  exists g', rng'. rewrite run_app, Hrun1. split; [exact Hrun|].
  split; [exact (on_fire_false g' Hoff)|].
  induction more as [|params more IH]; intros rng2; [reflexivity|].
  cbn [map run apply_operation]. unfold bind.
  rewrite (tick_without_fire M params g' rng2 Hwf' (on_fire_false g' Hoff)).
  apply IH.
Qed.

Lemma fire_dies_out_witness :
  well_formed sample_grid
  /\ exists g' rng',
       run grid_trig ([Ignite 1 1; Tick sample_params; Ignite 2 2]
                      ++ map Tick (repeat sample_params 243))
         sample_grid (constant_tape 0.5)
       = Normal (g', rng')
       /\ (forall x y c, grid_cell g' x y = Some c -> Cell.burnState c <> BURNING)
       /\ forall more rng2, run grid_trig (map Tick more) g' rng2 = Normal (g', rng2).
Proof.
  split; [exact sample_grid_well_formed|].
  apply (fire_dies_out grid_trig _ (repeat sample_params 243) sample_grid
           (constant_tape 0.5)).
  - exact sample_grid_well_formed.
  - intros x y c Hc Hb.
    destruct y as [|[|[|y]]]; destruct x as [|[|[|x]]];
      try discriminate; injection Hc as <-; try discriminate; reflexivity.
  - rewrite repeat_length. simpl. lia.
Defined.

(** * The intensity of a new fire *)

Section IntensityRange.

#[local] Open Scope Z_scope.

Lemma shr_fexp_subnormal (p : positive) (e : Z) :
  Z.pos (digits2_pos p) + e <= -1021 -> e < -1074 ->
  exists rec,
    shr_fexp prec emax (Z.pos p) e loc_Exact = (rec, -1074)
    /\ shr_m rec = Z.pos p / 2 ^ (-1074 - e).
Proof.
  intros Hdig He. unfold shr_fexp. cbn [Zdigits2].
  replace (fexp prec emax (Z.pos (digits2_pos p) + e)) with (-1074)
    by (unfold fexp, emin, prec, emax; lia).
  destruct (-1074 - e) as [|dp|dp] eqn:Hd; try lia.
  cbn [shr shr_record_of_loc]. eexists. split; [f_equal; lia|].
  now rewrite iter_shr_1_m.
Qed.

Lemma shr_fexp_tiny (m : Z) :
  0 <= m <= 2 ^ 52 ->
  shr_fexp prec emax m (-1074) loc_Exact
  = ({| shr_m := m; shr_r := false; shr_s := false |}, -1074).
Proof.
  intros Hm. unfold shr_fexp.
  assert (Hdig : Zdigits2 m <= 53).
  { destruct m as [|p|p]; try lia; [simpl; lia|]. cbn [Zdigits2].
    pose proof (digits2_pos_bounds p) as [Hlo _].
    destruct (Z_le_gt_dec (Z.pos (digits2_pos p)) 53) as [|Hgt]; [assumption|].
    assert (2 ^ 53 <= 2 ^ (Z.pos (digits2_pos p) - 1)) by (apply Z.pow_le_mono_r; lia).
    lia. }
  replace (fexp prec emax (Zdigits2 m + -1074)) with (-1074)
    by (unfold fexp, emin, prec, emax; lia).
  reflexivity.
Qed.

Lemma lt_true (c : comparison) :
  match c with Lt => true | _ => false end = true -> c = Lt.
Proof. now destruct c. Qed.

Lemma compare_cont_Eq_lt (p q : positive) :
  Pos.compare_cont Eq p q = Lt -> Z.pos p < Z.pos q.
Proof. intros H. apply Pos2Z.pos_lt_pos. exact H. Qed.

(** Half of a number in [0, 1) is a zero or a positive number below
    2^-1: normal with exponent at most -54, or with the least exponent. *)
Lemma half_below_half (r : float) :
  (0 <=? r)%float = true -> (r <? 1)%float = true ->
  match Prim2SF (r * 0.5)%float with
  | S754_zero _ => True
  | S754_finite false mt et =>
      et <= -54 /\ Z.pos mt < 2 ^ 53
  | _ => False
  end.
Proof.
  rewrite leb_spec, ltb_spec, mul_spec.
  replace (Prim2SF 0) with (S754_zero false) by reflexivity.
  replace (Prim2SF 1) with (S754_finite false 4503599627370496 (-52)) by reflexivity.
  replace (Prim2SF 0.5) with (S754_finite false 4503599627370496 (-53)) by reflexivity.
  pose proof (Prim2SF_valid r) as Hvalid.
  destruct (Prim2SF r) as [s|s| |s m e] eqn:Hr; try discriminate.
  - intros _ _. exact I.
  - destruct s; [discriminate|]. discriminate.
  - destruct s; [discriminate|]. intros _.
    unfold SFltb, SFcompare. intros Hlt.
    cbn [SpecFloat.valid_binary] in Hvalid.
    unfold SpecFloat.bounded, SpecFloat.canonical_mantissa in Hvalid.
    apply andb_prop in Hvalid as [Hcanon _]. apply Z.eqb_eq in Hcanon.
    unfold fexp, emin, prec, emax in Hcanon.
    pose proof (digits2_pos_bounds m) as [Hmlo Hmhi].
    assert (He : e <= -53).
    { destruct (Z.compare_spec e (-52)) as [E|E|E]; try discriminate; [|lia].
      subst e. exfalso.
      apply lt_true, compare_cont_Eq_lt in Hlt.
      assert (Hd : Z.pos (digits2_pos m) = 53) by (clear - Hcanon; lia).
      rewrite Hd in Hmlo. change (2 ^ (53 - 1)) with 4503599627370496 in Hmlo.
      clear - Hmlo Hlt. lia. }
    unfold SF64mul, SFmul. cbn [xorb].
    destruct (Z_le_gt_dec (-1073) e) as [Hnormal|Hsub].
    + assert (Hd : Z.pos (digits2_pos m) = 53) by (clear - Hcanon Hnormal; lia).
      assert (Hp : Z.pos (m * 4503599627370496) = 2 ^ 52 * Z.pos m) by (clear; lia).
      rewrite (binary_round_aux_exact false (m * 4503599627370496) (e + -53) 52 m);
        try lia.
      * rewrite Hd in Hmhi. lia.
      * apply digits2_pos_unique. rewrite Hp. rewrite Hd in Hmlo, Hmhi.
        change (53 + 52 - 1) with (52 + 52). change (53 + 52) with (52 + 53).
        rewrite !Z.pow_add_r by lia. change (53 - 1) with 52 in Hmlo. nia.
    + assert (He' : e = -1074) by (clear - Hcanon Hsub; lia). subst e.
      assert (Hd : Z.pos (digits2_pos m) <= 53) by (clear - Hcanon; lia).
      assert (Hm53 : Z.pos m < 2 ^ 53).
      { assert (2 ^ Z.pos (digits2_pos m) <= 2 ^ 53) by (apply Z.pow_le_mono_r; lia). lia. }
      unfold binary_round_aux.
      assert (Hdp : Z.pos (digits2_pos (m * 4503599627370496)) = Z.pos (digits2_pos m) + 52).
      { apply digits2_pos_unique.
        replace (Z.pos (m * 4503599627370496)) with (Z.pos m * 2 ^ 52) by lia.
        replace (Z.pos (digits2_pos m) + 52 - 1) with (Z.pos (digits2_pos m) - 1 + 52) by lia.
        rewrite !Z.pow_add_r by lia. nia. }
      destruct (shr_fexp_subnormal (m * 4503599627370496) (-1074 + -53))
        as (rec & Hshift & Hq); try lia.
      rewrite Hshift.
      replace (-1074 - (-1074 + -53)) with 53 in Hq by lia.
      replace (Z.pos (m * 4503599627370496)) with (Z.pos m * 2 ^ 52) in Hq by lia.
      assert (Hq2 : shr_m rec = Z.pos m / 2).
      { rewrite Hq. replace (2 ^ 53) with (2 * 2 ^ 52) by reflexivity.
        apply Z.div_mul_cancel_r; lia. }
      assert (Hhalf : 0 <= Z.pos m / 2 < 2 ^ 52).
      { split; [apply Z.div_pos; lia|]. apply Z.div_lt_upper_bound; lia. }
      pose proof (round_nearest_even_cases (shr_m rec) (loc_of_shr_record rec)) as Hround.
      set (m1 := round_nearest_even (shr_m rec) (loc_of_shr_record rec)) in *.
      rewrite shr_fexp_tiny by lia. cbn [shr_m].
      destruct m1 as [|m1p|m1p] eqn:Em1; try lia; try exact I.
      cbv iota. replace (-1074 <=? emax - prec) with true by reflexivity.
      split; lia.
Qed.

(** A draw in [0, 1) gives an intensity [draw * 0.5 + 0.5] between 0.5
    and 1.0, both included. *)
Lemma new_intensity_range (r : float) :
  (0 <=? r)%float = true -> (r <? 1)%float = true ->
  (0.5 <=? r * 0.5 + 0.5)%float = true /\ (r * 0.5 + 0.5 <=? 1)%float = true.
Proof.
  intros H0 H1. pose proof (half_below_half r H0 H1) as Hhalf.
  rewrite !leb_spec, add_spec.
  replace (Prim2SF 1) with (S754_finite false 4503599627370496 (-52)) by reflexivity.
  replace (Prim2SF 0.5) with (S754_finite false 4503599627370496 (-53)) by reflexivity.
  destruct (Prim2SF (r * 0.5)%float) as [s| | |[] mt et]; try tauto;
    try (split; reflexivity).
  - destruct Hhalf as [Het Hmt].
    unfold SF64add, SFadd. cbv zeta. rewrite Z.min_l by lia.
    rewrite !shl_align_value by lia. cbn [cond_Zopp].
    replace (et - et) with 0 by lia. change (2 ^ 0) with 1. rewrite Z.mul_1_r.
    set (d := - et - 53).
    assert (Hd : 0 < d) by (subst d; lia).
    assert (Hpow : 4503599627370496 * 2 ^ (-53 - et) = 2 ^ (52 + d)).
    { change 4503599627370496 with (2 ^ 52). rewrite <- Z.pow_add_r by lia.
      f_equal. subst d. lia. }
    change (Z.pos 4503599627370496) with 4503599627370496. rewrite Hpow.
    assert (H2d : 0 < 2 ^ d) by (apply Z.pow_pos_nonneg; lia).
    assert (Hmd : Z.pos mt < 2 ^ (52 + d)).
    { assert (2 ^ 53 <= 2 ^ (52 + d)) by (apply Z.pow_le_mono_r; lia). lia. }
    destruct (Z.pos mt + 2 ^ (52 + d)) as [|p|p] eqn:Hp; try lia.
    cbn [binary_normalize]. unfold binary_round.
    assert (Hdig : Z.pos (digits2_pos p) = 53 + d).
    { apply digits2_pos_unique. rewrite <- Hp.
      replace (53 + d - 1) with (52 + d) by lia.
      replace (53 + d) with (1 + (52 + d)) by lia.
      rewrite (Z.pow_add_r 2 1) by lia. change (2 ^ 1) with 2. lia. }
    rewrite Hdig, fexp_normal by lia.
    unfold shl_align. replace (53 + d + et - 53 - et) with d by lia.
    destruct d as [|dp|dp] eqn:Ed; try lia.
    destruct (binary_round_aux_normal p et (Z.pos dp))
      as (m' & e' & Hround & Hm' & He' & Hclose); try lia.
    rewrite Hround.
    assert (Het53 : et + Z.pos dp = -53) by lia.
    unfold SFleb, SFcompare.
    destruct (Z.eq_dec e' (-53)) as [->|Hcarry].
    + cbn [Z.compare]. split.
      * rewrite Pos.compare_cont_spec. unfold Pos.switch_Eq.
        destruct (Pos.compare_spec 4503599627370496 m') as [| |Hgt]; try reflexivity.
        apply Pos2Z.pos_lt_pos in Hgt.
        change (2 ^ 52) with 4503599627370496 in Hm'. clear - Hgt Hm'. lia.
      * reflexivity.
    + assert (e' = -52) as -> by lia. cbn [Z.compare].
      assert (Hm1 : m' = 4503599627370496%positive).
      { replace (-52 - et) with (Z.pos dp + 1) in Hclose by lia.
        rewrite Z.pow_add_r in Hclose by lia. change (2 ^ 1) with 2 in Hclose.
        rewrite <- Hp in Hclose.
        rewrite Z.pow_add_r in Hmd, Hclose by lia.
        change (2 ^ 52) with 4503599627370496 in *. nia. }
      subst m'. split; reflexivity.
Qed.

End IntensityRange.

(** X18: a cell set alight by a tick starts with duration 0 and an
    intensity between 0.5 and 1.0, both included, when the random draws
    are in [0, 1): on IEEE doubles [draw * 0.5 + 0.5] never leaves that
    range. *)
Theorem spread_intensity_range
    (M : Trig.t) (params : SimulationParams.t) (g : GridData.t) (rng : Rng.t) :
  well_formed g -> Rng.unit_interval rng ->
  exists g' rng',
    stepSimulation M g params rng = Normal (g', rng')
    /\ forall x y c c',
         grid_cell g x y = Some c -> Cell.burnState c = UNBURNED ->
         grid_cell g' x y = Some c' -> Cell.burnState c' = BURNING ->
         (0.5 <=? Cell.burnIntensity c') = true
         /\ (Cell.burnIntensity c' <=? 1) = true
         /\ Cell.burnDuration c' = 0.
Proof.
  intros Hwf Hunit.
  destruct (tick_spread_source M params g rng Hwf) as (g' & rng' & Hrun & Hcells).
  exists g', rng'. split; [exact Hrun|]. intros x y c c' Hc Hst Hc' Hb.
  destruct (Hcells x y c Hc Hst)
    as [Hsame|(nx & ny & nb & n & _ & _ & _ & _ & _ & _ & _ & Hlit)].
  - rewrite Hc' in Hsame. injection Hsame as ->. congruence.
  - rewrite Hc' in Hlit. injection Hlit as ->. cbn [Cell.with_burn Cell.burnIntensity
      Cell.burnDuration].
    destruct (Hunit (S n)) as [H0 H1].
    destruct (new_intensity_range (Rng.draws rng (S n)) H0 H1) as [Hlo Hhi].
    now split_and!.
Qed.

Lemma alternating_tape_unit_interval r r' :
  (0 <=? r) = true -> (r <? 1) = true -> (0 <=? r') = true -> (r' <? 1) = true ->
  Rng.unit_interval (alternating_tape r r').
Proof. intros H0 H1 H0' H1' n. cbn. now destruct (Nat.even n). Qed.

Lemma spread_intensity_range_witness :
  well_formed sample_grid /\ Rng.unit_interval (alternating_tape 0 0.75)
  /\ exists g' rng',
       stepSimulation grid_trig sample_grid sample_params (alternating_tape 0 0.75)
       = Normal (g', rng')
       /\ (grid_cell sample_grid 1 1 = Some (sample_cell GRASS UNBURNED 1 1 0 0)
           /\ grid_cell g' 1 1 = Some (sample_cell GRASS BURNING 1 1 0.875 0))
       /\ forall x y c c',
            grid_cell sample_grid x y = Some c -> Cell.burnState c = UNBURNED ->
            grid_cell g' x y = Some c' -> Cell.burnState c' = BURNING ->
            (0.5 <=? Cell.burnIntensity c') = true
            /\ (Cell.burnIntensity c' <=? 1) = true
            /\ Cell.burnDuration c' = 0.
Proof.
  assert (Hunit : Rng.unit_interval (alternating_tape 0 0.75))
    by (apply alternating_tape_unit_interval; reflexivity).
  split; [exact sample_grid_well_formed|]. split; [exact Hunit|].
  destruct (spread_intensity_range grid_trig sample_params sample_grid
              (alternating_tape 0 0.75) sample_grid_well_formed Hunit)
    as (g' & rng' & Hrun & Hrange).
  exists g', rng'. split; [exact Hrun|]. split; [|exact Hrange].
  split; [reflexivity|].
  vm_compute in Hrun. injection Hrun as <- _. reflexivity.
Defined.

(** * Grids of water *)

(** [igniteCell] leaves a grid of water as it is, wherever it is aimed. *)
Lemma igniteCell_all_water (g : GridData.t) (x y : Z) :
  well_formed g ->
  (forall x y c, grid_cell g x y = Some c -> Cell.terrain c = WATER) ->
  igniteCell g x y = Normal g.
Proof.
  intros Hwf Hwater.
  destruct (igniteCell_cases g x y Hwf)
    as [(_ & _ & row & cell & Hrow & Hcell & Hrun)|[_ Hrun]]; [|exact Hrun].
  rewrite Hrun. rewrite (Hwater (Z.to_nat x) (Z.to_nat y) cell).
  - simpl. now rewrite andb_false_r.
  - unfold grid_cell. now rewrite Hrow.
Qed.

(** C7: on a well-formed grid whose cells are all Water and none of them
    Burning, a tick returns the grid itself, every cell unchanged in
    every field, for any parameters and without a random draw.  No cell
    is Burning in an all-Water grid the program works on: the rasterizer
    and the reset deliver Unburned cells, and, second part, ticks and
    ignitions in any number and order return such a grid as it is, since
    [igniteCell] passes over Water and a tick finds no fire to spread. *)
Theorem all_water_tick_unchanged (M : Trig.t) (g : GridData.t) :
  well_formed g ->
  (forall x y c, grid_cell g x y = Some c -> Cell.terrain c = WATER) ->
  (forall x y c, grid_cell g x y = Some c -> Cell.burnState c <> BURNING) ->
  (forall params rng, stepSimulation M g params rng = Normal (g, rng))
  /\ (forall ops rng, run M ops g rng = Normal (g, rng)).
Proof.
  intros Hwf Hwater Hquiet.
  split; [intros params rng; now apply tick_without_fire|].
  induction ops as [|[params|x y] rest IH]; intros rng.
  - reflexivity.
  - cbn [run apply_operation]. unfold bind.
    rewrite tick_without_fire by assumption. apply IH.
  - cbn [run apply_operation]. unfold bind, lift.
    rewrite igniteCell_all_water by assumption. apply IH.
Qed.

Lemma still_pond_well_formed : well_formed still_pond.
Proof. split; [reflexivity | repeat constructor]. Qed.

Lemma still_pond_cells x y c :
  grid_cell still_pond x y = Some c ->
  Cell.terrain c = WATER /\ Cell.burnState c <> BURNING.
Proof.
  unfold grid_cell.
  destruct y as [|[|y]]; simpl; [| |discriminate];
    (destruct x as [|[|x]]; simpl; [| |discriminate]); now intros [= <-].
Qed.

Lemma all_water_tick_unchanged_witness :
  well_formed still_pond
  /\ (forall x y c, grid_cell still_pond x y = Some c -> Cell.terrain c = WATER)
  /\ (forall x y c, grid_cell still_pond x y = Some c -> Cell.burnState c <> BURNING)
  /\ (forall params rng,
        stepSimulation grid_trig still_pond params rng = Normal (still_pond, rng))
  /\ (forall ops rng, run grid_trig ops still_pond rng = Normal (still_pond, rng)).
Proof.
  assert (Hwater : forall x y c,
             grid_cell still_pond x y = Some c -> Cell.terrain c = WATER)
    by (intros x y c Hc; apply (still_pond_cells x y c Hc)).
  assert (Hquiet : forall x y c,
             grid_cell still_pond x y = Some c -> Cell.burnState c <> BURNING)
    by (intros x y c Hc; apply (still_pond_cells x y c Hc)).
  split; [exact still_pond_well_formed|]. split; [exact Hwater|].
  split; [exact Hquiet|].
  exact (all_water_tick_unchanged grid_trig still_pond still_pond_well_formed
           Hwater Hquiet).
Defined.

(** * Water next to a fire *)

(** A tick leaves every Water cell that is not Burning as it was,
    whatever burns around it. *)
Lemma tick_water_cells
    (M : Trig.t) (params : SimulationParams.t) (g : GridData.t) (rng : Rng.t) :
  well_formed g -> Rng.unit_interval rng ->
  exists g' rng',
    stepSimulation M g params rng = Normal (g', rng')
    /\ well_formed g' /\ Rng.unit_interval rng'
    /\ forall x y c,
         grid_cell g x y = Some c -> Cell.terrain c = WATER ->
         Cell.burnState c <> BURNING -> grid_cell g' x y = Some c.
Proof.
  intros Hwf Hunit.
  destruct (stepSimulation_cells M params g Hwf rng)
    as (g' & rng' & Hrun & Htape & _ & Hwf' & Hcells).
  exists g', rng'. split; [exact Hrun|]. split; [exact Hwf'|].
  split; [eapply unit_interval_same_tape; eassumption|].
  intros x y c Hc Hw Hst.
  destruct (grid_cell_in_range g x y c Hwf Hc) as [Hx Hy].
  destruct (Hcells x y Hx Hy) as (c' & Hc' & c0 & nbrs & r1 & r2 & Hc0 & _ & E & _ & Hup).
  assert (c0 = c) as -> by congruence.
  rewrite Hc'. f_equal.
  eapply (updateCellBurnState_water M params c nbrs r1); eauto.
  intros n. rewrite E. apply Hunit.
Qed.

(** [igniteCell] leaves every Water cell as it was. *)
Lemma igniteCell_water_cells (g : GridData.t) (ix iy : Z) :
  well_formed g ->
  exists g',
    igniteCell g ix iy = Normal g' /\ well_formed g'
    /\ forall x y c,
         grid_cell g x y = Some c -> Cell.terrain c = WATER -> grid_cell g' x y = Some c.
Proof.
  intros Hwf.
  destruct (igniteCell_cases g ix iy Hwf)
    as [(_ & _ & row & cell & Hrow & Hcell & Hrun)|[_ Hrun]]; [|eauto].
  destruct (bool_decide (Cell.burnState cell = UNBURNED)
            && (0 <? getFlammability (Cell.terrain cell))) eqn:Hcond; [|eauto].
  apply andb_prop in Hcond as [_ Hfl]. apply flammability_positive in Hfl.
  eexists. split; [exact Hrun|]. split; [now apply well_formed_assign|].
  intros x y c Hc Hw.
  rewrite (grid_cell_assign g _ _ row) by (try assumption; eapply lookup_lt_Some; exact Hcell).
  destruct (decide ((x, y) = (Z.to_nat ix, Z.to_nat iy))) as [[= -> ->]|_]; [|exact Hc].
  exfalso. apply Hfl. unfold grid_cell in Hc. rewrite Hrow in Hc. congruence.
Qed.

(** X19: in any grid, whatever the terrain around it, a Water cell
    that is not Burning comes out of any sequence of ticks and ignitions
    exactly as it went in, when the draws are in [0, 1): its spread
    probability is a product with the flammability 0, and [igniteCell]
    passes over it. *)
Theorem water_never_burns
    (M : Trig.t) (ops : list Operation) (g : GridData.t) (rng : Rng.t) :
  well_formed g -> Rng.unit_interval rng ->
  exists g' rng',
    run M ops g rng = Normal (g', rng')
    /\ forall x y c,
         grid_cell g x y = Some c -> Cell.terrain c = WATER ->
         Cell.burnState c <> BURNING -> grid_cell g' x y = Some c.
Proof.
  revert g rng. induction ops as [|op rest IH]; intros g rng Hwf Hunit.
  - exists g, rng. split; [reflexivity | now intros].
  - assert (Hop : exists g1 rng1,
               apply_operation M op g rng = Normal (g1, rng1)
               /\ well_formed g1 /\ Rng.unit_interval rng1
               /\ forall x y c,
                    grid_cell g x y = Some c -> Cell.terrain c = WATER ->
                    Cell.burnState c <> BURNING -> grid_cell g1 x y = Some c).
    { destruct op as [params|ix iy]; cbn [apply_operation].
      - now apply tick_water_cells.
      - destruct (igniteCell_water_cells g ix iy Hwf) as (g1 & Hrun & Hwf1 & Hkeep).
        exists g1, rng. unfold lift. rewrite Hrun. split_and!; try done.
        intros x y c Hc Hw _. now apply Hkeep. }
    destruct Hop as (g1 & rng1 & Hrun1 & Hwf1 & Hunit1 & Hkeep1).
    destruct (IH g1 rng1 Hwf1 Hunit1) as (g' & rng' & Hrun & Hkeep).
    exists g', rng'. cbn [run]. unfold bind. rewrite Hrun1.
    split; [exact Hrun|]. intros x y c Hc Hw Hst.
    apply Hkeep; try assumption. now apply Hkeep1.
Qed.

Lemma water_never_burns_witness :
  well_formed sample_grid /\ Rng.unit_interval (constant_tape 0)
  /\ exists g' rng',
       run grid_trig [Tick sample_params; Tick sample_params; Ignite 2 0; Tick sample_params]
         sample_grid (constant_tape 0) = Normal (g', rng')
       /\ (grid_cell sample_grid 2 0 = Some (sample_cell WATER UNBURNED 2 0 0 0)
           /\ grid_cell g' 2 0 = Some (sample_cell WATER UNBURNED 2 0 0 0)
           /\ Cell.burnState <$> grid_cell g' 1 0 = Some BURNING
           /\ Cell.burnDuration <$> grid_cell g' 1 0 = Some 2
           /\ Cell.burnState <$> grid_cell g' 2 1 = Some BURNING)
       /\ forall x y c,
            grid_cell sample_grid x y = Some c -> Cell.terrain c = WATER ->
            Cell.burnState c <> BURNING -> grid_cell g' x y = Some c.
Proof.
  assert (Hunit : Rng.unit_interval (constant_tape 0))
    by (apply constant_tape_unit_interval; reflexivity).
  split; [exact sample_grid_well_formed|]. split; [exact Hunit|].
  destruct (water_never_burns grid_trig
              [Tick sample_params; Tick sample_params; Ignite 2 0; Tick sample_params]
              sample_grid (constant_tape 0) sample_grid_well_formed Hunit)
    as (g' & rng' & Hrun & Hkeep).
  exists g', rng'. split; [exact Hrun|]. split; [|exact Hkeep].
  vm_compute in Hrun. injection Hrun as <- _. repeat split.
Defined.

(** * Numbers that the tile arithmetic computes exactly *)

Section Dyadic.

#[local] Open Scope Z_scope.

Lemma dyadic_canon (v : Z) : canon v = dyadic false v 0.
Proof. rewrite canon_eq. unfold dyadic. now rewrite Z.add_0_r. Qed.

(** A factor [2^j] of the integer part moves into the exponent. *)
Lemma dyadic_scale (s : bool) (v j k : Z) :
  0 < v -> 0 <= j -> v * 2 ^ j < 2 ^ 53 ->
  dyadic s (v * 2 ^ j) k = dyadic s v (k + j).
Proof.
  intros Hv Hj Hlt. unfold dyadic.
  rewrite Z.log2_mul_pow2 by lia.
  assert (H2j : 0 < 2 ^ j) by (apply Z.pow_pos_nonneg; lia).
  assert (Hl : j + Z.log2 v < 53) by (rewrite <- Z.log2_mul_pow2 by lia; apply Z.log2_lt_pow2; nia).
  pose proof (Z.log2_nonneg v) as H0.
  f_equal; [|lia]. f_equal.
  rewrite <- Z.mul_assoc, <- Z.pow_add_r by lia. do 2 f_equal. lia.
Qed.

(** Rounding an integer whose bits beyond the 53rd-highest are zero
    loses nothing. *)
Lemma binary_round_aux_dyadic (s : bool) (p : positive) (e v t : Z) :
  Z.pos p = v * 2 ^ t -> 0 < v < 2 ^ 53 -> 0 <= t -> 52 <= Z.log2 v + t ->
  -1074 <= Z.log2 v - 52 + (e + t) <= 971 ->
  binary_round_aux prec emax s (Z.pos p) e loc_Exact = dyadic s v (e + t).
Proof.
  intros Hp Hv Ht Hbig He.
  destruct (canon_mantissa v Hv) as (Hl & Hspec & Hm).
  set (l := Z.log2 v) in *.
  set (q := Z.to_pos (v * 2 ^ (52 - l))).
  assert (Hq : Z.pos q = v * 2 ^ (52 - l)) by (subst q; rewrite Z2Pos.id; lia).
  rewrite (binary_round_aux_exact s p e (l + t - 52) q); try lia.
  - unfold dyadic. fold l. fold q. f_equal. lia.
  - apply digits2_pos_unique. rewrite Hp.
    replace (53 + (l + t - 52) - 1) with (l + t) by lia.
    replace (53 + (l + t - 52)) with (l + 1 + t) by lia.
    rewrite !Z.pow_add_r by lia. change (2 ^ 1) with 2.
    assert (H2t : 0 < 2 ^ t) by (apply Z.pow_pos_nonneg; lia).
    rewrite Z.pow_add_r in Hspec by lia. change (2 ^ 1) with 2 in Hspec. nia.
  - rewrite Hq, Hp.
    replace t with ((l + t - 52) + (52 - l)) at 1 by lia.
    rewrite Z.pow_add_r by lia. ring.
Qed.

Lemma binary_round_dyadic (s : bool) (p : positive) (e v t : Z) :
  Z.pos p = v * 2 ^ t -> 0 < v < 2 ^ 53 -> 0 <= t ->
  -1074 <= Z.log2 v - 52 + (e + t) <= 971 ->
  binary_round prec emax s p e = dyadic s v (e + t).
Proof.
  intros Hp Hv Ht He.
  destruct (canon_mantissa v Hv) as (Hl & Hspec & Hm).
  set (l := Z.log2 v) in *.
  assert (H2t : 0 < 2 ^ t) by (apply Z.pow_pos_nonneg; lia).
  assert (Hdig : Z.pos (digits2_pos p) = l + 1 + t).
  { apply digits2_pos_unique. rewrite Hp.
    replace (l + 1 + t - 1) with (l + t) by lia.
    rewrite !Z.pow_add_r by lia. change (2 ^ 1) with 2.
    rewrite Z.pow_add_r in Hspec by lia. change (2 ^ 1) with 2 in Hspec. nia. }
  unfold binary_round. rewrite Hdig, fexp_normal by lia.
  unfold shl_align.
  destruct (l + 1 + t + e - 53 - e) as [|dd|dd] eqn:Hdd.
  - apply (binary_round_aux_dyadic s p e v t); try assumption; subst l; lia.
  - apply (binary_round_aux_dyadic s p e v t); try assumption; subst l; lia.
  - change (Pos.iter xO p dd) with (shift_pos dd p).
    replace (e + t) with ((l + 1 + t + e - 53) + (52 - l)) by lia.
    apply binary_round_aux_dyadic; try assumption; try (subst l; lia).
    rewrite shift_pos_correct, Z.pow_pos_fold, Hp.
    replace (52 - l) with (t + Z.pos dd) by lia.
    rewrite Z.pow_add_r by lia. ring.
Qed.

(** Normalizing a signed integer times a power of two. *)
Lemma binary_normalize_dyadic (u t k : Z) :
  u <> 0 -> Z.abs u < 2 ^ 53 -> 0 <= t ->
  -1074 <= Z.log2 (Z.abs u) - 52 + k <= 971 ->
  binary_normalize prec emax (u * 2 ^ t) (k - t) false
  = dyadic (u <? 0) (Z.abs u) k.
Proof.
  intros Hu Habs Ht Hk.
  assert (H2t : 0 < 2 ^ t) by (apply Z.pow_pos_nonneg; lia).
  replace k with ((k - t) + t) at 2 by lia.
  destruct (u * 2 ^ t) as [|p|p] eqn:Hp; [nia| |].
  - assert (0 < u) by nia. rewrite (proj2 (Z.ltb_ge u 0)) by lia.
    cbn [binary_normalize]. rewrite Z.abs_eq in * by lia.
    apply binary_round_dyadic; lia.
  - assert (u < 0) by nia. rewrite (proj2 (Z.ltb_lt u 0)) by lia.
    cbn [binary_normalize]. rewrite Z.abs_neq in * by lia.
    apply binary_round_dyadic; lia.
Qed.

Lemma dyadic_mantissa (v : Z) :
  0 < v < 2 ^ 53 ->
  Z.pos (Z.to_pos (v * 2 ^ (52 - Z.log2 v))) = v * 2 ^ (52 - Z.log2 v)
  /\ Z.pos (digits2_pos (Z.to_pos (v * 2 ^ (52 - Z.log2 v)))) = 53.
Proof.
  intros Hv. destruct (canon_mantissa v Hv) as (Hl & Hspec & Hm).
  assert (E : Z.pos (Z.to_pos (v * 2 ^ (52 - Z.log2 v))) = v * 2 ^ (52 - Z.log2 v))
    by (rewrite Z2Pos.id; lia).
  split; [exact E|].
  apply digits2_pos_unique. rewrite E. change (53 - 1) with 52. lia.
Qed.

(** A product that fits in 53 bits is exact. *)
Lemma SFmul_dyadic (sa sb : bool) (va vb ka kb : Z) :
  0 < va -> 0 < vb -> va * vb < 2 ^ 53 ->
  -1074 <= Z.log2 (va * vb) - 52 + (ka + kb) <= 971 ->
  SFmul prec emax (dyadic sa va ka) (dyadic sb vb kb)
  = dyadic (xorb sa sb) (va * vb) (ka + kb).
Proof.
  intros Ha Hb Hab Hk.
  assert (Ha' : 0 < va < 2 ^ 53) by nia.
  assert (Hb' : 0 < vb < 2 ^ 53) by nia.
  destruct (canon_mantissa va Ha') as (Hla & _ & Hma).
  destruct (canon_mantissa vb Hb') as (Hlb & _ & Hmb).
  destruct (dyadic_mantissa va Ha') as [Ea _].
  destruct (dyadic_mantissa vb Hb') as [Eb _].
  pose proof (Z.log2_mul_below va vb Ha Hb) as Hbelow.
  unfold dyadic at 1 2. cbn [SFmul].
  set (la := Z.log2 va) in *. set (lb := Z.log2 vb) in *.
  rewrite (binary_round_aux_dyadic (xorb sa sb) _ _ (va * vb) (104 - la - lb)); try lia.
  - f_equal. lia.
  - rewrite Pos2Z.inj_mul, Ea, Eb.
    replace (104 - la - lb) with ((52 - la) + (52 - lb)) by lia.
    rewrite Z.pow_add_r by lia. ring.
Qed.

Lemma cond_Zopp_mul (s : bool) (a b : Z) : cond_Zopp s (a * b) = cond_Zopp s a * b.
Proof. destruct s; simpl; ring. Qed.

(** The aligned mantissa of a dyadic number in a sum. *)
Lemma shl_align_dyadic (s : bool) (v k ez kk : Z) :
  0 < v < 2 ^ 53 -> ez <= Z.log2 v - 52 + k -> ez <= kk -> kk <= k ->
  cond_Zopp s (Z.pos (fst (shl_align (Z.to_pos (v * 2 ^ (52 - Z.log2 v)))
                              (Z.log2 v - 52 + k) ez)))
  = cond_Zopp s v * 2 ^ (k - kk) * 2 ^ (kk - ez).
Proof.
  intros Hv He Hkk Hk.
  destruct (canon_mantissa v Hv) as (Hl & _ & _).
  destruct (dyadic_mantissa v Hv) as [E _].
  rewrite shl_align_value by lia. rewrite E.
  rewrite <- !Z.mul_assoc, <- !Z.pow_add_r by lia.
  rewrite cond_Zopp_mul. do 2 f_equal. lia.
Qed.

(** A sum that fits in 53 bits is exact. *)
Lemma SFadd_dyadic (sa sb : bool) (va vb ka kb u : Z) :
  0 < va < 2 ^ 53 -> 0 < vb < 2 ^ 53 ->
  u = cond_Zopp sa va * 2 ^ (ka - Z.min ka kb) + cond_Zopp sb vb * 2 ^ (kb - Z.min ka kb) ->
  u <> 0 -> Z.abs u < 2 ^ 53 ->
  -1074 <= Z.log2 (Z.abs u) - 52 + Z.min ka kb <= 971 ->
  SFadd prec emax (dyadic sa va ka) (dyadic sb vb kb)
  = dyadic (u <? 0) (Z.abs u) (Z.min ka kb).
Proof.
  intros Ha Hb Hu Hu0 Habs Hk.
  destruct (canon_mantissa va Ha) as (Hla & _ & _).
  destruct (canon_mantissa vb Hb) as (Hlb & _ & _).
  unfold dyadic at 1 2. cbn [SFadd]. cbv zeta.
  set (k := Z.min ka kb) in *.
  set (ez := Z.min (Z.log2 va - 52 + ka) (Z.log2 vb - 52 + kb)).
  rewrite (shl_align_dyadic sa va ka ez k), (shl_align_dyadic sb vb kb ez k) by lia.
  rewrite <- Z.mul_add_distr_r, <- Hu.
  replace ez with (k - (k - ez)) at 2 by lia.
  apply binary_normalize_dyadic; lia.
Qed.

(** A difference that fits in 53 bits is exact; it is +0 when the two
    numbers are equal. *)
Lemma SFsub_dyadic (sa sb : bool) (va vb ka kb u : Z) :
  0 < va < 2 ^ 53 -> 0 < vb < 2 ^ 53 ->
  u = cond_Zopp sa va * 2 ^ (ka - Z.min ka kb) - cond_Zopp sb vb * 2 ^ (kb - Z.min ka kb) ->
  Z.abs u < 2 ^ 53 ->
  -1074 <= Z.log2 (Z.abs u) - 52 + Z.min ka kb <= 971 ->
  SFsub prec emax (dyadic sa va ka) (dyadic sb vb kb)
  = if u =? 0 then S754_zero false else dyadic (u <? 0) (Z.abs u) (Z.min ka kb).
Proof.
  intros Ha Hb Hu Habs Hk.
  destruct (canon_mantissa va Ha) as (Hla & _ & _).
  destruct (canon_mantissa vb Hb) as (Hlb & _ & _).
  unfold dyadic at 1 2. cbn [SFsub]. cbv zeta.
  set (k := Z.min ka kb) in *.
  set (ez := Z.min (Z.log2 va - 52 + ka) (Z.log2 vb - 52 + kb)).
  rewrite (shl_align_dyadic sa va ka ez k), (shl_align_dyadic sb vb kb ez k) by lia.
  rewrite <- Z.mul_sub_distr_r, <- Hu.
  destruct (Z.eqb_spec u 0) as [->|Hu0]; [reflexivity|].
  replace ez with (k - (k - ez)) at 2 by lia.
  apply binary_normalize_dyadic; lia.
Qed.

Lemma div_eucl_exact (q b : Z) : 0 < b -> Z.div_eucl (q * b) b = (q, 0).
Proof.
  intros Hb.
  rewrite (surjective_pairing (Z.div_eucl (q * b) b)).
  change (fst (Z.div_eucl (q * b) b)) with (q * b / b).
  change (snd (Z.div_eucl (q * b) b)) with ((q * b) mod b).
  now rewrite Z.div_mul, Z.mod_mul by lia.
Qed.

Lemma new_location_exact (n : Z) : new_location n 0 = loc_Exact.
Proof. unfold new_location. now destruct (Z.even n). Qed.

(** A quotient of a multiple by its divisor is exact. *)
Lemma SFdiv_dyadic (sa sb : bool) (vb c ka kb : Z) :
  0 < vb -> 0 < c -> vb * c < 2 ^ 53 ->
  -1021 <= Z.log2 (vb * c) - Z.log2 vb + ka - kb ->
  -1074 <= Z.log2 c - 52 + (ka - kb) <= 971 ->
  SFdiv prec emax (dyadic sa (vb * c) ka) (dyadic sb vb kb)
  = dyadic (xorb sa sb) c (ka - kb).
Proof.
  intros Hb Hc Hbc Hfexp Hk.
  assert (Ha' : 0 < vb * c < 2 ^ 53) by nia.
  assert (Hb' : 0 < vb < 2 ^ 53) by nia.
  assert (Hc' : 0 < c < 2 ^ 53) by nia.
  destruct (canon_mantissa (vb * c) Ha') as (Hla & _ & _).
  destruct (canon_mantissa vb Hb') as (Hlb & _ & Hmb).
  destruct (canon_mantissa c Hc') as (Hlc & _ & _).
  destruct (dyadic_mantissa (vb * c) Ha') as [Ea Da].
  destruct (dyadic_mantissa vb Hb') as [Eb Db].
  pose proof (Z.log2_mul_above vb c ltac:(lia) ltac:(lia)) as Habove.
  unfold dyadic at 1 2. cbn [SFdiv]. unfold SFdiv_core_binary. cbn [Zdigits2].
  rewrite Da, Db.
  set (la := Z.log2 (vb * c)) in *. set (lb := Z.log2 vb) in *.
  set (lc := Z.log2 c) in *.
  set (ma := Z.to_pos (vb * c * 2 ^ (52 - la))) in *.
  set (mb := Z.to_pos (vb * 2 ^ (52 - lb))) in *.
  rewrite fexp_normal by lia.
  rewrite Z.min_l by lia.
  replace (la - 52 + ka - (lb - 52 + kb) - (53 + (la - 52 + ka) - (53 + (lb - 52 + kb)) - 53))
    with 53 by lia.
  cbv iota.
  rewrite Z.shiftl_mul_pow2 by lia.
  assert (Hq : Z.pos ma * 2 ^ 53 = c * 2 ^ (53 + lb - la) * Z.pos mb).
  { rewrite Ea, Eb.
    replace (53 + lb - la) with ((52 - la) + 53 - (52 - lb)) by lia.
    assert (E2 : 2 ^ (52 - la + 53) = 2 ^ (52 - la + 53 - (52 - lb)) * 2 ^ (52 - lb)).
    { rewrite <- Z.pow_add_r by lia. f_equal. lia. }
    rewrite <- !Z.mul_assoc, <- (Z.pow_add_r 2 (52 - la) 53) by lia. rewrite E2. ring. }
  rewrite Hq, div_eucl_exact by lia. cbv iota beta.
  rewrite new_location_exact.
  assert (H2 : 0 < 2 ^ (53 + lb - la)) by (apply Z.pow_pos_nonneg; lia).
  assert (Hpos : 0 < c * 2 ^ (53 + lb - la)) by nia.
  rewrite <- (Z2Pos.id (c * 2 ^ (53 + lb - la))) by exact Hpos.
  rewrite (binary_round_aux_dyadic (xorb sa sb) _ _ c (53 + lb - la));
    try (subst lc; lia).
  f_equal. lia.
Qed.

End Dyadic.

Section Columns.

#[local] Open Scope Z_scope.

Lemma Prim2SF_pow2 (z : Z) :
  0 <= z <= 52 -> Prim2SF (Js.of_Z (2 ^ z)) = dyadic false 1 z.
Proof.
  intros Hz.
  assert (H2 : 0 < 2 ^ z < 2 ^ 53).
  { split; [apply Z.pow_pos_nonneg; lia | apply Z.pow_lt_mono_r; lia]. }
  rewrite Prim2SF_of_Z, dyadic_canon by exact H2.
  rewrite <- (Z.mul_1_l (2 ^ z)). rewrite dyadic_scale by lia. f_equal.
Qed.

Lemma Prim2SF_number (v : Z) :
  0 < v < 2 ^ 53 -> Prim2SF (Js.of_Z v) = dyadic false v 0.
Proof. intros Hv. now rewrite Prim2SF_of_Z, dyadic_canon. Qed.

(** [Math.floor] of an integer is that integer. *)
Lemma Math_floor_of_Z (v : Z) :
  0 <= v < 2 ^ 53 -> Js.Math_floor (Js.of_Z v) = Js.of_Z v.
Proof.
  intros Hv. destruct (Z.eq_dec v 0) as [->|Hv0]; [reflexivity|].
  unfold Js.Math_floor. rewrite Prim2SF_of_Z, canon_eq by lia.
  destruct (canon_mantissa v ltac:(lia)) as (Hl & _ & Hm).
  destruct (Z.leb_spec 0 (Z.log2 v - 52)) as [_|Hneg]; [reflexivity|].
  rewrite Z2Pos.id by lia. rewrite Z.shiftr_div_pow2 by lia.
  replace (- (Z.log2 v - 52)) with (52 - Z.log2 v) by lia.
  rewrite Z.div_mul by (apply Z.pow_nonzero; lia). reflexivity.
Qed.

Lemma cond_Zopp_ltb (u : Z) : cond_Zopp (u <? 0) (Z.abs u) = u.
Proof. destruct (Z.ltb_spec u 0); simpl; lia. Qed.

(** The column of the west edge of column [x]: every step of
    [x / n * 360 - 180] and of [(lon + 180) / 360 * n] is exact when
    [n] is a power of two and [360 * x] fits in 53 bits. *)
Lemma west_edge_column (x z : Z) :
  0 <= z <= 44 -> 0 <= x < 2 ^ z ->
  Js.Math_floor
    ((Js.of_Z x / Js.of_Z (2 ^ z) * 360 - 180 + 180) / 360 * Js.of_Z (2 ^ z))%float
  = Js.of_Z x.
Proof.
  intros Hz Hx.
  assert (H2z : 0 < 2 ^ z <= 2 ^ 44).
  { split; [apply Z.pow_pos_nonneg; lia | apply Z.pow_le_mono_r; lia]. }
  assert (HN : Prim2SF (Js.of_Z (2 ^ z)) = dyadic false 1 z) by (apply Prim2SF_pow2; lia).
  assert (H360 : Prim2SF 360 = dyadic false 360 0) by reflexivity.
  assert (H180 : Prim2SF 180 = dyadic false 180 0) by reflexivity.
  enough (E : ((Js.of_Z x / Js.of_Z (2 ^ z) * 360 - 180 + 180) / 360 * Js.of_Z (2 ^ z))%float
              = Js.of_Z x) by (rewrite E; apply Math_floor_of_Z; lia).
  apply Prim2SF_inj.
  rewrite mul_spec, div_spec, add_spec, sub_spec, mul_spec, div_spec.
  rewrite HN, H360, H180.
  unfold SF64mul, SF64div, SF64add, SF64sub.
  destruct (Z.eq_dec x 0) as [->|Hx0].
  - change (Prim2SF (Js.of_Z 0)) with (S754_zero false). reflexivity.
  - rewrite (Prim2SF_number x) by lia.
    assert (H53 : 2 ^ 53 = 512 * 2 ^ 44) by reflexivity.
    assert (Hx360 : 0 < x * 360 < 2 ^ 53) by lia.
    pose proof (Z.log2_nonneg x) as Hlx0.
    assert (Hlx : Z.log2 x < 53) by (apply Z.log2_lt_pow2; lia).
    pose proof (Z.log2_nonneg (x * 360)) as Hlw0.
    assert (Hlw : Z.log2 (x * 360) < 53) by (apply Z.log2_lt_pow2; lia).
    assert (Hl360 : Z.log2 360 = 8) by reflexivity.
    assert (Hl1 : Z.log2 1 = 0) by reflexivity.
    (* x / n *)
    rewrite <- (Z.mul_1_l x) at 1.
    rewrite (SFdiv_dyadic false false 1 x 0 z) by (rewrite ?Z.mul_1_l; lia).
    cbn [xorb].
    (* ... * 360 *)
    rewrite (SFmul_dyadic false false x 360 (0 - z) 0) by lia.
    cbn [xorb].
    (* ... - 180 *)
    set (u := x * 360 - 180 * 2 ^ z).
    assert (Hu : Z.abs u < 2 ^ 53) by (subst u; lia).
    pose proof (Z.log2_nonneg (Z.abs u)) as Hlu0.
    assert (Hlu : Z.abs u <> 0 -> Z.log2 (Z.abs u) < 53) by (intros; apply Z.log2_lt_pow2; lia).
    assert (Hmin : Z.min (0 - z + 0) 0 = - z) by lia.
    rewrite (SFsub_dyadic false false (x * 360) 180 (0 - z + 0) 0 u); try lia.
    2: { rewrite Hmin. replace (0 - z + 0 - - z) with 0 by lia.
         replace (0 - - z) with z by lia. subst u. cbn [cond_Zopp]. change (2 ^ 0) with 1. ring. }
    2: { rewrite Hmin. destruct (Z.eq_dec (Z.abs u) 0) as [E0|E0]; [rewrite E0; simpl|]; lia. }
    rewrite Hmin.
    (* ... + 180 *)
    assert (Hadd : SFadd prec emax
                     (if u =? 0 then S754_zero false else dyadic (u <? 0) (Z.abs u) (- z))
                     (dyadic false 180 0)
                   = dyadic false (360 * x) (- z)).
    { destruct (Z.eqb_spec u 0) as [E0|E0].
      - replace (360 * x) with (180 * 2 ^ z) by (subst u; lia).
        rewrite dyadic_scale by lia. replace (- z + z) with 0 by lia. reflexivity.
      - assert (Hmin' : Z.min (- z) 0 = - z) by lia.
        rewrite (SFadd_dyadic (u <? 0) false (Z.abs u) 180 (- z) 0 (360 * x)); try lia.
        + rewrite Hmin', (proj2 (Z.ltb_ge (360 * x) 0)) by lia.
          now rewrite Z.abs_eq by lia.
        + rewrite Hmin', cond_Zopp_ltb. replace (- z - - z) with 0 by lia.
          replace (0 - - z) with z by lia. subst u. cbn [cond_Zopp].
          change (2 ^ 0) with 1. ring.
        + rewrite Hmin', Z.abs_eq by lia. rewrite Z.mul_comm. lia. }
    rewrite Hadd.
    (* ... / 360 *)
    rewrite (SFdiv_dyadic false false 360 x (- z) 0) by (rewrite ?(Z.mul_comm 360 x); lia).
    cbn [xorb].
    (* ... * n *)
    rewrite (SFmul_dyadic false false x 1 (- z - 0) z) by (rewrite ?Z.mul_1_r; lia).
    cbn [xorb]. rewrite Z.mul_1_r. f_equal. lia.
Qed.

End Columns.

(** * The tile of a tile's north-west corner *)

(** C9 (as stated, refuted): with a correctly rounded [Math], the
    north-west corner of tile (0, 1) at zoom 2 is mapped back to tile
    (0, 0), and that of tile (5, 2) at zoom 16 to tile (5, 1): the row
    that [Math.floor] receives is 0.9999999999999998 and
    1.999999999989086, just below the tile's north edge.  At zoom 49,
    where the longitude [x / n * 360 - 180] of column 1 no longer fits in
    53 bits, the column is lost as well: column 1 comes back as column
    0. *)
Lemma round_trip_misses_tile :
  MathLib.pow rounded_math 2 2 = 4
  /\ latLonToTile rounded_math
       (LatLon.lat (tileToLatLon rounded_math 0 1 2))
       (LatLon.lon (tileToLatLon rounded_math 0 1 2)) 2
     = {| TileXY.x := 0; TileXY.y := 0 |}
  /\ MathLib.pow rounded_math 2 16 = 65536
  /\ latLonToTile rounded_math
       (LatLon.lat (tileToLatLon rounded_math 5 2 16))
       (LatLon.lon (tileToLatLon rounded_math 5 2 16)) 16
     = {| TileXY.x := 5; TileXY.y := 1 |}
  /\ MathLib.pow rounded_math 2 49 = Js.of_Z (2 ^ 49)
  /\ TileXY.x
       (latLonToTile rounded_math
          (LatLon.lat (tileToLatLon rounded_math 1 0 49))
          (LatLon.lon (tileToLatLon rounded_math 1 0 49)) 49)
     = 0.
Proof. repeat split; reflexivity. Qed.

(** C9 (amended): for every zoom from 0 to 44 at which [Math.pow(2,
    zoom)] is the power of two, every column [x] with [0 <= x < 2^zoom]
    and every row, [latLonToTile] applied to the latitude and longitude
    that [tileToLatLon] gives for the tile returns exactly [x] as the
    column, whatever the other [Math] functions return.  The row is
    left to the rounding of [Math.sinh], [Math.atan], [Math.tan] and
    [Math.asinh]. *)
Theorem tile_round_trip_column (M : MathLib.t) (x z : Z) (y : float) :
  (0 <= z <= 44)%Z -> (0 <= x < 2 ^ z)%Z ->
  MathLib.pow M 2 (Js.of_Z z) = Js.of_Z (2 ^ z) ->
  TileXY.x
    (latLonToTile M
       (LatLon.lat (tileToLatLon M (Js.of_Z x) y (Js.of_Z z)))
       (LatLon.lon (tileToLatLon M (Js.of_Z x) y (Js.of_Z z))) (Js.of_Z z))
  = Js.of_Z x.
Proof.
  intros Hz Hx Hpow.
  unfold latLonToTile, tileToLatLon. cbn [TileXY.x LatLon.lon]. rewrite Hpow.
  now apply west_edge_column.
Qed.

Lemma tile_round_trip_column_witness :
  (0 <= 16 <= 44)%Z /\ (0 <= 5 < 2 ^ 16)%Z
  /\ MathLib.pow rounded_math 2 (Js.of_Z 16) = Js.of_Z (2 ^ 16)
  /\ TileXY.x
       (latLonToTile rounded_math
          (LatLon.lat (tileToLatLon rounded_math (Js.of_Z 5) 2 (Js.of_Z 16)))
          (LatLon.lon (tileToLatLon rounded_math (Js.of_Z 5) 2 (Js.of_Z 16))) (Js.of_Z 16))
     = Js.of_Z 5.
Proof.
  split; [lia|]. split; [lia|]. split; [reflexivity|].
  apply (tile_round_trip_column rounded_math 5 16 2); [lia | lia | reflexivity].
Defined.
